(** * Russian clipboard reader: the watcher, the enrichment step, the audio
      fallback, playback and the word history of [main(gui).py]

    The development embeds the non-presentation part of the program:
    [WorkerThread] (language detection, the three enrichment stages, the
    per-word re-translation, speech synthesis with its fallback, playback and
    the polling loop) and the word history kept by [MainWindow].

    Conventions of the embedding.
    - A Python [str] is the list of its code points ([pystr]); literals are
      written as in the source and decoded from UTF-8 by [utf8].
    - Seconds ([time.time()], the configured intervals) are rationals.
    - A call that may raise returns a [res]; an exception carries its class,
      because the source tells [except Exception] from a bare [except].
    - Methods of [WorkerThread] live in the monad [M]: they read and write
      the fields of [self], may raise, and produce the list of the signals
      they emit and of the calls they make to the outside world. *)

From Stdlib Require Import String Ascii ZArith List QArith Lqa Lia Bool.
Import ListNotations.
Open Scope Z_scope.

(* ------------------------------------------------------------------ *)
(** ** Python strings *)

Definition pystr := list Z.

Definition byte_of (a : ascii) : Z := Z.of_N (N_of_ascii a).
Definition cont (b : Z) : Z := Z.land b 63.

(** Decoder of the UTF-8 bytes of a source literal into code points. *)
Fixpoint utf8 (s : string) : pystr :=
  match s with
  | EmptyString => []
  | String a r =>
      let b := byte_of a in
      if b <? 128 then b :: utf8 r
      else if b <? 224 then
        match r with
        | String a1 r1 =>
            Z.lor (Z.shiftl (Z.land b 31) 6) (cont (byte_of a1)) :: utf8 r1
        | EmptyString => []
        end
      else if b <? 240 then
        match r with
        | String a1 (String a2 r2) =>
            Z.lor (Z.shiftl (Z.land b 15) 12)
              (Z.lor (Z.shiftl (cont (byte_of a1)) 6) (cont (byte_of a2)))
            :: utf8 r2
        | _ => []
        end
      else
        match r with
        | String a1 (String a2 (String a3 r3)) =>
            Z.lor (Z.shiftl (Z.land b 7) 18)
              (Z.lor (Z.shiftl (cont (byte_of a1)) 12)
                 (Z.lor (Z.shiftl (cont (byte_of a2)) 6) (cont (byte_of a3))))
            :: utf8 r3
        | _ => []
        end
  end.

Arguments utf8 s%_string.

(** [a == b] on strings. *)
Fixpoint str_eqb (a b : pystr) : bool :=
  match a, b with
  | [], [] => true
  | x :: a', y :: b' => (x =? y) && str_eqb a' b'
  | _, _ => false
  end.

(** Truth value of a string: [if s]. *)
Definition truthy (s : pystr) : bool :=
  match s with [] => false | _ => true end.

(** [sep.join(parts)]. *)
Fixpoint join (sep : pystr) (parts : list pystr) : pystr :=
  match parts with
  | [] => []
  | [p] => p
  | p :: rest => p ++ sep ++ join sep rest
  end.

(** [s[:n]]. *)
Definition prefix (n : nat) (s : pystr) : pystr := firstn n s.

(* ------------------------------------------------------------------ *)
(** ** Exceptions *)

Inductive exn_class :=
| ImportError
| UnboundLocalError
| ZeroDivisionError
| OtherException        (* any other subclass of [Exception] *)
| BaseExceptionOnly.    (* [SystemExit], [KeyboardInterrupt], ... *)

Record exn := mk_exn { exn_cls : exn_class; exn_text : pystr }.

(** [isinstance(e, Exception)]. *)
Definition is_Exception (e : exn) : bool :=
  match exn_cls e with BaseExceptionOnly => false | _ => true end.

Definition is_ImportError (e : exn) : bool :=
  match exn_cls e with ImportError => true | _ => false end.

Inductive res (A : Type) :=
| Ret (a : A)
| Raise (e : exn).
Arguments Ret {A} a.
Arguments Raise {A} e.

Definition returns {A} (r : res A) : bool :=
  match r with Ret _ => true | Raise _ => false end.

(** A failure that [except Exception] catches. *)
Definition ordinary {A} (r : res A) : Prop :=
  match r with Ret _ => True | Raise e => is_Exception e = true end.

(* ------------------------------------------------------------------ *)
(** ** Character classes

    [str.strip], [\s], [\d] and [\W] consult the Unicode database of the
    interpreter, which is not part of the program: the three predicates are
    an interface.  [\s] and [str.strip] share [isspace]. *)

Class CharClasses := {
  isspace : Z -> bool;      (* [\s], [str.isspace] *)
  isdecimal : Z -> bool;    (* [\d] *)
  isalnum : Z -> bool       (* [\w] without the underscore *)
}.

Section Text.
Context {U : CharClasses}.

Fixpoint lstrip (s : pystr) : pystr :=
  match s with
  | c :: r => if isspace c then lstrip r else s
  | [] => []
  end.

Definition rstrip (s : pystr) : pystr := rev (lstrip (rev s)).

(** [s.strip()]. *)
Definition strip (s : pystr) : pystr := rstrip (lstrip s).

(** [Ѐ-ӿ]. *)
Definition is_cyrillic (c : Z) : bool := (0x400 <=? c) && (c <=? 0x4FF).

(** [\w]: alphanumeric or underscore. *)
Definition is_word (c : Z) : bool := isalnum c || (c =? 95).

(** [[^\s\d\W]]: none of whitespace, decimal digit, non-word character. *)
Definition is_letter_like (c : Z) : bool :=
  negb (isspace c || isdecimal c || negb (is_word c)).

(** [len(a) / len(b)], true division of two lengths. *)
Definition len_div (a b : nat) : res Q :=
  match b with
  | O => Raise (mk_exn ZeroDivisionError (utf8 "division by zero"))
  | _ => Ret (inject_Z (Z.of_nat a) / inject_Z (Z.of_nat b))%Q
  end.

Definition Qgt_bool (x y : Q) : bool := negb (Qle_bool x y).

(** [WorkerThread.is_russian_text]. *)
Definition is_russian_text (text : pystr) : res bool :=
  if negb (truthy text) || negb (truthy (strip text)) then Ret false
  else
    let russian_chars := filter is_cyrillic text in
    let total_letters := filter is_letter_like text in
    if negb (match total_letters with [] => false | _ => true end)
    then Ret false
    else
      match len_div (length russian_chars) (length total_letters) with
      | Ret q => Ret (Qgt_bool q (1 # 2))
      | Raise e => Raise e
      end.

(** The ratio the detector compares with 0.5.  Python divides the two
    lengths as floats; the quotient is correctly rounded and 0.5 is a float,
    so below 2^52 characters the comparison agrees with the one on the
    rationals. *)
Definition cyrillic_ratio (text : pystr) : Q :=
  inject_Z (Z.of_nat (length (filter is_cyrillic text)))
  / inject_Z (Z.of_nat (length (filter is_letter_like text))).

End Text.

(** A fragment of the Unicode database, enough to run the definitions on
    Latin, Cyrillic and CJK examples. *)
Definition in_range (lo hi c : Z) : bool := (lo <=? c) && (c <=? hi).

Definition sample_classes : CharClasses := {|
  isspace c := in_range 9 13 c || in_range 28 32 c || (c =? 0x85) || (c =? 0xA0);
  isdecimal c := in_range 48 57 c;
  isalnum c :=
    in_range 48 57 c || in_range 65 90 c || in_range 97 122 c
    || in_range 0x400 0x481 c || in_range 0x48A 0x4FF c
    || in_range 0x4E00 0x9FFF c
|}.

(* ------------------------------------------------------------------ *)
(** ** The monad of methods

    A method run on an object [s] yields its result or the exception it
    raises, the object after its assignments (kept when it raises), and
    what it sent to the outside, in order. *)

Section Monad.
Context {S E : Type}.

Definition M (A : Type) : Type := S -> res A * S * list E.

Definition ret {A} (a : A) : M A := fun s => (Ret a, s, []).

Definition raise {A} (e : exn) : M A := fun s => (Raise e, s, []).

Definition bind {A B} (m : M A) (f : A -> M B) : M B :=
  fun s =>
    match m s with
    | (Ret a, s1, es) => let '(r, s2, es') := f a s1 in (r, s2, es ++ es')
    | (Raise e, s1, es) => (Raise e, s1, es)
    end.

Definition lift {A} (r : res A) : M A := fun s => (r, s, []).

Definition emit (e : E) : M unit := fun s => (Ret tt, s, [e]).

(** Reading a field, assigning fields. *)
Definition get {A} (field : S -> A) : M A := fun s => (Ret (field s), s, []).
Definition modify (f : S -> S) : M unit := fun s => (Ret tt, f s, []).

(** A call to the outside: the call is recorded, then it returns or
    raises. *)
Definition call {A} (e : E) (r : res A) : M A :=
  fun s => (r, s, [e]).

(** [try: m  except Exception as e: h e]. *)
Definition try_except {A} (m : M A) (h : exn -> M A) : M A :=
  fun s =>
    match m s with
    | (Raise e, s1, es) =>
        if is_Exception e
        then let '(r, s2, es') := h e s1 in (r, s2, es ++ es')
        else (Raise e, s1, es)
    | done => done
    end.

(** [try: m  except: h] (the bare clause catches every exception). *)
Definition try_except_all {A} (m : M A) (h : exn -> M A) : M A :=
  fun s =>
    match m s with
    | (Raise e, s1, es) => let '(r, s2, es') := h e s1 in (r, s2, es ++ es')
    | done => done
    end.

(** [try: m  finally: f]. *)
Definition try_finally {A} (m : M A) (f : M unit) : M A :=
  fun s =>
    let '(r, s1, es) := m s in
    match f s1 with
    | (Ret _, s2, es') => (r, s2, es ++ es')
    | (Raise e, s2, es') => (Raise e, s2, es ++ es')
    end.

End Monad.

Arguments M S E A : clear implicits.

Declare Scope method_scope.
Delimit Scope method_scope with method.
Notation "x <- m ;; k" := (bind m (fun x => k))
  (at level 61, m at next level, right associativity) : method_scope.
Notation "' p <- m ;; k" := (bind m (fun x => match x with p => k end))
  (at level 61, p pattern, m at next level, right associativity) : method_scope.
Notation "m ;; k" := (bind m (fun _ => k))
  (at level 61, right associativity) : method_scope.
Open Scope method_scope.

Definition result_of {S E A} (x : res A * S * list E) : res A := fst (fst x).
Definition state_of {S E A} (x : res A * S * list E) : S := snd (fst x).
Definition sent_by {S E A} (x : res A * S * list E) : list E := snd x.

(* ------------------------------------------------------------------ *)
(** ** Three properties of methods *)

Section MethodProperties.
Context {S E K : Type}.
Variable key : S -> K.

(** The method leaves [key] of the object as it found it, however it
    ends. *)
Definition keeps {A} (m : M S E A) : Prop :=
  forall s, key (state_of (m s)) = key s.

Variable P : K -> Prop.

(** On an object whose key satisfies [P], the method lets no exception
    escape that [except Exception] would miss. *)
Definition mild {A} (m : M S E A) : Prop :=
  forall s, P (key s) -> ordinary (result_of (m s)).

(** On such an object the method returns. *)
Definition total {A} (m : M S E A) : Prop :=
  forall s, P (key s) -> returns (result_of (m s)) = true.

End MethodProperties.

(* ------------------------------------------------------------------ *)
(** ** Signals of the worker and calls to the outside *)

Inductive level := INFO | WARNING | ERROR | SUCCESS.

(** The two files of the audio stage: [AUDIO_FILE_PATH] and
    [AUDIO_FILE_PATH.replace('.mp3', '_temp.mp3')]. *)
Inductive path := AUDIO_FILE_PATH | temp_path.

(** [sys.platform], as far as [play_audio] tells. *)
Inductive platform := darwin | win32 | other_platform.

(** The command line given to [subprocess.run]. *)
Inductive player := afplay | cmd_start_wait | mpg123.

(** Notifications. A constructor stands for one f-string of the source,
    its arguments are the interpolated values. *)
Inductive log_msg :=
| msg_tsnorm_loaded
| msg_tsnorm_missing
| msg_tsnorm_error (e : exn)
| msg_translator_loaded
| msg_translator_missing
| msg_translator_error (e : exn)
| msg_morph_loaded
| msg_morph_error (e : exn)
| msg_morph_missing
| msg_parameters_updated (play_times : Z) (play_interval : Q)
| msg_stress_failed (e : exn)
| msg_translation_failed (e : exn)
| msg_morphology_failed (error_msg : pystr)
| msg_word_translation (original normal_form translation : pystr)
| msg_word_translation_failed (normal_form : pystr) (e : exn)
| msg_audio_fallback (e : exn)
| msg_synthesis_failed (e : exn)
| msg_play_start (i play_times : Z) (play_interval : Q)
| msg_play_done (play_times : Z) (play_interval : Q)
| msg_play_failed (stderr : pystr)
| msg_play_error (e : exn)
| msg_monitor_started
| msg_detected (display_text : pystr)
| msg_playback_failed (error_message : option pystr)
| msg_generation_failed
| msg_unexpected (e : exn)
| msg_monitor_stopped
| msg_history_loaded (n : nat)
| msg_history_missing
| msg_history_load_failed (e : exn)
| msg_history_saved
| msg_history_save_failed (e : exn).

Inductive event :=
(* signals *)
| log_signal (m : log_msg) (lv : level)
| status_signal (s : pystr)
| processed_count_signal (n : Z)
| result_signal (original stress translation morphology : pystr)
| word_analysis_signal (pairs : list (pystr * pystr))
(* calls *)
| call_normalizer (text : pystr)
| call_translate (text : pystr)
| call_parse (word : pystr)
| call_gTTS_save (text : pystr) (p : path)
| call_from_file (p : path)
| call_gain (db : Z)
| call_normalize
| call_export (p : path)
| call_exists (p : path)
| call_remove (p : path)
| call_subprocess_run (cmd : player)
| call_sleep (seconds : Q)
| call_paste
| call_time
(* the main window *)
| log_message (m : log_msg) (lv : level)
| set_word_count_label (n : nat)
| call_write_history (data : list Byte.byte)
| call_read_history.

Definition is_error_log (e : event) : bool :=
  match e with log_signal _ ERROR => true | _ => false end.

(* ------------------------------------------------------------------ *)
(** ** The worker *)

(** [morph_analyzer.parse(word)[0]]: its [normal_form], and the grammemes of
    its [tag] in the order their iteration yields them. *)
Record parsed := {
  parsed_normal_form : pystr;
  parsed_grammemes : res (list pystr)
}.

(** An element of [word_analysis]. *)
Record word_info := {
  original : pystr;
  normal_form : pystr;
  tag_cn : pystr
}.

Definition provider := pystr -> res pystr.
Definition analyzer := pystr -> res parsed.

Record WorkerThread := {
  is_running : bool;
  is_processing : bool;
  play_times : Z;
  play_interval : Q;
  check_interval : Q;
  process_cooldown : Q;
  audio_gain_db : Z;
  stress_mark_enabled : bool;
  translation_enabled : bool;
  morphology_enabled : bool;
  normalizer : option provider;
  translator : option provider;
  morph_analyzer : option analyzer;
  last_content : pystr;
  last_process_time : Q;
  processed_count : Z;
  word_analysis_results : list word_info
}.

Definition set_is_running (v : bool) (w : WorkerThread) : WorkerThread :=
  {| is_running := v; is_processing := is_processing w;
     play_times := play_times w; play_interval := play_interval w;
     check_interval := check_interval w; process_cooldown := process_cooldown w;
     audio_gain_db := audio_gain_db w;
     stress_mark_enabled := stress_mark_enabled w;
     translation_enabled := translation_enabled w;
     morphology_enabled := morphology_enabled w;
     normalizer := normalizer w; translator := translator w;
     morph_analyzer := morph_analyzer w;
     last_content := last_content w; last_process_time := last_process_time w;
     processed_count := processed_count w;
     word_analysis_results := word_analysis_results w |}.

Definition set_is_processing (v : bool) (w : WorkerThread) : WorkerThread :=
  {| is_running := is_running w; is_processing := v;
     play_times := play_times w; play_interval := play_interval w;
     check_interval := check_interval w; process_cooldown := process_cooldown w;
     audio_gain_db := audio_gain_db w;
     stress_mark_enabled := stress_mark_enabled w;
     translation_enabled := translation_enabled w;
     morphology_enabled := morphology_enabled w;
     normalizer := normalizer w; translator := translator w;
     morph_analyzer := morph_analyzer w;
     last_content := last_content w; last_process_time := last_process_time w;
     processed_count := processed_count w;
     word_analysis_results := word_analysis_results w |}.

Definition set_last_content (v : pystr) (w : WorkerThread) : WorkerThread :=
  {| is_running := is_running w; is_processing := is_processing w;
     play_times := play_times w; play_interval := play_interval w;
     check_interval := check_interval w; process_cooldown := process_cooldown w;
     audio_gain_db := audio_gain_db w;
     stress_mark_enabled := stress_mark_enabled w;
     translation_enabled := translation_enabled w;
     morphology_enabled := morphology_enabled w;
     normalizer := normalizer w; translator := translator w;
     morph_analyzer := morph_analyzer w;
     last_content := v; last_process_time := last_process_time w;
     processed_count := processed_count w;
     word_analysis_results := word_analysis_results w |}.

Definition set_last_process_time (v : Q) (w : WorkerThread) : WorkerThread :=
  {| is_running := is_running w; is_processing := is_processing w;
     play_times := play_times w; play_interval := play_interval w;
     check_interval := check_interval w; process_cooldown := process_cooldown w;
     audio_gain_db := audio_gain_db w;
     stress_mark_enabled := stress_mark_enabled w;
     translation_enabled := translation_enabled w;
     morphology_enabled := morphology_enabled w;
     normalizer := normalizer w; translator := translator w;
     morph_analyzer := morph_analyzer w;
     last_content := last_content w; last_process_time := v;
     processed_count := processed_count w;
     word_analysis_results := word_analysis_results w |}.

Definition set_processed_count (v : Z) (w : WorkerThread) : WorkerThread :=
  {| is_running := is_running w; is_processing := is_processing w;
     play_times := play_times w; play_interval := play_interval w;
     check_interval := check_interval w; process_cooldown := process_cooldown w;
     audio_gain_db := audio_gain_db w;
     stress_mark_enabled := stress_mark_enabled w;
     translation_enabled := translation_enabled w;
     morphology_enabled := morphology_enabled w;
     normalizer := normalizer w; translator := translator w;
     morph_analyzer := morph_analyzer w;
     last_content := last_content w; last_process_time := last_process_time w;
     processed_count := v;
     word_analysis_results := word_analysis_results w |}.

Definition set_word_analysis_results (v : list word_info) (w : WorkerThread)
  : WorkerThread :=
  {| is_running := is_running w; is_processing := is_processing w;
     play_times := play_times w; play_interval := play_interval w;
     check_interval := check_interval w; process_cooldown := process_cooldown w;
     audio_gain_db := audio_gain_db w;
     stress_mark_enabled := stress_mark_enabled w;
     translation_enabled := translation_enabled w;
     morphology_enabled := morphology_enabled w;
     normalizer := normalizer w; translator := translator w;
     morph_analyzer := morph_analyzer w;
     last_content := last_content w; last_process_time := last_process_time w;
     processed_count := processed_count w;
     word_analysis_results := v |}.

Definition set_normalizer (v : option provider) (w : WorkerThread) : WorkerThread :=
  {| is_running := is_running w; is_processing := is_processing w;
     play_times := play_times w; play_interval := play_interval w;
     check_interval := check_interval w; process_cooldown := process_cooldown w;
     audio_gain_db := audio_gain_db w;
     stress_mark_enabled := stress_mark_enabled w;
     translation_enabled := translation_enabled w;
     morphology_enabled := morphology_enabled w;
     normalizer := v; translator := translator w;
     morph_analyzer := morph_analyzer w;
     last_content := last_content w; last_process_time := last_process_time w;
     processed_count := processed_count w;
     word_analysis_results := word_analysis_results w |}.

Definition set_translator (v : option provider) (w : WorkerThread) : WorkerThread :=
  {| is_running := is_running w; is_processing := is_processing w;
     play_times := play_times w; play_interval := play_interval w;
     check_interval := check_interval w; process_cooldown := process_cooldown w;
     audio_gain_db := audio_gain_db w;
     stress_mark_enabled := stress_mark_enabled w;
     translation_enabled := translation_enabled w;
     morphology_enabled := morphology_enabled w;
     normalizer := normalizer w; translator := v;
     morph_analyzer := morph_analyzer w;
     last_content := last_content w; last_process_time := last_process_time w;
     processed_count := processed_count w;
     word_analysis_results := word_analysis_results w |}.

Definition set_morph_analyzer (v : option analyzer) (w : WorkerThread) : WorkerThread :=
  {| is_running := is_running w; is_processing := is_processing w;
     play_times := play_times w; play_interval := play_interval w;
     check_interval := check_interval w; process_cooldown := process_cooldown w;
     audio_gain_db := audio_gain_db w;
     stress_mark_enabled := stress_mark_enabled w;
     translation_enabled := translation_enabled w;
     morphology_enabled := morphology_enabled w;
     normalizer := normalizer w; translator := translator w;
     morph_analyzer := v;
     last_content := last_content w; last_process_time := last_process_time w;
     processed_count := processed_count w;
     word_analysis_results := word_analysis_results w |}.

(** The assignments of [set_parameters]. *)
Definition assign_parameters (times : Z) (interval check cooldown : Q) (gain : Z)
    (stress translation morphology : bool) (w : WorkerThread) : WorkerThread :=
  {| is_running := is_running w; is_processing := is_processing w;
     play_times := times; play_interval := interval;
     check_interval := check; process_cooldown := cooldown;
     audio_gain_db := gain;
     stress_mark_enabled := stress;
     translation_enabled := translation;
     morphology_enabled := morphology;
     normalizer := normalizer w; translator := translator w;
     morph_analyzer := morph_analyzer w;
     last_content := last_content w; last_process_time := last_process_time w;
     processed_count := processed_count w;
     word_analysis_results := word_analysis_results w |}.

(** The libraries and the machine around the worker. *)
Record libs := {
  MORPH_AVAILABLE : bool;
  new_Normalizer : res provider;         (* import of tsnorm, [Normalizer(...)] *)
  new_GoogleTranslator : res provider;   (* import of deep_translator, [GoogleTranslator(...)] *)
  new_MorphAnalyzer : res analyzer;      (* [pymorphy3.MorphAnalyzer()] *)
  gTTS_save : pystr -> path -> res unit; (* [gTTS(text=..., lang='ru').save(p)] *)
  from_file : path -> res unit;          (* [AudioSegment.from_file] *)
  add_gain : Z -> res unit;              (* [audio + db] *)
  normalize : res unit;                  (* [louder_audio.normalize()] *)
  export : path -> res unit;             (* [normalized_audio.export] *)
  path_exists : path -> bool;            (* [os.path.exists] *)
  remove : path -> res unit;             (* [os.remove] *)
  sys_platform : platform;
  subprocess_run : nat -> res (Z * pystr) (* i-th run: [returncode], [stderr] *)
}.

Definition W := M WorkerThread event.

(** [WorkerThread.__init__] before its call of [init_tools]. *)
Definition fresh_worker : WorkerThread :=
  {| is_running := false; is_processing := false;
     play_times := 3; play_interval := 3 # 10;
     check_interval := 1 # 2; process_cooldown := 1;
     audio_gain_db := 0;
     stress_mark_enabled := true;
     translation_enabled := true;
     morphology_enabled := true;
     normalizer := None; translator := None; morph_analyzer := None;
     last_content := []; last_process_time := 0;
     processed_count := 0;
     word_analysis_results := [] |}.

Section Worker.
Context {U : CharClasses}.
Variable L : libs.

(** One [try: import; construct; log  except ImportError  except Exception]
    block of [init_tools]. *)
Definition load_tool {T} (new : res T) (store : option T -> WorkerThread -> WorkerThread)
    (loaded missing : log_msg) (failed : exn -> log_msg) : W unit :=
  try_except
    (t <- lift new ;;
     modify (store (Some t)) ;;
     emit (log_signal loaded SUCCESS))
    (fun e =>
       if is_ImportError e then emit (log_signal missing WARNING)
       else emit (log_signal (failed e) WARNING)).

(** [WorkerThread.init_tools]. *)
Definition init_tools : W unit :=
  stress <- get stress_mark_enabled ;;
  (if stress
   then load_tool (new_Normalizer L) set_normalizer
          msg_tsnorm_loaded msg_tsnorm_missing msg_tsnorm_error
   else ret tt) ;;
  translation <- get translation_enabled ;;
  (if translation
   then load_tool (new_GoogleTranslator L) set_translator
          msg_translator_loaded msg_translator_missing msg_translator_error
   else ret tt) ;;
  morphology <- get morphology_enabled ;;
  if morphology && MORPH_AVAILABLE L then
    try_except
      (t <- lift (new_MorphAnalyzer L) ;;
       modify (set_morph_analyzer (Some t)) ;;
       emit (log_signal msg_morph_loaded SUCCESS))
      (fun e => emit (log_signal (msg_morph_error e) WARNING))
  else if morphology && negb (MORPH_AVAILABLE L) then
    emit (log_signal msg_morph_missing WARNING)
  else ret tt.

(** [WorkerThread.__init__]. *)
Definition WorkerThread_init : res unit * WorkerThread * list event :=
  init_tools fresh_worker.

(** [WorkerThread.set_parameters]. *)
Definition set_parameters (times : Z) (interval check cooldown : Q) (gain : Z)
    (stress_enabled translation_enabled morphology_enabled : bool) : W unit :=
  modify (assign_parameters times interval check cooldown gain
            stress_enabled translation_enabled morphology_enabled) ;;
  init_tools ;;
  emit (log_signal (msg_parameters_updated times interval) INFO).

(** [not self.flag or not self.tool]. *)
Definition usable {T} (flag : bool) (tool : option T) : option T :=
  if flag then tool else None.

(** [WorkerThread.add_stress_marks]. *)
Definition add_stress_marks (text : pystr) : W (pystr * bool) :=
  enabled <- get stress_mark_enabled ;;
  tool <- get normalizer ;;
  match usable enabled tool with
  | None => ret (text, false)
  | Some normalize_text =>
      try_except
        (normalized_text <- call (call_normalizer text) (normalize_text text) ;;
         ret (normalized_text, true))
        (fun e =>
           emit (log_signal (msg_stress_failed e) WARNING) ;;
           ret (text, false))
  end.

(** [WorkerThread.translate_russian]. *)
Definition translate_russian (text : pystr) : W (pystr * bool) :=
  enabled <- get translation_enabled ;;
  tool <- get translator ;;
  match usable enabled tool with
  | None => ret ([], false)
  | Some translate =>
      try_except
        (let text_to_translate :=
           if (5000 <? Z.of_nat (length text))
           then prefix 5000 text ++ utf8 "..."
           else text in
         translated_text <- call (call_translate text_to_translate)
                              (translate text_to_translate) ;;
         ret (translated_text, true))
        (fun e =>
           emit (log_signal (msg_translation_failed e) WARNING) ;;
           ret ([], false))
  end.

(** [GRAM_MAP.get(g, g)]. *)
Fixpoint dict_get (d : list (pystr * pystr)) (k default : pystr) : pystr :=
  match d with
  | [] => default
  | (k', v) :: r => if str_eqb k' k then v else dict_get r k default
  end.

(** [g.split(' ')] with an explicit separator: [cur] is the piece being
    read. *)
Fixpoint split_at (sep : Z) (cur s : pystr) : list pystr :=
  match s with
  | [] => [cur]
  | c :: r => if c =? sep then cur :: split_at sep [] r
              else split_at sep (cur ++ [c]) r
  end.

Definition split (sep : Z) (s : pystr) : list pystr := split_at sep [] s.

(** [' ' in g]. *)
Definition contains (c : Z) (s : pystr) : bool := existsb (Z.eqb c) s.

Definition space : Z := 32.

Definition GRAM_MAP : list (pystr * pystr) := [
  (utf8 "NOUN", utf8 "名词");
  (utf8 "NPRO", utf8 "代词");
  (utf8 "VERB", utf8 "动词");
  (utf8 "INFN", utf8 "不定式");
  (utf8 "ADJF", utf8 "形容词（长形式）");
  (utf8 "ADJS", utf8 "形容词（短形式）");
  (utf8 "PRTF", utf8 "分词（长形式）");
  (utf8 "PRTS", utf8 "分词（短形式）");
  (utf8 "GRND", utf8 "副动词");
  (utf8 "ADVB", utf8 "副词");
  (utf8 "NUMR", utf8 "数词");
  (utf8 "PREP", utf8 "介词");
  (utf8 "CONJ", utf8 "连词");
  (utf8 "PRCL", utf8 "语气词");
  (utf8 "INTJ", utf8 "感叹词");
  (utf8 "masc", utf8 "阳性");
  (utf8 "femn", utf8 "阴性");
  (utf8 "neut", utf8 "中性");
  (utf8 "sing", utf8 "单数");
  (utf8 "plur", utf8 "复数");
  (utf8 "nomn", utf8 "主格");
  (utf8 "gent", utf8 "属格");
  (utf8 "datv", utf8 "与格");
  (utf8 "accs", utf8 "宾格");
  (utf8 "ablt", utf8 "工具格");
  (utf8 "loct", utf8 "前置格");
  (utf8 "voct", utf8 "呼格");
  (utf8 "past", utf8 "过去时");
  (utf8 "pres", utf8 "现在时");
  (utf8 "futr", utf8 "将来时");
  (utf8 "perf", utf8 "完成体");
  (utf8 "impf", utf8 "未完成体");
  (utf8 "indc", utf8 "陈述式");
  (utf8 "impr", utf8 "祈使式");
  (utf8 "1per", utf8 "第一人称");
  (utf8 "2per", utf8 "第二人称");
  (utf8 "3per", utf8 "第三人称");
  (utf8 "tran", utf8 "及物");
  (utf8 "intr", utf8 "不及物");
  (utf8 "anim", utf8 "有生");
  (utf8 "inan", utf8 "无生");
  (utf8 "Anph", utf8 "回指代词");
  (utf8 "Demn", utf8 "指示代词");
  (utf8 "Ques", utf8 "疑问代词");
  (utf8 "Rel", utf8 "关系代词");
  (utf8 "Poss", utf8 "物主代词");
  (utf8 "Pers", utf8 "人称代词")
].

(** [WorkerThread.tag_to_cn]; [grammemes] is the outcome of reading
    [tag.grammemes]. *)
Definition tag_to_cn (grammemes : res (list pystr)) : res pystr :=
  match grammemes with
  | Ret gs =>
      let cn_parts :=
        flat_map
          (fun g =>
             if contains space g
             then map (fun sub_g => dict_get GRAM_MAP sub_g sub_g) (split space g)
             else [dict_get GRAM_MAP g g])
          gs in
      Ret (join (utf8 "，") cn_parts)
  | Raise e =>
      if is_Exception e then Ret (utf8 "解析错误: " ++ exn_text e)
      else Raise e
  end.

(** [[А-Яа-яЁё]]. *)
Definition is_russian_letter (c : Z) : bool :=
  in_range 0x410 0x42F c || in_range 0x430 0x44F c || (c =? 0x401) || (c =? 0x451).

(** [re.findall(r"[...]+", s)] for a character class [p]: the maximal runs
    of characters of the class; [cur] is the run being read. *)
Fixpoint findall_runs (p : Z -> bool) (cur s : pystr) : list pystr :=
  match s with
  | [] => match cur with [] => [] | _ => [cur] end
  | c :: r =>
      if p c then findall_runs p (cur ++ [c]) r
      else match cur with
           | [] => findall_runs p [] r
           | _ => cur :: findall_runs p [] r
           end
  end.

(** The loop of [morphological_analysis] over the words. *)
Fixpoint analyse_words (parse : analyzer) (words : list pystr)
    (result_lines : list pystr) (word_analysis : list word_info)
  : W (list pystr * list word_info) :=
  match words with
  | [] => ret (result_lines, word_analysis)
  | word :: rest =>
      parsed <- call (call_parse word) (parse word) ;;
      let normal_form := parsed_normal_form parsed in
      tag_cn <- lift (tag_to_cn (parsed_grammemes parsed)) ;;
      analyse_words parse rest
        (result_lines ++
           [word ++ utf8 "(" ++ tag_cn ++ utf8 ") →【原形】 " ++ normal_form])
        (word_analysis ++
           [{| original := word; normal_form := normal_form; tag_cn := tag_cn |}])
  end.

Definition newline : pystr := [10].

(** [WorkerThread.morphological_analysis]. *)
Definition morphological_analysis (text : pystr)
  : W (pystr * bool * list word_info) :=
  enabled <- get morphology_enabled ;;
  tool <- get morph_analyzer ;;
  match usable enabled tool with
  | None => ret ([], false, [])
  | Some parse =>
      try_except
        (let words := findall_runs is_russian_letter [] text in
         match words with
         | [] => ret (utf8 "未找到俄语单词", false, [])
         | _ =>
             '(result_lines, word_analysis) <- analyse_words parse words [] [] ;;
             ret (join newline result_lines, true, word_analysis)
         end)
        (fun e =>
           let error_msg := utf8 "形态学分析失败: " ++ exn_text e in
           emit (log_signal (msg_morphology_failed error_msg) WARNING) ;;
           ret (error_msg, false, []))
  end.

Definition FAILED : pystr := utf8 "翻译失败".

(** The loop of [text_to_speech_russian] over [word_analysis]. *)
Fixpoint translate_words (translate : provider) (word_analysis : list word_info)
    (translated_words : list (pystr * pystr)) : W (list (pystr * pystr)) :=
  match word_analysis with
  | [] => ret translated_words
  | word_info :: rest =>
      translated_words' <-
        try_except
          (word_translation <- call (call_translate (normal_form word_info))
                                 (translate (normal_form word_info)) ;;
           emit (log_signal
                   (msg_word_translation (original word_info)
                      (normal_form word_info) word_translation) INFO) ;;
           ret (translated_words ++ [(normal_form word_info, word_translation)]))
          (fun e =>
             emit (log_signal
                     (msg_word_translation_failed (normal_form word_info) e)
                     WARNING) ;;
             ret (translated_words ++ [(normal_form word_info, FAILED)])) ;;
      translate_words translate rest translated_words'
  end.

(** Steps 4 to 6 of [text_to_speech_russian]: synthesis to the temporary
    file, loading, gain, normalization, export, removal of the temporary
    file. *)
Definition enhanced_audio (text_with_stress : pystr) : W unit :=
  call (call_gTTS_save text_with_stress temp_path)
       (gTTS_save L text_with_stress temp_path) ;;
  call (call_from_file temp_path) (from_file L temp_path) ;;
  gain <- get audio_gain_db ;;
  call (call_gain gain) (add_gain L gain) ;;
  call call_normalize (normalize L) ;;
  call (call_export AUDIO_FILE_PATH) (export L AUDIO_FILE_PATH) ;;
  present <- call (call_exists temp_path) (Ret (path_exists L temp_path)) ;;
  if present then call (call_remove temp_path) (remove L temp_path)
  else ret tt.

(** Steps 1 to 3 of [text_to_speech_russian] and the signals that report
    them: stress marks, translation, morphology, [result_signal], the
    per-word translations, [word_analysis_signal].  Returns
    [text_with_stress] and [stress_added]. *)
Definition enrich (text : pystr) : W (pystr * bool) :=
  '(text_with_stress, stress_added) <- add_stress_marks text ;;
  '(translated_text, translation_success) <- translate_russian text ;;
  '(morphological_result, morph_success, word_analysis) <-
     morphological_analysis text ;;
  emit (result_signal text
          (if stress_added then text_with_stress else [])
          (if translation_success then translated_text else [])
          (if morph_success then morphological_result else [])) ;;
  modify (set_word_analysis_results word_analysis) ;;
  tool <- get translator ;;
  translated_words <-
    match word_analysis, tool with
    | _ :: _, Some translate => translate_words translate word_analysis []
    | _, _ => ret []
    end ;;
  emit (word_analysis_signal translated_words) ;;
  ret (text_with_stress, stress_added).

(** The handler of [text_to_speech_russian]: the plain synthesis to the
    final path. *)
Definition fallback_audio (text : pystr) (e : exn) : W (bool * bool) :=
  try_except_all
    (emit (log_signal (msg_audio_fallback e) WARNING) ;;
     call (call_gTTS_save text AUDIO_FILE_PATH) (gTTS_save L text AUDIO_FILE_PATH) ;;
     ret (true, false))
    (fun _ =>
       emit (log_signal (msg_synthesis_failed e) ERROR) ;;
       ret (false, false)).

(** [WorkerThread.text_to_speech_russian]. *)
Definition text_to_speech_russian (text : pystr) : W (bool * bool) :=
  try_except
    ('(text_with_stress, stress_added) <- enrich text ;;
     enhanced_audio text_with_stress ;;
     ret (true, stress_added))
    (fallback_audio text).

Definition player_of (p : platform) : player :=
  match p with
  | darwin => afplay
  | win32 => cmd_start_wait
  | other_platform => mpg123
  end.

(** The [for] loop of [play_audio]; [result] is the variable of that name,
    unbound ([None]) before the first repetition. *)
Fixpoint play_loop (indices : list nat) (result : option (Z * pystr))
  : W (option (Z * pystr)) :=
  match indices with
  | [] => ret result
  | i :: rest =>
      times <- get play_times ;;
      interval <- get play_interval ;;
      emit (log_signal (msg_play_start (Z.of_nat i + 1) times interval) INFO) ;;
      result' <- call (call_subprocess_run (player_of (sys_platform L)))
                   (subprocess_run L i) ;;
      times' <- get play_times ;;
      (if Z.of_nat i <? times' - 1
       then interval' <- get play_interval ;;
            call (call_sleep interval') (Ret tt)
       else ret tt) ;;
      play_loop rest (Some result')
  end.

(** [WorkerThread.play_audio]. *)
Definition play_audio : W (bool * option pystr) :=
  try_except
    (times <- get play_times ;;
     result <- play_loop (seq 0 (Z.to_nat times)) None ;;
     match result with
     | None =>
         raise (mk_exn UnboundLocalError
                  (utf8 "cannot access local variable 'result'"))
     | Some (returncode, stderr) =>
         interval <- get play_interval ;;
         if returncode =? 0 then
           emit (log_signal (msg_play_done times interval) INFO) ;;
           ret (true, None)
         else
           emit (log_signal (msg_play_failed stderr) ERROR) ;;
           ret (false, Some stderr)
     end)
    (fun e =>
       emit (log_signal (msg_play_error e) ERROR) ;;
       ret (false, Some (exn_text e))).

(** The condition of the [if] of [run] on the clipboard content and the
    time read in this iteration. *)
Definition should_trigger (w : WorkerThread) (current_content : pystr)
    (current_time : Q) : bool :=
  truthy current_content
  && negb (str_eqb current_content (last_content w))
  && negb (str_eqb (strip current_content) [])
  && Qle_bool (process_cooldown w) (current_time - last_process_time w).

(** The branch of [run] for a Russian text: count it, announce it,
    synthesize and play. *)
Definition speak (current_content : pystr) : W unit :=
  modify (fun w => set_processed_count (processed_count w + 1) w) ;;
  count <- get processed_count ;;
  emit (processed_count_signal count) ;;
  let display_text :=
    prefix 100 current_content ++
    (if 100 <? Z.of_nat (length current_content) then utf8 "..." else []) in
  emit (log_signal (msg_detected display_text) INFO) ;;
  '(success, _) <- text_to_speech_russian current_content ;;
  if success then
    '(play_success, error_message) <- play_audio ;;
    if negb play_success
    then emit (log_signal (msg_playback_failed error_message) ERROR)
    else ret tt
  else emit (log_signal msg_generation_failed ERROR).

(** The two branches on [is_russian_text]: the pipeline, or the pause of
    0.2 s. *)
Definition branch (current_content : pystr) (russian : bool) : W unit :=
  if russian then speak current_content
  else call (call_sleep (2 # 10)) (Ret tt).

(** The body of that [if]. *)
Definition process (current_content : pystr) (current_time : Q) : W unit :=
  modify (set_is_processing true) ;;
  modify (set_last_content current_content) ;;
  modify (set_last_process_time current_time) ;;
  russian <- lift (is_russian_text current_content) ;;
  branch current_content russian ;;
  modify (set_is_processing false).

(** The worker after the three assignments that open [process]. *)
Definition touched (c : pystr) (t : Q) (w : WorkerThread) : WorkerThread :=
  set_last_process_time t (set_last_content c (set_is_processing true w)).

End Worker.

(** The worker without its two counters of results: the fields that
    [text_to_speech_russian] and [play_audio] never assign. *)
Definition core (w : WorkerThread) : WorkerThread :=
  set_processed_count 0 (set_word_analysis_results [] w).

(** The tools of the worker fail, if they do, with exceptions of class
    [Exception]. *)
Definition good (w : WorkerThread) : Prop :=
  (forall f, normalizer w = Some f -> forall s, ordinary (f s)) /\
  (forall f, translator w = Some f -> forall s, ordinary (f s)) /\
  (forall f, morph_analyzer w = Some f ->
     forall s, ordinary (f s) /\
               forall p, f s = Ret p -> ordinary (parsed_grammemes p)).

(** So do the libraries. *)
Definition ordinary_libs (L : libs) : Prop :=
  (forall t p, ordinary (gTTS_save L t p)) /\
  (forall p, ordinary (from_file L p)) /\
  (forall g, ordinary (add_gain L g)) /\
  ordinary (normalize L) /\
  (forall p, ordinary (export L p)) /\
  (forall p, ordinary (remove L p)) /\
  (forall i, ordinary (subprocess_run L i)).

(** One iteration of the loop of [run]: what [pyperclip.paste()] and
    [time.time()] give in it, and the world its processing meets. *)
Record tick := {
  clipboard : res pystr;
  clock : Q;
  world : libs
}.

Section Watcher.
Context {U : CharClasses}.

(** The body of the [while] of [run]; the result tells whether the
    processing branch was taken. *)
Definition poll_tick (tk : tick) : W bool :=
  busy <- get is_processing ;;
  if busy then
    interval <- get check_interval ;;
    call (call_sleep interval) (Ret tt) ;;
    ret false
  else
    current_content <- call call_paste (clipboard tk) ;;
    current_time <- call call_time (Ret (clock tk)) ;;
    w <- get (fun w => w) ;;
    if should_trigger w current_content current_time then
      process (world tk) current_content current_time ;;
      interval <- get check_interval ;;
      call (call_sleep interval) (Ret tt) ;;
      ret true
    else
      interval <- get check_interval ;;
      call (call_sleep interval) (Ret tt) ;;
      ret false.

(** [while self.is_running: ...] over the iterations that take place; the
    result lists, per iteration, whether it triggered processing. *)
Fixpoint run_loop (ticks : list tick) : W (list bool) :=
  match ticks with
  | [] => ret []
  | tk :: rest =>
      running <- get is_running ;;
      if running then
        triggered <- poll_tick tk ;;
        later <- run_loop rest ;;
        ret (triggered :: later)
      else ret []
  end.

(** [WorkerThread.run]. *)
Definition run (ticks : list tick) : W unit :=
  modify (set_is_running true) ;;
  emit (log_signal msg_monitor_started SUCCESS) ;;
  emit (status_signal (utf8 "监控中...")) ;;
  try_finally
    (try_except
       (run_loop ticks ;; ret tt)
       (fun e => emit (log_signal (msg_unexpected e) ERROR)))
    (emit (status_signal (utf8 "已停止")) ;;
     emit (log_signal msg_monitor_stopped INFO)).

(** [WorkerThread.stop]. *)
Definition stop : W unit := modify (set_is_running false).

End Watcher.

(* ------------------------------------------------------------------ *)
(** ** The transition rule of the watcher, as the specification words it

    On each poll tick the content [C] read triggers processing iff [C] is
    non-empty after trimming whitespace, [C] differs from the last seen
    content, and the time elapsed since the last processing is at least the
    cooldown; a trigger records [C] and the time of the tick. *)

Section WatcherSpec.
Context {U : CharClasses}.

Definition spec_trigger (cooldown : Q) (last_seen : pystr) (last_at : Q)
    (C : pystr) (now : Q) : bool :=
  negb (str_eqb (strip C) [])
  && negb (str_eqb C last_seen)
  && Qle_bool cooldown (now - last_at).

Fixpoint spec_triggers (cooldown : Q) (last_seen : pystr) (last_at : Q)
    (reads : list (pystr * Q)) : list bool :=
  match reads with
  | [] => []
  | (C, now) :: rest =>
      if spec_trigger cooldown last_seen last_at C now
      then true :: spec_triggers cooldown C now rest
      else false :: spec_triggers cooldown last_seen last_at rest
  end.

End WatcherSpec.

(** What an iteration reads. *)
Definition reading (tk : tick) : pystr * Q :=
  (match clipboard tk with Ret c => c | Raise _ => [] end, clock tk).

(** Number of triggers in the list [run_loop] returns. *)
Definition triggers (flags : list bool) : nat := length (filter (fun b => b) flags).

(* ------------------------------------------------------------------ *)
(** ** The word history of the main window *)

(** [OrderedDict]: the items in insertion order, one per key. *)
Definition table := list (pystr * pystr).

(** [d[k] = v]: an existing key keeps its place, a new one goes last. *)
Fixpoint od_set (k v : pystr) (d : table) : table :=
  match d with
  | [] => [(k, v)]
  | (k', v') :: r =>
      if str_eqb k' k then (k', v) :: r else (k', v') :: od_set k v r
  end.

(** [d.get(k)]. *)
Fixpoint od_get (k : pystr) (d : table) : option pystr :=
  match d with
  | [] => None
  | (k', v) :: r => if str_eqb k' k then Some v else od_get k r
  end.

(** Number of items of key [k]. *)
Definition count_key (k : pystr) (d : table) : nat :=
  length (filter (fun kv => str_eqb (fst kv) k) d).

Definition unique_keys (d : table) : Prop := NoDup (map fst d).

Definition bytes := list Byte.byte.

(** [pickle.dump] and [pickle.load] on a table. *)
Class Pickle := {
  pickle_dump : table -> bytes;
  pickle_load : bytes -> res table
}.

(** What the file system does with the write of [save_word_history]:
    the whole data is written, or the call raises and leaves some content
    ([None]: no file) at [WORD_HISTORY_PATH]. *)
Inductive write_outcome :=
| written
| write_failed (e : exn) (remains : option bytes).

(** The part of [MainWindow] the word history uses, with the content of the
    file at [WORD_HISTORY_PATH] ([None]: no file). *)
Record MainWindow := {
  word_translations : list (pystr * pystr);
  word_history : table;
  has_log_text : bool;                (* [hasattr(self, 'log_text')] *)
  history_file : option bytes
}.

Definition set_word_history (d : table) (m : MainWindow) : MainWindow :=
  {| word_translations := word_translations m; word_history := d;
     has_log_text := has_log_text m; history_file := history_file m |}.

Definition set_word_translations (l : list (pystr * pystr)) (m : MainWindow)
  : MainWindow :=
  {| word_translations := l; word_history := word_history m;
     has_log_text := has_log_text m; history_file := history_file m |}.

Definition set_history_file (f : option bytes) (m : MainWindow) : MainWindow :=
  {| word_translations := word_translations m; word_history := word_history m;
     has_log_text := has_log_text m; history_file := f |}.

Definition G := M MainWindow event.

Section History.
Context {P : Pickle}.

(** [with open(WORD_HISTORY_PATH, 'wb') as f: pickle.dump(d, f)]. *)
Definition write_history (io : write_outcome) (d : table) : G unit :=
  emit (call_write_history (pickle_dump d)) ;;
  match io with
  | written => modify (set_history_file (Some (pickle_dump d)))
  | write_failed e remains => modify (set_history_file remains) ;; raise e
  end.

(** [MainWindow.save_word_history]. *)
Definition save_word_history (io : write_outcome) : G unit :=
  try_except
    (d <- get word_history ;;
     write_history io d ;;
     ui <- get has_log_text ;;
     if ui then emit (log_message msg_history_saved INFO) else ret tt)
    (fun e =>
       ui <- get has_log_text ;;
       if ui then emit (log_message (msg_history_save_failed e) WARNING)
       else ret tt).

(** [with open(WORD_HISTORY_PATH, 'rb') as f: pickle.load(f)]; [io] is the
    outcome of opening and reading the file. *)
Definition read_history (io : res unit) (data : bytes) : G table :=
  emit call_read_history ;;
  lift io ;;
  lift (pickle_load data).

(** [MainWindow.load_word_history]. *)
Definition load_word_history (io : res unit) : G unit :=
  try_except
    (file <- get history_file ;;
     match file with
     | Some data =>
         d <- read_history io data ;;
         modify (set_word_history d) ;;
         emit (set_word_count_label (length d)) ;;
         emit (log_message (msg_history_loaded (length d)) SUCCESS)
     | None => emit (log_message msg_history_missing INFO)
     end)
    (fun e =>
       emit (log_message (msg_history_load_failed e) WARNING) ;;
       modify (set_word_history [])).

(** [MainWindow.add_word_to_history]. *)
Definition add_word_to_history (io : write_outcome) (word translation : pystr)
  : G unit :=
  if truthy word && truthy translation && negb (str_eqb translation FAILED)
  then
    modify (fun m => set_word_history (od_set word translation (word_history m)) m) ;;
    save_word_history io
  else ret tt.

(** [MainWindow.update_word_analysis]; [io i] is the outcome of the write
    of the [i]-th pair, if it comes to it. *)
Fixpoint add_words (io : nat -> write_outcome) (i : nat)
    (pairs : list (pystr * pystr)) : G unit :=
  match pairs with
  | [] => ret tt
  | (word, translation) :: rest =>
      add_word_to_history (io i) word translation ;;
      add_words io (S i) rest
  end.

Definition update_word_analysis (io : nat -> write_outcome)
    (pairs : list (pystr * pystr)) : G unit :=
  modify (set_word_translations pairs) ;;
  add_words io 0 pairs ;;
  d <- get word_history ;;
  emit (set_word_count_label (length d)).

End History.

(** A serialization to run the definitions on: three bytes per code point,
    a three-byte count before every string and before the items. *)
Definition byte_of_Z (z : Z) : Byte.byte :=
  match Byte.of_N (Z.to_N (z mod 256)) with
  | Some b => b
  | None => Byte.x00
  end.

Definition Z_of_byte (b : Byte.byte) : Z := Z.of_N (Byte.to_N b).

Definition put3 (z : Z) : bytes :=
  [byte_of_Z (Z.shiftr z 16); byte_of_Z (Z.shiftr z 8); byte_of_Z z].

Definition take3 (bs : bytes) : res (Z * bytes) :=
  match bs with
  | a :: b :: c :: r =>
      Ret (Z.lor (Z.shiftl (Z_of_byte a) 16)
             (Z.lor (Z.shiftl (Z_of_byte b) 8) (Z_of_byte c)), r)
  | _ => Raise (mk_exn OtherException (utf8 "Ran out of input"))
  end.

Definition put_str (s : pystr) : bytes :=
  put3 (Z.of_nat (length s)) ++ flat_map put3 s.

Fixpoint take_points (n : nat) (bs : bytes) : res (pystr * bytes) :=
  match n with
  | O => Ret ([], bs)
  | S n' =>
      match take3 bs with
      | Ret (c, r) =>
          match take_points n' r with
          | Ret (s, r') => Ret (c :: s, r')
          | Raise e => Raise e
          end
      | Raise e => Raise e
      end
  end.

Definition take_str (bs : bytes) : res (pystr * bytes) :=
  match take3 bs with
  | Ret (n, r) => take_points (Z.to_nat n) r
  | Raise e => Raise e
  end.

Fixpoint take_items (n : nat) (bs : bytes) : res table :=
  match n with
  | O => Ret []
  | S n' =>
      match take_str bs with
      | Ret (k, r) =>
          match take_str r with
          | Ret (v, r') =>
              match take_items n' r' with
              | Ret d => Ret ((k, v) :: d)
              | Raise e => Raise e
              end
          | Raise e => Raise e
          end
      | Raise e => Raise e
      end
  end.

Definition sample_pickle : Pickle := {|
  pickle_dump d :=
    put3 (Z.of_nat (length d)) ++
    flat_map (fun kv => put_str (fst kv) ++ put_str (snd kv)) d;
  pickle_load bs :=
    match take3 bs with
    | Ret (n, r) => take_items (Z.to_nat n) r
    | Raise e => Raise e
    end
|}.

(** A code point of a Python [str]. *)
Definition code_point (c : Z) : Prop := 0 <= c < 0x110000.

(** The strings and the tables that the sample serialization has room for:
    strings of code points, with counts below [2^24]. *)
Definition storable_str (s : pystr) : Prop :=
  Forall code_point s /\ Z.of_nat (length s) < 2 ^ 24.

Definition storable (d : table) : Prop :=
  Forall (fun kv => storable_str (fst kv) /\ storable_str (snd kv)) d
  /\ Z.of_nat (length d) < 2 ^ 24.

(* ------------------------------------------------------------------ *)
(** ** Sample tools and libraries, to run the definitions on *)

(** A stress annotator that puts the mark U+0301 at the end. *)
Definition mark_stress : provider := fun s => Ret (s ++ [0x301]).

(** A translator that answers, and one whose every call raises an error of
    class [Exception]. *)
Definition to_chinese : provider := fun _ => Ret (utf8 "你好").
Definition translator_down : provider :=
  fun _ => Raise (mk_exn OtherException (utf8 "ConnectionError")).

(** A tool that is interrupted by an exception outside [Exception]. *)
Definition interrupted : provider :=
  fun _ => Raise (mk_exn BaseExceptionOnly (utf8 "SystemExit")).

(** An analyzer that takes every word for a masculine noun in its normal
    form. *)
Definition noun_analyzer : analyzer :=
  fun word =>
    Ret {| parsed_normal_form := word;
           parsed_grammemes := Ret [utf8 "NOUN"; utf8 "masc"] |}.

(** Libraries in which everything works, around the given annotator,
    translator and exit statuses of the player. *)
Definition sample_libs (annotate translate : provider)
    (exit_status : nat -> Z) : libs :=
  {| MORPH_AVAILABLE := true;
     new_Normalizer := Ret annotate;
     new_GoogleTranslator := Ret translate;
     new_MorphAnalyzer := Ret noun_analyzer;
     gTTS_save := fun _ _ => Ret tt;
     from_file := fun _ => Ret tt;
     add_gain := fun _ => Ret tt;
     normalize := Ret tt;
     export := fun _ => Ret tt;
     path_exists := fun _ => true;
     remove := fun _ => Ret tt;
     sys_platform := other_platform;
     subprocess_run := fun i => Ret (exit_status i, []) |}.

Definition working_libs : libs := sample_libs mark_stress to_chinese (fun _ => 0).

(** The same, with a decoder that raises when loading the temporary file. *)
Definition no_decoder_libs (final_synthesis : res unit) : libs :=
  {| MORPH_AVAILABLE := true;
     new_Normalizer := Ret mark_stress;
     new_GoogleTranslator := Ret to_chinese;
     new_MorphAnalyzer := Ret noun_analyzer;
     gTTS_save := fun _ p =>
       match p with temp_path => Ret tt | AUDIO_FILE_PATH => final_synthesis end;
     from_file := fun _ => Raise (mk_exn OtherException (utf8 "CouldntDecodeError"));
     add_gain := fun _ => Ret tt;
     normalize := Ret tt;
     export := fun _ => Ret tt;
     path_exists := fun _ => true;
     remove := fun _ => Ret tt;
     sys_platform := other_platform;
     subprocess_run := fun i => Ret (0, []) |}.

(** A worker as [__init__] leaves it with these libraries, then configured
    by [set_parameters]. *)
Definition worker_of (L : libs) : WorkerThread :=
  state_of (WorkerThread_init L).

Definition configured (L : libs) (cooldown : Q) (translation : bool)
  : WorkerThread :=
  state_of (set_parameters L 3 (3 # 10) (1 # 2) cooldown 0 true translation true
              (worker_of L)).

Definition tick_of (L : libs) (content : pystr) (now : Q) : tick :=
  {| clipboard := Ret content; clock := now; world := L |}.


(** An iteration whose clipboard can be read and whose libraries fail, if
    they do, in the ordinary way. *)
Definition well_behaved (tk : tick) : Prop :=
  returns (clipboard tk) = true /\ ordinary_libs (world tk).

(* ------------------------------------------------------------------ *)
(** ** Vocabulary for the further properties *)

(** The line of the morphology report for an analysed word. *)
Definition report_line (i : word_info) : pystr :=
  original i ++ utf8 "(" ++ tag_cn i ++ utf8 ") →【原形】 " ++ normal_form i.

Definition is_player_call (e : event) : bool :=
  match e with call_subprocess_run _ => true | _ => false end.


Definition is_translate_call (e : event) : bool :=
  match e with call_translate _ => true | _ => false end.

Definition is_parse_call (e : event) : bool :=
  match e with call_parse _ => true | _ => false end.

(** The method leaves an object that satisfies [I] satisfying it, however
    it ends. *)
Definition preserves {S E A} (I : S -> Prop) (m : M S E A) : Prop :=
  forall s, I s -> I (state_of (m s)).

(** The worker without the analysis of the last cycle. *)
Definition without_results (w : WorkerThread) : WorkerThread :=
  set_word_analysis_results [] w.

(** A write that returns, or raises an exception of class [Exception]. *)
Definition ordinary_write (io : write_outcome) : Prop :=
  match io with
  | written => True
  | write_failed e _ => is_Exception e = true
  end.

(** The history after the pairs of a cycle, as a fold: a pair enters when
    neither part is empty and the translation is not the sentinel. *)
Definition enters (kv : pystr * pystr) : bool :=
  truthy (fst kv) && truthy (snd kv) && negb (str_eqb (snd kv) FAILED).

Definition history_after (pairs : list (pystr * pystr)) (d : table) : table :=
  fold_left (fun d kv => if enters kv then od_set (fst kv) (snd kv) d else d)
    pairs d.

(* ------------------------------------------------------------------ *)
(** ** The log of the main window as a source of words *)

(** The notification of a translated word, as [text_to_speech_russian]
    writes it: [f"单词翻译: {original} → {normal_form} → {translation}"]. *)
Definition arrow : pystr := utf8 " → ".

Definition word_translation_text (original normal_form translation : pystr)
  : pystr :=
  utf8 "单词翻译: " ++ original ++ arrow ++ normal_form ++ arrow ++ translation.

(** [prefix] of [log_message] for the four types the program uses. *)
Definition prefix_of (msg_type : level) : pystr :=
  match msg_type with
  | ERROR => utf8 "[错误]"
  | WARNING => utf8 "[警告]"
  | SUCCESS => utf8 "[成功]"
  | INFO => utf8 "[信息]"
  end.

(** [plain_msg] of [log_message]: [f"{prefix} [{timestamp}] {message}"], the
    line kept in [log_messages]. *)
Definition plain_msg (msg_type : level) (timestamp message : pystr) : pystr :=
  prefix_of msg_type ++ utf8 " [" ++ timestamp ++ utf8 "] " ++ message.

(** The pattern [r'单词翻译: (.+) → (.+) → (.+)'], matched as [re] does: a
    literal must stand at the place reached; [(.+)] takes one or more
    characters other than the newline, the longest run first, and gives
    characters back one by one while what follows does not match. *)
Fixpoint starts_with (l s : pystr) : bool :=
  match l, s with
  | [], _ => true
  | a :: l', b :: s' => (a =? b) && starts_with l' s'
  | _ :: _, [] => false
  end.

Definition lit {A} (l : pystr) (k : pystr -> option A) (s : pystr) : option A :=
  if starts_with l s then k (skipn (length l) s) else None.

(** [(.+)] followed by [k]; [group] is what the group has taken so far. *)
Fixpoint dot_plus {A} (k : pystr -> pystr -> option A) (group s : pystr)
  : option A :=
  let stop := match group with [] => None | _ => k group s end in
  match s with
  | [] => stop
  | c :: r =>
      if c =? 10 then stop
      else match dot_plus k (group ++ [c]) r with
           | Some found => Some found
           | None => stop
           end
  end.

(** The pattern at the start of [s]; the three groups. *)
Definition match_here (s : pystr) : option (pystr * pystr * pystr) :=
  lit (utf8 "单词翻译: ")
    (dot_plus
       (fun original =>
          lit arrow
            (dot_plus
               (fun normal_form =>
                  lit arrow
                    (dot_plus
                       (fun translation _ =>
                          Some (original, normal_form, translation))
                       []))
               []))
       [])
    s.

(** [re.search(pattern, s)]: the match at the leftmost place that has one. *)
Fixpoint re_search (s : pystr) : option (pystr * pystr * pystr) :=
  match match_here s with
  | Some groups => Some groups
  | None => match s with [] => None | _ :: r => re_search r end
  end.

(** The loop of [extract_words_from_log] over the messages; [words] is the
    dictionary being built. *)
Fixpoint extract_words (messages : list pystr) (words : table) : table :=
  match messages with
  | [] => words
  | message :: rest =>
      match re_search message with
      | Some (original, normal_form, translation) =>
          match od_get normal_form words with
          | None => extract_words rest (od_set normal_form translation words)
          | Some _ => extract_words rest words
          end
      | None => extract_words rest words
      end
  end.

(** [MainWindow.extract_words_from_log] on [self.log_messages]. *)
Definition extract_words_from_log (log_messages : list pystr) : table :=
  extract_words log_messages [].

(** A field that the pattern reads back as it was written: not empty,
    without the arrow and without a newline. *)
Definition plain_field (s : pystr) : Prop :=
  s <> [] /\ ~ In 0x2192 s /\ ~ In 10 s.

(* ================================================================== *)
(** * Properties *)

(* ------------------------------------------------------------------ *)
(** ** Facts on strings *)

Lemma str_eqb_eq (a b : pystr) : str_eqb a b = true <-> a = b.
Proof.
  revert b; induction a as [|x a IH]; intros [|y b]; simpl;
    try (split; congruence).
  rewrite andb_true_iff, Z.eqb_eq, IH. split.
  - intros [-> ->]; reflexivity.
  - intros E; injection E; auto.
Qed.

Lemma str_eqb_neq (a b : pystr) : str_eqb a b = false <-> a <> b.
Proof.
  rewrite <- str_eqb_eq. destruct (str_eqb a b); split; congruence.
Qed.

Section TextFacts.
Context {U : CharClasses}.

Lemma lstrip_nil_iff (s : pystr) : lstrip s = [] <-> forallb isspace s = true.
Proof.
  induction s as [|c r IH]; simpl; [tauto|].
  destruct (isspace c); simpl; [exact IH|split; discriminate].
Qed.

Lemma forallb_rev {A} (p : A -> bool) (l : list A) :
  forallb p (rev l) = forallb p l.
Proof.
  induction l as [|x l IH]; simpl; [reflexivity|].
  rewrite forallb_app, IH; simpl. rewrite andb_true_r, andb_comm. reflexivity.
Qed.

Lemma lstrip_suffix (s : pystr) : exists p, s = p ++ lstrip s /\ forallb isspace p = true.
Proof.
  induction s as [|c r [p [E F]]]; simpl.
  - exists []; auto.
  - destruct (isspace c) eqn:Hc.
    + exists (c :: p); simpl. rewrite Hc, F. split; [congruence|reflexivity].
    + exists []; auto.
Qed.

(** The stripped string is empty exactly when every character is
    whitespace. *)
Lemma strip_nil_iff (s : pystr) : strip s = [] <-> forallb isspace s = true.
Proof.
  unfold strip, rstrip. split.
  - intros H.
    assert (H1 : lstrip (rev (lstrip s)) = []).
    { destruct (lstrip (rev (lstrip s))); [reflexivity|].
      apply (f_equal (@length _)) in H. rewrite length_rev in H. discriminate. }
    apply lstrip_nil_iff in H1. rewrite forallb_rev in H1.
    destruct (lstrip_suffix s) as [p [E F]]. rewrite E, forallb_app, F, H1.
    reflexivity.
  - intros H. apply lstrip_nil_iff in H. rewrite H. reflexivity.
Qed.

Lemma letter_like_not_space (c : Z) : is_letter_like c = true -> isspace c = false.
Proof.
  unfold is_letter_like. rewrite negb_true_iff, !orb_false_iff. tauto.
Qed.

Lemma all_space_no_letters (s : pystr) :
  forallb isspace s = true -> filter is_letter_like s = [].
Proof.
  induction s as [|c r IH]; simpl; [reflexivity|].
  rewrite andb_true_iff. intros [Hc Hr].
  destruct (is_letter_like c) eqn:E.
  - apply letter_like_not_space in E. congruence.
  - auto.
Qed.

Lemma Qgt_bool_iff (x y : Q) : Qgt_bool x y = true <-> (y < x)%Q.
Proof.
  unfold Qgt_bool. rewrite negb_true_iff. split.
  - intros H. apply Qnot_le_lt. intros L. apply Qle_bool_iff in L. congruence.
  - intros H. destruct (Qle_bool x y) eqn:E; [|reflexivity].
    apply Qle_bool_iff in E. exfalso. apply (Qlt_not_le _ _ H E).
Qed.

End TextFacts.

(* ------------------------------------------------------------------ *)
(** ** The language detector *)

Section DetectorFacts.
Context {U : CharClasses}.

Lemma is_russian_text_no_letters (text : pystr) :
  filter is_letter_like text = [] -> is_russian_text text = Ret false.
Proof.
  intros H. unfold is_russian_text. rewrite H. simpl.
  destruct (negb (truthy text) || negb (truthy (strip text))); reflexivity.
Qed.

Lemma is_russian_text_letters (text : pystr) :
  filter is_letter_like text <> [] ->
  is_russian_text text = Ret (Qgt_bool (cyrillic_ratio text) (1 # 2)).
Proof.
  intros H. unfold is_russian_text.
  assert (Hs : forallb isspace text = false).
  { destruct (forallb isspace text) eqn:E; [|reflexivity].
    apply all_space_no_letters in E. contradiction. }
  assert (Ht : truthy text = true).
  { destruct text; [contradiction H; reflexivity | reflexivity]. }
  assert (Hst : truthy (strip text) = true).
  { destruct (strip text) eqn:E; [|reflexivity].
    apply strip_nil_iff in E. congruence. }
  rewrite Ht, Hst. simpl.
  unfold cyrillic_ratio.
  destruct (filter is_letter_like text) as [|c l]; [contradiction H; reflexivity|].
  reflexivity.
Qed.

End DetectorFacts.

(** C5. The detector never raises. It answers [False] on a text without
    letter-like characters (so on an empty or blank one); on any other text
    it answers [True] exactly when the Cyrillic characters divided by the
    letter-like characters exceed 0.5; and it answers [False] on every text
    without Cyrillic characters. *)
Theorem is_russian_text_ratio {U : CharClasses} (text : pystr) :
  exists b : bool,
    is_russian_text text = Ret b /\
    (length (filter is_letter_like text) = 0%nat -> b = false) /\
    (length (filter is_letter_like text) <> 0%nat ->
       (b = true <-> (1 # 2 < cyrillic_ratio text)%Q)) /\
    (length (filter is_cyrillic text) = 0%nat -> b = false).
Proof.
  destruct (filter is_letter_like text) as [|c l] eqn:E.
  - exists false. rewrite (is_russian_text_no_letters text E). simpl.
    repeat split; auto; try congruence; intros; try discriminate.
  - exists (Qgt_bool (cyrillic_ratio text) (1 # 2)).
    rewrite is_russian_text_letters by congruence.
    split; [reflexivity|]. split; [simpl; discriminate|]. split.
    + intros _. apply Qgt_bool_iff.
    + intros H0. unfold cyrillic_ratio. rewrite H0. simpl.
      unfold Qgt_bool. apply negb_false_iff. apply Qle_bool_iff.
      unfold Qdiv. rewrite Qmult_0_l. discriminate.
Qed.

(** On the sample classes: "hello Привет" has 11 letter-like characters, 6
    of them Cyrillic, and is taken as Russian; "123 456" has none. *)
Lemma is_russian_text_ratio_witness :
  @is_russian_text sample_classes (utf8 "hello Привет") = Ret true /\
  @is_russian_text sample_classes (utf8 "123 456") = Ret false.
Proof.
  split.
  - destruct (@is_russian_text_ratio sample_classes (utf8 "hello Привет"))
      as [b [E [_ [H _]]]].
    rewrite E. f_equal. apply H; vm_compute; [discriminate | reflexivity].
  - destruct (@is_russian_text_ratio sample_classes (utf8 "123 456"))
      as [b [E [H _]]].
    rewrite E. f_equal. apply H. vm_compute. reflexivity.
Defined.

(* ------------------------------------------------------------------ *)
(** ** Reasoning on methods *)

Section Logic.
Context {S E K : Type}.
Variable key : S -> K.

Variable P : K -> Prop.


Lemma total_mild {A} (m : M S E A) : total key P m -> mild key P m.
Proof.
  intros H s Hs. specialize (H s Hs). destruct (result_of (m s)); simpl in *;
    [exact I | discriminate].
Qed.

Lemma keeps_ret {A} (a : A) : keeps key (ret a : M S E A).
Proof. intros s; reflexivity. Qed.

Lemma keeps_raise {A} (e : exn) : keeps key (@raise S E A e).
Proof. intros s; reflexivity. Qed.

Lemma keeps_lift {A} (r : res A) : keeps key (lift r : M S E A).
Proof. intros s; reflexivity. Qed.

Lemma keeps_emit (e : E) : keeps key (emit e).
Proof. intros s; reflexivity. Qed.

Lemma keeps_call {A} (e : E) (r : res A) : keeps key (call e r).
Proof. intros s; reflexivity. Qed.

Lemma keeps_get {A} (f : S -> A) : keeps key (get f : M S E A).
Proof. intros s; reflexivity. Qed.

Lemma keeps_modify (f : S -> S) : (forall s, key (f s) = key s) -> keeps key (modify f : M S E unit).
Proof. intros H s; apply H. Qed.

Lemma keeps_bind {A B} (m : M S E A) (f : A -> M S E B) :
  keeps key m -> (forall a, keeps key (f a)) -> keeps key (bind m f).
Proof.
  intros Hm Hf s. specialize (Hm s). unfold bind, state_of in *.
  destruct (m s) as [[[a|e] s1] es]; simpl in *; [|exact Hm].
  specialize (Hf a s1). destruct (f a s1) as [[r2 s2] es2]; unfold state_of, result_of in *; simpl in *.
  congruence.
Qed.

Lemma keeps_try_except {A} (m : M S E A) (h : exn -> M S E A) :
  keeps key m -> (forall e, keeps key (h e)) -> keeps key (try_except m h).
Proof.
  intros Hm Hh s. specialize (Hm s). unfold try_except, state_of in *.
  destruct (m s) as [[[a|e] s1] es]; simpl in *; [exact Hm|].
  destruct (is_Exception e); simpl; [|exact Hm].
  specialize (Hh e s1). destruct (h e s1) as [[r2 s2] es2]; unfold state_of, result_of in *; simpl in *.
  congruence.
Qed.

Lemma keeps_try_except_all {A} (m : M S E A) (h : exn -> M S E A) :
  keeps key m -> (forall e, keeps key (h e)) -> keeps key (try_except_all m h).
Proof.
  intros Hm Hh s. specialize (Hm s). unfold try_except_all, state_of in *.
  destruct (m s) as [[[a|e] s1] es]; simpl in *; [exact Hm|].
  specialize (Hh e s1). destruct (h e s1) as [[r2 s2] es2]; unfold state_of, result_of in *; simpl in *.
  congruence.
Qed.

Lemma mild_ret {A} (a : A) : mild key P (ret a : M S E A).
Proof. intros s _; exact I. Qed.

Lemma total_ret {A} (a : A) : total key P (ret a : M S E A).
Proof. intros s _; reflexivity. Qed.

Lemma total_emit (e : E) : total key P (emit e).
Proof. intros s _; reflexivity. Qed.

Lemma total_get {A} (f : S -> A) : total key P (get f : M S E A).
Proof. intros s _; reflexivity. Qed.

Lemma total_modify (f : S -> S) : total key P (modify f : M S E unit).
Proof. intros s _; reflexivity. Qed.

Lemma mild_lift {A} (r : res A) : ordinary r -> mild key P (lift r : M S E A).
Proof. intros H s _; exact H. Qed.

Lemma mild_call {A} (e : E) (r : res A) : ordinary r -> mild key P (call e r).
Proof. intros H s _; exact H. Qed.

Lemma total_call {A} (e : E) (a : A) : total key P (call e (Ret a)).
Proof. intros s _; reflexivity. Qed.

Lemma mild_bind {A B} (m : M S E A) (f : A -> M S E B) :
  keeps key m -> mild key P m -> (forall a, mild key P (f a)) -> mild key P (bind m f).
Proof.
  intros Km Hm Hf s Hs. specialize (Km s). specialize (Hm s Hs).
  unfold bind, result_of, state_of in *.
  destruct (m s) as [[[a|e] s1] es]; simpl in *; [|exact Hm].
  rewrite <- Km in Hs. specialize (Hf a s1 Hs).
  destruct (f a s1) as [[r2 s2] es2]; unfold state_of, result_of in *; simpl in *. exact Hf.
Qed.

Lemma total_bind {A B} (m : M S E A) (f : A -> M S E B) :
  keeps key m -> total key P m -> (forall a, total key P (f a)) -> total key P (bind m f).
Proof.
  intros Km Hm Hf s Hs. specialize (Km s). specialize (Hm s Hs).
  unfold bind, result_of, state_of in *.
  destruct (m s) as [[[a|e] s1] es]; simpl in *; [|discriminate].
  rewrite <- Km in Hs. specialize (Hf a s1 Hs).
  destruct (f a s1) as [[r2 s2] es2]; unfold state_of, result_of in *; simpl in *. exact Hf.
Qed.

(** Reading a field and going on with its value. *)
Lemma mild_get_bind {A B} (field : S -> A) (f : A -> M S E B) :
  (forall s, P (key s) -> ordinary (result_of (f (field s) s))) ->
  mild key P (bind (get field) f).
Proof.
  intros H s Hs. specialize (H s Hs). unfold bind, get, result_of in *.
  simpl. destruct (f (field s) s) as [[r2 s2] es2]; exact H.
Qed.

Lemma total_get_bind {A B} (field : S -> A) (f : A -> M S E B) :
  (forall s, P (key s) -> returns (result_of (f (field s) s)) = true) ->
  total key P (bind (get field) f).
Proof.
  intros H s Hs. specialize (H s Hs). unfold bind, get, result_of in *.
  simpl. destruct (f (field s) s) as [[r2 s2] es2]; exact H.
Qed.

Lemma keeps_get_bind {A B} (field : S -> A) (f : A -> M S E B) :
  (forall s, key (state_of (f (field s) s)) = key s) ->
  keeps key (bind (get field) f).
Proof.
  intros H s. specialize (H s). unfold bind, get, state_of in *.
  simpl. destruct (f (field s) s) as [[r2 s2] es2]; exact H.
Qed.

Lemma mild_try_except {A} (m : M S E A) (h : exn -> M S E A) :
  keeps key m -> mild key P m -> (forall e, mild key P (h e)) -> mild key P (try_except m h).
Proof.
  intros Km Hm Hh s Hs. specialize (Km s). specialize (Hm s Hs).
  unfold try_except, result_of, state_of in *.
  destruct (m s) as [[[a|e] s1] es]; simpl in *; [exact I|].
  rewrite Hm. rewrite <- Km in Hs. specialize (Hh e s1 Hs).
  destruct (h e s1) as [[r2 s2] es2]; unfold state_of, result_of in *; simpl in *. exact Hh.
Qed.

(** A mild body under [except Exception] with a handler that returns:
    the whole returns. *)
Lemma total_try_except {A} (m : M S E A) (h : exn -> M S E A) :
  keeps key m -> mild key P m -> (forall e, total key P (h e)) -> total key P (try_except m h).
Proof.
  intros Km Hm Hh s Hs. specialize (Km s). specialize (Hm s Hs).
  unfold try_except, result_of, state_of in *.
  destruct (m s) as [[[a|e] s1] es]; simpl in *; [reflexivity|].
  rewrite Hm. rewrite <- Km in Hs. specialize (Hh e s1 Hs).
  destruct (h e s1) as [[r2 s2] es2]; unfold state_of, result_of in *; simpl in *. exact Hh.
Qed.

(** Any body under a bare [except] with a handler that returns: the whole
    returns. *)
Lemma total_try_except_all {A} (m : M S E A) (h : exn -> M S E A) :
  keeps key m -> (forall e, total key P (h e)) -> total key P (try_except_all m h).
Proof.
  intros Km Hh s Hs. specialize (Km s).
  unfold try_except_all, result_of, state_of in *.
  destruct (m s) as [[[a|e] s1] es]; simpl in *; [reflexivity|].
  rewrite <- Km in Hs. specialize (Hh e s1 Hs).
  destruct (h e s1) as [[r2 s2] es2]; unfold state_of, result_of in *; simpl in *. exact Hh.
Qed.

End Logic.

Lemma bind_get {S E A B} (field : S -> A) (f : A -> M S E B) (s : S) :
  bind (get field) f s = f (field s) s.
Proof.
  unfold bind, get. destruct (f (field s) s) as [[r s2] es]. reflexivity.
Qed.

Lemma bind_ret {S E A B} (a : A) (f : A -> M S E B) (s : S) :
  bind (ret a) f s = f a s.
Proof.
  unfold bind, ret. destruct (f a s) as [[r s2] es]. reflexivity.
Qed.

Lemma bind_modify {S E B} (g : S -> S) (f : unit -> M S E B) (s : S) :
  bind (modify g) f s = f tt (g s).
Proof.
  unfold bind, modify. destruct (f tt (g s)) as [[r s2] es]. reflexivity.
Qed.

(** When [m] returns [a], the rest runs on the object [m] left. *)
Lemma bind_returns {S E A B} (m : M S E A) (f : A -> M S E B) s a s1 es :
  m s = (Ret a, s1, es) ->
  bind m f s =
  (result_of (f a s1), state_of (f a s1), es ++ sent_by (f a s1)).
Proof.
  intros H. unfold bind. rewrite H.
  destruct (f a s1) as [[r s2] es2]. reflexivity.
Qed.

Lemma bind_raises {S E A B} (m : M S E A) (f : A -> M S E B) s e s1 es :
  m s = (Raise e, s1, es) -> bind m f s = (Raise e, s1, es).
Proof. intros H. unfold bind. rewrite H. reflexivity. Qed.

Lemma bind_emit {S E B} (e : E) (f : unit -> M S E B) (s : S) :
  bind (emit e) f s =
  (result_of (f tt s), state_of (f tt s), e :: sent_by (f tt s)).
Proof.
  unfold bind, emit. destruct (f tt s) as [[r s2] es]. reflexivity.
Qed.

Lemma bind_call_ret {S E A B} (e : E) (r : res A) (a : A) (f : A -> M S E B)
    (s : S) :
  r = Ret a ->
  bind (call e r) f s =
  (result_of (f a s), state_of (f a s), e :: sent_by (f a s)).
Proof.
  intros ->. unfold bind, call. destruct (f a s) as [[r s2] es]. reflexivity.
Qed.

Lemma result_of_triple {S E A} (r : res A) (s : S) (es : list E) :
  result_of (r, s, es) = r.
Proof. reflexivity. Qed.

Lemma state_of_triple {S E A} (r : res A) (s : S) (es : list E) :
  state_of (r, s, es) = s.
Proof. reflexivity. Qed.

Lemma sent_by_triple {S E A} (r : res A) (s : S) (es : list E) :
  sent_by (r, s, es) = es.
Proof. reflexivity. Qed.

Lemma triple_eta {S E A} (x : res A * S * list E) :
  x = (result_of x, state_of x, sent_by x).
Proof. destruct x as [[r s] es]. reflexivity. Qed.

(* ------------------------------------------------------------------ *)
(** ** The worker: what its methods keep, and when they return *)

Ltac keeps_step :=
  first
    [ apply keeps_ret | apply keeps_raise | apply keeps_lift
    | apply keeps_emit | apply keeps_call | apply keeps_get
    | apply keeps_modify; intros; reflexivity
    | apply keeps_bind; [|intros]
    | apply keeps_try_except; [|intros]
    | apply keeps_try_except_all; [|intros]
    | match goal with
      | |- keeps _ (match ?x with _ => _ end) => destruct x
      end ].

Section WorkerFacts.
Context {U : CharClasses} {K : Type}.
Variable L : libs.

(** Apart from [enrich], which assigns [word_analysis_results], the methods
    of the pipeline assign no field at all: they keep any [key]. *)
Variable key : WorkerThread -> K.

Lemma keeps_add_stress_marks text : keeps key (add_stress_marks text).
Proof. unfold add_stress_marks. repeat keeps_step. Qed.

Lemma keeps_translate_russian text : keeps key (translate_russian text).
Proof. unfold translate_russian. repeat keeps_step. Qed.

Lemma keeps_analyse_words parse words lines infos :
  keeps key (analyse_words parse words lines infos).
Proof.
  revert lines infos. induction words as [|word rest IH]; intros; simpl.
  - apply keeps_ret.
  - repeat keeps_step. apply IH.
Qed.

Lemma keeps_morphological_analysis text :
  keeps key (morphological_analysis text).
Proof.
  unfold morphological_analysis. repeat keeps_step.
  apply keeps_analyse_words.
Qed.

Lemma keeps_translate_words translate infos acc :
  keeps key (translate_words translate infos acc).
Proof.
  revert acc. induction infos as [|word_info rest IH]; intros; simpl.
  - apply keeps_ret.
  - repeat keeps_step. apply IH.
Qed.

Lemma keeps_enhanced_audio text : keeps key (enhanced_audio L text).
Proof. unfold enhanced_audio. repeat keeps_step. Qed.

Lemma keeps_fallback_audio text e : keeps key (fallback_audio L text e).
Proof. unfold fallback_audio. repeat keeps_step. Qed.

Lemma keeps_play_loop indices result : keeps key (play_loop L indices result).
Proof.
  revert result. induction indices as [|i rest IH]; intros; simpl.
  - apply keeps_ret.
  - repeat keeps_step. apply IH.
Qed.

Lemma keeps_play_audio : keeps key (play_audio L).
Proof.
  unfold play_audio. repeat keeps_step. apply keeps_play_loop.
Qed.

End WorkerFacts.

Section PipelineFacts.
Context {U : CharClasses}.
Variable L : libs.

Lemma keeps_enrich text : keeps core (enrich text).
Proof.
  unfold enrich.
  apply keeps_bind; [apply keeps_add_stress_marks|intros [tws sa]].
  apply keeps_bind; [apply keeps_translate_russian|intros [tt ts]].
  apply keeps_bind; [apply keeps_morphological_analysis|intros [[mr ms] wa]].
  repeat keeps_step; apply keeps_translate_words.
Qed.

Lemma keeps_text_to_speech_russian text :
  keeps core (text_to_speech_russian L text).
Proof.
  unfold text_to_speech_russian. apply keeps_try_except.
  - apply keeps_bind; [apply keeps_enrich|intros [tws sa]].
    apply keeps_bind; [apply keeps_enhanced_audio|intros].
    apply keeps_ret.
  - intros. apply keeps_fallback_audio.
Qed.

End PipelineFacts.

Ltac total_step :=
  first
    [ apply total_ret | apply total_emit | apply total_get
    | apply total_modify | apply total_call
    | apply total_bind; [solve [repeat keeps_step] | | intros]
    | match goal with
      | |- total _ _ (match ?x with _ => _ end) => destruct x
      end ].

Ltac mild_step :=
  first
    [ apply mild_ret
    | apply mild_call; solve [auto]
    | apply mild_lift; solve [auto]
    | apply mild_bind; [solve [repeat keeps_step] | | intros]
    | match goal with
      | |- mild _ _ (match ?x with _ => _ end) => destruct x
      end
    | apply total_mild; solve [repeat total_step] ].

Section WorkerReturns.
Context {U : CharClasses}.
Variable L : libs.
Hypothesis HL : ordinary_libs L.

Lemma total_add_stress_marks text : total core good (add_stress_marks text).
Proof.
  intros w G. unfold add_stress_marks. rewrite !bind_get.
  unfold usable. destruct (stress_mark_enabled w); [|reflexivity].
  destruct (normalizer w) as [f|] eqn:E; [|reflexivity].
  pose proof G as [G1 _]. specialize (G1 f E).
  apply (total_try_except core good); auto; repeat keeps_step;
    repeat mild_step; repeat total_step.
Qed.

Lemma total_translate_russian text : total core good (translate_russian text).
Proof.
  intros w G. unfold translate_russian. rewrite !bind_get.
  unfold usable. destruct (translation_enabled w); [|reflexivity].
  destruct (translator w) as [f|] eqn:E; [|reflexivity].
  pose proof G as [_ [G2 _]]. specialize (G2 f E).
  apply (total_try_except core good); auto; repeat keeps_step;
    repeat mild_step; repeat total_step.
Qed.

Lemma tag_to_cn_ordinary g : ordinary g -> ordinary (tag_to_cn g).
Proof.
  destruct g as [gs|e]; simpl; [trivial|]. intros H. rewrite H. exact I.
Qed.

Lemma mild_analyse_words parse words lines infos :
  (forall s, ordinary (parse s) /\
             forall p, parse s = Ret p -> ordinary (parsed_grammemes p)) ->
  mild core good (analyse_words parse words lines infos).
Proof.
  intros H. revert lines infos.
  induction words as [|word rest IH]; intros lines infos w G; simpl.
  - exact I.
  - destruct (H word) as [H1 H2].
    unfold bind at 1, call. destruct (parse word) as [p|e] eqn:E;
      [|exact H1].
    specialize (H2 p eq_refl). apply tag_to_cn_ordinary in H2.
    unfold bind at 1, lift. destruct (tag_to_cn (parsed_grammemes p)) as [t|e];
      [|exact H2].
    specialize (IH (lines ++
           [word ++ utf8 "(" ++ t ++ utf8 ") →【原形】 " ++ parsed_normal_form p])
        (infos ++
           [{| original := word; normal_form := parsed_normal_form p;
               tag_cn := t |}]) w G).
    unfold result_of in *.
    destruct (analyse_words parse rest _ _ w) as [[r s2] es2]. exact IH.
Qed.

Lemma total_morphological_analysis text :
  total core good (morphological_analysis text).
Proof.
  intros w G. unfold morphological_analysis. rewrite !bind_get.
  unfold usable. destruct (morphology_enabled w); [|reflexivity].
  destruct (morph_analyzer w) as [f|] eqn:E; [|reflexivity].
  pose proof G as [_ [_ G3]]. specialize (G3 f E).
  apply (total_try_except core good); auto.
  - repeat keeps_step. apply keeps_analyse_words.
  - destruct (findall_runs is_russian_letter [] text); [apply mild_ret|].
    apply mild_bind; [apply keeps_analyse_words| |].
    + apply mild_analyse_words. exact G3.
    + intros [ls infos]. apply mild_ret.
  - intros e. repeat total_step.
Qed.

Lemma total_translate_words translate infos acc :
  (forall s, ordinary (translate s)) ->
  total core good (translate_words translate infos acc).
Proof.
  intros H. revert acc.
  induction infos as [|word_info rest IH]; intros acc; simpl.
  - apply total_ret.
  - apply total_bind; [repeat keeps_step| |intros; apply IH].
    apply total_try_except; [repeat keeps_step| |intros; repeat total_step].
    repeat mild_step.
Qed.

Lemma total_enrich text : total core good (enrich text).
Proof.
  unfold enrich.
  apply total_bind;
    [apply keeps_add_stress_marks|apply total_add_stress_marks|intros [tws sa]].
  apply total_bind;
    [apply keeps_translate_russian|apply total_translate_russian|intros [tr ts]].
  apply total_bind;
    [apply keeps_morphological_analysis|apply total_morphological_analysis|
     intros [[mr ms] wa]].
  apply total_bind; [apply keeps_emit|apply total_emit|intros _].
  apply total_bind;
    [apply keeps_modify; reflexivity|apply total_modify|intros _].
  intros w G. rewrite bind_get.
  assert (T : total core good
    (match wa, translator w with
     | _ :: _, Some translate => translate_words translate wa []
     | _, _ => ret []
     end)).
  { destruct wa as [|i wa]; [apply total_ret|].
    destruct (translator w) as [f|] eqn:E; [|apply total_ret].
    apply total_translate_words. destruct G as [_ [G _]]. exact (G f E). }
  assert (K : keeps core
    (match wa, translator w with
     | _ :: _, Some translate => translate_words translate wa []
     | _, _ => ret []
     end)).
  { destruct wa as [|i wa]; [apply keeps_ret|].
    destruct (translator w); [apply keeps_translate_words|apply keeps_ret]. }
  refine (total_bind core good _ _ K T _ w G).
  intros. repeat total_step.
Qed.

Lemma mild_enhanced_audio text : mild core good (enhanced_audio L text).
Proof.
  destruct HL as (H1 & H2 & H3 & H4 & H5 & H6 & H7).
  unfold enhanced_audio.
  apply mild_bind; [apply keeps_call|apply mild_call; apply H1|intros _].
  apply mild_bind; [apply keeps_call|apply mild_call; apply H2|intros _].
  intros w G. rewrite bind_get. revert w G.
  intros w0. generalize (audio_gain_db w0). intros gain. revert w0.
  change (mild core good
    (call (call_gain gain) (add_gain L gain) ;;
     call call_normalize (normalize L) ;;
     call (call_export AUDIO_FILE_PATH) (export L AUDIO_FILE_PATH) ;;
     present <- call (call_exists temp_path) (Ret (path_exists L temp_path)) ;;
     (if present then call (call_remove temp_path) (remove L temp_path)
      else ret tt))).
  apply mild_bind; [apply keeps_call|apply mild_call; apply H3|intros _].
  apply mild_bind; [apply keeps_call|apply mild_call; apply H4|intros _].
  apply mild_bind; [apply keeps_call|apply mild_call; apply H5|intros _].
  apply mild_bind; [apply keeps_call|apply mild_call; exact I|intros b].
  destruct b; [apply mild_call; apply H6|apply mild_ret].
Qed.

Lemma total_fallback_audio text e : total core good (fallback_audio L text e).
Proof.
  unfold fallback_audio. apply total_try_except_all.
  - repeat keeps_step.
  - intros. repeat total_step.
Qed.

Lemma total_text_to_speech_russian text :
  total core good (text_to_speech_russian L text).
Proof.
  unfold text_to_speech_russian. apply total_try_except.
  - apply keeps_bind; [apply keeps_enrich|intros [tws sa]].
    apply keeps_bind; [apply keeps_enhanced_audio|intros; apply keeps_ret].
  - apply mild_bind; [apply keeps_enrich| |intros [tws sa]].
    + apply total_mild, total_enrich.
    + apply mild_bind;
        [apply keeps_enhanced_audio|apply mild_enhanced_audio|
         intros; apply mild_ret].
  - intros; apply total_fallback_audio.
Qed.

Lemma mild_play_loop indices result : mild core good (play_loop L indices result).
Proof.
  destruct HL as (H1 & H2 & H3 & H4 & H5 & H6 & H7).
  revert result. induction indices as [|i rest IH]; intros; simpl.
  - apply mild_ret.
  - apply mild_bind; [apply keeps_get|apply total_mild, total_get|intros].
    apply mild_bind; [apply keeps_get|apply total_mild, total_get|intros].
    apply mild_bind; [apply keeps_emit|apply total_mild, total_emit|intros].
    apply mild_bind; [apply keeps_call|apply mild_call, H7|intros].
    apply mild_bind; [apply keeps_get|apply total_mild, total_get|intros].
    apply mild_bind; [repeat keeps_step| |intros; apply IH].
    apply total_mild. repeat total_step.
Qed.

Lemma total_play_audio : total core good (play_audio L).
Proof.
  unfold play_audio. apply total_try_except.
  - repeat keeps_step. apply keeps_play_loop.
  - apply mild_bind; [apply keeps_get|apply total_mild, total_get|intros].
    apply mild_bind; [apply keeps_play_loop|apply mild_play_loop|intros r].
    destruct r as [[c e]|].
    + apply total_mild. repeat total_step.
    + intros w _. reflexivity.
  - intros. repeat total_step.
Qed.

End WorkerReturns.

(* ------------------------------------------------------------------ *)
(** ** The watcher *)

Lemma core_fields (a b : WorkerThread) :
  core a = core b ->
  is_running a = is_running b /\ is_processing a = is_processing b /\
  last_content a = last_content b /\
  last_process_time a = last_process_time b /\
  process_cooldown a = process_cooldown b /\
  check_interval a = check_interval b /\
  (good a -> good b).
Proof.
  intros H.
  pose proof (f_equal is_running H) as H1.
  pose proof (f_equal is_processing H) as H2.
  pose proof (f_equal last_content H) as H3.
  pose proof (f_equal last_process_time H) as H4.
  pose proof (f_equal process_cooldown H) as H5.
  pose proof (f_equal check_interval H) as H6.
  pose proof (f_equal normalizer H) as H7.
  pose proof (f_equal translator H) as H8.
  pose proof (f_equal morph_analyzer H) as H9.
  simpl in *. repeat split; auto.
  - rewrite <- H7. apply H0.
  - rewrite <- H8. apply H0.
  - rewrite <- H9 in H10. destruct H0 as (_ & _ & G). apply (G f H10 s).
  - rewrite <- H9 in H10. destruct H0 as (_ & _ & G). apply (G f H10 s).
Qed.

Section WatcherFacts.
Context {U : CharClasses}.

Lemma is_russian_text_returns (c : pystr) : exists b, is_russian_text c = Ret b.
Proof.
  destruct (filter is_letter_like c) as [|x l] eqn:E.
  - exists false. apply is_russian_text_no_letters, E.
  - eexists. apply is_russian_text_letters. congruence.
Qed.

Lemma strip_nil : strip [] = [].
Proof. reflexivity. Qed.

(** The condition of the source is the rule of the specification: a
    content that is not empty after trimming is not empty. *)
Lemma should_trigger_spec (w : WorkerThread) (c : pystr) (t : Q) :
  should_trigger w c t =
  spec_trigger (process_cooldown w) (last_content w) (last_process_time w) c t.
Proof.
  unfold should_trigger, spec_trigger.
  destruct c as [|x c]; [reflexivity|]. simpl truthy.
  destruct (str_eqb (x :: c) (last_content w)),
    (str_eqb (strip (x :: c)) []); reflexivity.
Qed.

Lemma spec_trigger_iff (cooldown : Q) (last_seen : pystr) (last_at : Q)
    (C : pystr) (now : Q) :
  spec_trigger cooldown last_seen last_at C now = true <->
  strip C <> [] /\ C <> last_seen /\ (cooldown <= now - last_at)%Q.
Proof.
  unfold spec_trigger.
  rewrite !andb_true_iff, !negb_true_iff, !str_eqb_neq, Qle_bool_iff. tauto.
Qed.

Lemma keeps_speak L c : keeps core (speak L c).
Proof.
  unfold speak.
  apply keeps_bind; [apply keeps_modify; reflexivity|intros _].
  apply keeps_bind; [apply keeps_get|intros n].
  apply keeps_bind; [apply keeps_emit|intros _].
  apply keeps_bind; [apply keeps_emit|intros _].
  apply keeps_bind; [apply keeps_text_to_speech_russian|intros [ok sa]].
  destruct ok; [|apply keeps_emit].
  apply keeps_bind; [apply keeps_play_audio|intros [pok msg]].
  destruct (negb pok); [apply keeps_emit|apply keeps_ret].
Qed.

Lemma total_speak L c : ordinary_libs L -> total core good (speak L c).
Proof.
  intros HL. unfold speak.
  apply total_bind; [apply keeps_modify; reflexivity|apply total_modify|intros _].
  apply total_bind; [apply keeps_get|apply total_get|intros n].
  apply total_bind; [apply keeps_emit|apply total_emit|intros _].
  apply total_bind; [apply keeps_emit|apply total_emit|intros _].
  apply total_bind;
    [apply keeps_text_to_speech_russian
    |apply total_text_to_speech_russian, HL|intros [ok sa]].
  destruct ok; [|apply total_emit].
  apply total_bind;
    [apply keeps_play_audio|apply total_play_audio, HL|intros [pok msg]].
  destruct (negb pok); [apply total_emit|apply total_ret].
Qed.

Lemma keeps_branch L c b : keeps core (branch L c b).
Proof. destruct b; [apply keeps_speak|apply keeps_call]. Qed.

(** [process] unfolded: the flag is cleared by the statement that follows
    the branch, and by nothing else. *)
Lemma process_run L c t w b :
  is_russian_text c = Ret b ->
  process L c t w =
  match result_of (branch L c b (touched c t w)) with
  | Ret _ =>
      (Ret tt,
       set_is_processing false (state_of (branch L c b (touched c t w))),
       sent_by (branch L c b (touched c t w)))
  | Raise e =>
      (Raise e, state_of (branch L c b (touched c t w)),
       sent_by (branch L c b (touched c t w)))
  end.
Proof.
  intros E. unfold process. rewrite !bind_modify.
  fold (touched c t w). unfold bind at 1, lift. rewrite E.
  unfold bind, modify.
  destruct (branch L c b (touched c t w)) as [[[[]|e] s1] es];
    unfold result_of, state_of, sent_by; simpl; rewrite ?app_nil_r; reflexivity.
Qed.

Lemma poll_tick_run tk w c :
  is_processing w = false ->
  clipboard tk = Ret c ->
  poll_tick tk w =
  if should_trigger w c (clock tk) then
    match process (world tk) c (clock tk) w with
    | (Ret _, w', es) =>
        (Ret true, w', [call_paste; call_time] ++ es ++ [call_sleep (check_interval w')])
    | (Raise e, w', es) => (Raise e, w', [call_paste; call_time] ++ es)
    end
  else (Ret false, w, [call_paste; call_time; call_sleep (check_interval w)]).
Proof.
  intros Hb Hc. unfold poll_tick. rewrite bind_get, Hb.
  unfold bind at 1, call. rewrite Hc.
  unfold bind at 1. rewrite bind_get.
  destruct (should_trigger w c (clock tk)).
  - unfold bind at 1.
    destruct (process (world tk) c (clock tk) w) as [[[[]|e] w'] es];
      [|reflexivity].
    rewrite bind_get. unfold bind, call, ret. simpl. reflexivity.
  - rewrite bind_get. unfold bind, call, ret. simpl. reflexivity.
Qed.

(** With tools and libraries that fail in the ordinary way the processing
    returns, the flag cleared and the content and time recorded. *)
Lemma process_returns L c t w :
  ordinary_libs L -> good w ->
  exists w' es,
    process L c t w = (Ret tt, w', es) /\
    core w' = core (set_is_processing false (touched c t w)).
Proof.
  intros HL G. destruct (is_russian_text_returns c) as [b E].
  rewrite (process_run L c t w b E).
  assert (T : returns (result_of (branch L c b (touched c t w))) = true).
  { destruct b; [apply (total_speak L c HL); exact G|reflexivity]. }
  pose proof (keeps_branch L c b (touched c t w)) as K.
  destruct (result_of (branch L c b (touched c t w))); [|discriminate].
  eexists _, _. split; [reflexivity|].
  pose proof (f_equal (set_is_processing false) K) as K'.
  exact K'.
Qed.

End WatcherFacts.

Lemma result_of_bind {S E A B} (m : M S E A) (f : A -> M S E B) s a s1 es :
  m s = (Ret a, s1, es) -> result_of (bind m f s) = result_of (f a s1).
Proof. intros H. rewrite (bind_returns m f s a s1 es H). reflexivity. Qed.

Lemma good_sample_libs annotate translate exit_status :
  (forall s, ordinary (annotate s)) -> (forall s, ordinary (translate s)) ->
  good (worker_of (sample_libs annotate translate exit_status)) /\
  ordinary_libs (sample_libs annotate translate exit_status).
Proof.
  intros Ha Ht. split.
  - split; [|split]; simpl; intros f E; injection E as <-; auto.
    intros s. split; [exact I|]. intros p E. injection E as <-. exact I.
  - repeat split; intros; exact I.
Qed.

Section TransitionRule.
Context {U : CharClasses}.

Lemma run_loop_follows_rule (ticks : list tick) (w : WorkerThread) :
  is_running w = true -> is_processing w = false -> good w ->
  Forall well_behaved ticks ->
  result_of (run_loop ticks w) =
  Ret (spec_triggers (process_cooldown w) (last_content w)
         (last_process_time w) (map reading ticks)).
Proof.
  intros Hr Hp G F. revert w Hr Hp G.
  induction F as [|tk rest [Hc HL] F IH]; intros w Hr Hp G; [reflexivity|].
  destruct (clipboard tk) as [c|] eqn:Ec; [clear Hc|discriminate].
  cbn [run_loop map]. rewrite bind_get, Hr.
  unfold reading at 1. rewrite Ec. cbn [spec_triggers].
  pose proof (poll_tick_run tk w c Hp Ec) as Ht.
  rewrite should_trigger_spec in Ht.
  destruct (spec_trigger (process_cooldown w) (last_content w)
              (last_process_time w) c (clock tk)).
  - destruct (process_returns (world tk) c (clock tk) w HL G)
      as (w' & es & Ep & Ew).
    rewrite Ep in Ht. rewrite (result_of_bind _ _ _ _ _ _ Ht).
    destruct (core_fields _ _ Ew) as (F1 & F2 & F3 & F4 & F5 & _ & _).
    simpl in F1, F2, F3, F4, F5.
    assert (G' : good w').
    { symmetry in Ew. destruct (core_fields _ _ Ew) as (_ & _ & _ & _ & _ & _ & X).
      apply X. exact G. }
    specialize (IH w' (eq_trans F1 Hr) F2 G').
    rewrite F3, F4, F5 in IH.
    destruct (run_loop rest w') as [[r s2] es2] eqn:El.
    unfold result_of in IH; simpl in IH. subst r.
    rewrite (result_of_bind _ _ _ _ _ _ El). reflexivity.
  - rewrite (result_of_bind _ _ _ _ _ _ Ht).
    specialize (IH w Hr Hp G).
    destruct (run_loop rest w) as [[r s2] es2] eqn:El.
    unfold result_of in IH; simpl in IH. subst r.
    rewrite (result_of_bind _ _ _ _ _ _ El). reflexivity.
Qed.

End TransitionRule.

(** C1. Over any sequence of poll ticks (clipboard readable, failures of the
    ordinary kind) the loop triggers processing on exactly the ticks the
    rule of the specification names: content non-empty after trimming,
    different from the last seen content, cooldown elapsed since the last
    processing.  In particular the readings "А", "А", "Б" at any
    non-decreasing times, with cooldown 0 and whatever the poll interval,
    give exactly 2 triggers. *)
Theorem watcher_follows_transition_rule {U : CharClasses}
    (ticks : list tick) (w : WorkerThread) :
  is_running w = true -> is_processing w = false -> good w ->
  Forall well_behaved ticks ->
  result_of (run_loop ticks w) =
    Ret (spec_triggers (process_cooldown w) (last_content w)
           (last_process_time w) (map reading ticks))
  /\ (forall cooldown last_seen last_at C now,
        spec_trigger cooldown last_seen last_at C now = true <->
        strip C <> [] /\ C <> last_seen /\ (cooldown <= now - last_at)%Q)
  /\ (forall L1 L2 L3 t1 t2 t3,
        isspace 0x410 = false -> isspace 0x411 = false ->
        ordinary_libs L1 -> ordinary_libs L2 -> ordinary_libs L3 ->
        (process_cooldown w == 0)%Q ->
        last_content w <> utf8 "А" ->
        (last_process_time w <= t1)%Q -> (t1 <= t2)%Q -> (t2 <= t3)%Q ->
        exists flags,
          result_of
            (run_loop [tick_of L1 (utf8 "А") t1; tick_of L2 (utf8 "А") t2;
                       tick_of L3 (utf8 "Б") t3] w) = Ret flags
          /\ triggers flags = 2%nat).
Proof.
  intros Hr Hp G F. split; [apply run_loop_follows_rule; assumption|].
  split; [intros; apply spec_trigger_iff|].
  intros L1 L2 L3 t1 t2 t3 HA HB O1 O2 O3 Hc Hl H1 H2 H3.
  eexists. split.
  - apply run_loop_follows_rule; auto.
    repeat (apply Forall_cons; [split; [reflexivity|assumption]|]).
    apply Forall_nil.
  - change (utf8 "А") with [0x410] in *. change (utf8 "Б") with [0x411].
    cbn [map reading tick_of clipboard clock spec_triggers].
    assert (E1 : spec_trigger (process_cooldown w) (last_content w)
                   (last_process_time w) [0x410] t1 = true).
    { apply spec_trigger_iff. unfold strip, rstrip. simpl. rewrite HA. simpl.
      rewrite HA. repeat split; [discriminate|congruence|].
      rewrite Hc. lra. }
    rewrite E1.
    assert (E2 : spec_trigger (process_cooldown w) [0x410] t1 [0x410] t2 = false).
    { unfold spec_trigger. simpl str_eqb at 2. rewrite andb_false_r. reflexivity. }
    rewrite E2.
    assert (E3 : spec_trigger (process_cooldown w) [0x410] t1 [0x411] t3 = true).
    { apply spec_trigger_iff. unfold strip, rstrip. simpl. rewrite HB. simpl.
      rewrite HB. repeat split; [discriminate|discriminate|].
      rewrite Hc. lra. }
    rewrite E3. reflexivity.
Qed.

(** The three readings, one second apart, on a worker configured with
    cooldown 0 and working libraries. *)
Lemma watcher_follows_transition_rule_witness :
  result_of
    (@run_loop sample_classes
       [tick_of working_libs (utf8 "А") 1; tick_of working_libs (utf8 "А") 2;
        tick_of working_libs (utf8 "Б") 3]
       (set_is_running true (configured working_libs 0 true)))
  = Ret [true; false; true].
Proof.
  destruct (@watcher_follows_transition_rule sample_classes
              [tick_of working_libs (utf8 "А") 1; tick_of working_libs (utf8 "А") 2;
               tick_of working_libs (utf8 "Б") 3]
              (set_is_running true (configured working_libs 0 true)))
    as [E _].
  - reflexivity.
  - reflexivity.
  - split; [|split]; simpl; intros f E; injection E as <-; intros s;
      try exact I.
    split; [exact I|]. intros p E. injection E as <-. exact I.
  - repeat (apply Forall_cons;
              [split; [reflexivity|repeat split; intros; exact I]|]).
    apply Forall_nil.
  - rewrite E. vm_compute. reflexivity.
Defined.

(* ------------------------------------------------------------------ *)
(** ** The busy flag *)

Section BusyFlag.
Context {U : CharClasses}.

(** The handlers around the loop of [run] emit notifications and assign
    nothing. *)
Lemma run_state (ticks : list tick) (w : WorkerThread) :
  state_of (run ticks w) = state_of (run_loop ticks (set_is_running true w)).
Proof.
  unfold run. rewrite bind_modify.
  unfold bind, emit, try_finally, try_except, ret, state_of.
  destruct (run_loop ticks (set_is_running true w)) as [[[a|e] s1] es];
    simpl; [reflexivity|].
  destruct (is_Exception e); reflexivity.
Qed.

Lemma run_loop_single (tk : tick) (w : WorkerThread) :
  is_running w = true ->
  state_of (run_loop [tk] w) = state_of (poll_tick tk w) /\
  returns (result_of (run_loop [tk] w)) = returns (result_of (poll_tick tk w)).
Proof.
  intros Hr. cbn [run_loop]. rewrite bind_get, Hr.
  unfold bind, ret, state_of, result_of.
  destruct (poll_tick tk w) as [[[a|e] s1] es]; simpl; split; reflexivity.
Qed.

(** A triggered tick: when the processing returns the flag is clear at
    the end of the tick, when an exception escapes it the flag is set. *)
Lemma poll_tick_flag (tk : tick) (w : WorkerThread) (c : pystr) :
  is_processing w = false ->
  clipboard tk = Ret c ->
  should_trigger w c (clock tk) = true ->
  is_processing (state_of (poll_tick tk w)) =
  negb (returns (result_of (poll_tick tk w))).
Proof.
  intros Hp Hc Ht. rewrite (poll_tick_run tk w c Hp Hc), Ht.
  destruct (is_russian_text_returns c) as [b E].
  rewrite (process_run (world tk) c (clock tk) w b E).
  pose proof (keeps_branch (world tk) c b (touched c (clock tk) w)) as K.
  apply core_fields in K. destruct K as (_ & K & _).
  destruct (result_of (branch (world tk) c b (touched c (clock tk) w)));
    unfold state_of at 1, result_of at 1; simpl; [reflexivity|exact K].
Qed.

End BusyFlag.

(** C2, as the code has it. On a poll tick that triggers processing the busy
    flag is cleared by the end of the tick when the processing returns, which
    it does whenever the tools and libraries fail with exceptions of class
    [Exception]; the clearing is the statement after the processing, not a
    [finally] step, so when an exception escapes the processing the flag
    stays set, and the handlers of [run] end the loop without assigning
    it. *)
Theorem busy_flag_cleared_when_processing_returns {U : CharClasses}
    (tk : tick) (w : WorkerThread) (c : pystr) :
  is_processing w = false ->
  clipboard tk = Ret c ->
  should_trigger w c (clock tk) = true ->
  (returns (result_of (poll_tick tk w)) = true ->
     is_processing (state_of (poll_tick tk w)) = false)
  /\ (returns (result_of (poll_tick tk w)) = false ->
     is_processing (state_of (poll_tick tk w)) = true)
  /\ (good w -> ordinary_libs (world tk) ->
     returns (result_of (poll_tick tk w)) = true)
  /\ is_processing (state_of (run [tk] w)) =
     negb (returns (result_of (run_loop [tk] (set_is_running true w)))).
Proof.
  intros Hp Hc Ht.
  pose proof (poll_tick_flag tk w c Hp Hc Ht) as F.
  split; [intros R; rewrite F, R; reflexivity|].
  split; [intros R; rewrite F, R; reflexivity|].
  split.
  - intros G HL. rewrite (poll_tick_run tk w c Hp Hc), Ht.
    destruct (process_returns (world tk) c (clock tk) w HL G)
      as (w' & es & Ep & _).
    rewrite Ep. reflexivity.
  - rewrite run_state.
    destruct (run_loop_single tk (set_is_running true w) eq_refl) as [E1 E2].
    rewrite E1, E2. apply (poll_tick_flag tk (set_is_running true w) c); assumption.
Qed.

(** "Привет" on a worker with working libraries: the tick returns and the
    flag is clear. *)
Lemma busy_flag_cleared_when_processing_returns_witness :
  is_processing
    (state_of (@poll_tick sample_classes (tick_of working_libs (utf8 "Привет") 5)
                 (worker_of working_libs))) = false.
Proof.
  destruct (@busy_flag_cleared_when_processing_returns sample_classes
              (tick_of working_libs (utf8 "Привет") 5) (worker_of working_libs)
              (utf8 "Привет") eq_refl eq_refl eq_refl) as [H _].
  apply H. vm_compute. reflexivity.
Defined.

(** C2, as stated, fails. The stress annotator is interrupted by an exception
    outside [Exception] while "Привет" is processed: the tick was triggered,
    [run] ends by its [finally] step, and the flag is still set. *)
Lemma busy_flag_left_set :
  let L := sample_libs interrupted to_chinese (fun _ => 0) in
  let w := worker_of L in
  let tk := tick_of L (utf8 "Привет") 5 in
  is_processing w = false /\
  @should_trigger sample_classes w (utf8 "Привет") 5 = true /\
  returns (result_of (@run sample_classes [tk] w)) = false /\
  is_processing (state_of (@run sample_classes [tk] w)) = true /\
  sent_by (@run sample_classes [tk] w) =
    [log_signal msg_monitor_started SUCCESS;
     status_signal (utf8 "监控中...");
     call_paste; call_time;
     processed_count_signal 1;
     log_signal (msg_detected (utf8 "Привет")) INFO;
     call_normalizer (utf8 "Привет");
     status_signal (utf8 "已停止");
     log_signal msg_monitor_stopped INFO].
Proof. vm_compute. repeat split; reflexivity. Qed.

(* ------------------------------------------------------------------ *)
(** ** A content that is not Russian *)

(** C7, as the code has it. On a poll tick whose content qualifies for
    triggering and is not Russian, the pipeline is skipped (the tick reads
    the clipboard and the clock, pauses 0.2 s and sleeps the poll interval,
    and emits no signal), the content and the time of the tick are recorded,
    the busy flag is clear again, and the counter of processed texts is left
    as it was; the same content does not trigger on the next tick. *)
Theorem non_russian_content_consumes_debounce_slot {U : CharClasses}
    (tk next : tick) (w : WorkerThread) (c : pystr) :
  is_processing w = false ->
  clipboard tk = Ret c ->
  should_trigger w c (clock tk) = true ->
  is_russian_text c = Ret false ->
  clipboard next = Ret c ->
  let out := poll_tick tk w in
  result_of out = Ret true
  /\ sent_by out =
       [call_paste; call_time; call_sleep (2 # 10); call_sleep (check_interval w)]
  /\ last_content (state_of out) = c
  /\ last_process_time (state_of out) = clock tk
  /\ is_processing (state_of out) = false
  /\ processed_count (state_of out) = processed_count w
  /\ result_of (poll_tick next (state_of out)) = Ret false.
Proof.
  intros Hp Hc Ht Hr Hn out.
  assert (E : out =
    (Ret true, set_is_processing false (touched c (clock tk) w),
     [call_paste; call_time; call_sleep (2 # 10); call_sleep (check_interval w)])).
  { unfold out. rewrite (poll_tick_run tk w c Hp Hc), Ht.
    rewrite (process_run (world tk) c (clock tk) w false Hr). reflexivity. }
  rewrite E. unfold result_of, sent_by, state_of. simpl fst. simpl snd.
  repeat split.
  rewrite (poll_tick_run next (set_is_processing false (touched c (clock tk) w))
             c eq_refl Hn).
  assert (N : should_trigger (set_is_processing false (touched c (clock tk) w))
                c (clock next) = false).
  { unfold should_trigger. simpl last_content.
    assert (S : str_eqb c c = true) by (apply str_eqb_eq; reflexivity).
    rewrite S. simpl. rewrite andb_false_r. reflexivity. }
  rewrite N. reflexivity.
Qed.

(** "hello" on a fresh worker, read again half a second later. *)
Lemma non_russian_content_consumes_debounce_slot_witness :
  let w := worker_of working_libs in
  let out := @poll_tick sample_classes (tick_of working_libs (utf8 "hello") 5) w in
  last_content (state_of out) = utf8 "hello" /\
  processed_count (state_of out) = 0 /\
  result_of (@poll_tick sample_classes
               (tick_of working_libs (utf8 "hello") (11 # 2)) (state_of out))
  = Ret false.
Proof.
  intros w out.
  destruct (@non_russian_content_consumes_debounce_slot sample_classes
              (tick_of working_libs (utf8 "hello") 5)
              (tick_of working_libs (utf8 "hello") (11 # 2))
              w (utf8 "hello") eq_refl eq_refl eq_refl eq_refl eq_refl)
    as (_ & _ & H1 & _ & _ & H2 & H3).
  repeat split; assumption.
Defined.

(** C7, as stated, fails on the counters. "hello" triggers on a fresh worker
    and is not Russian: the counter of processed texts stays 0 and no
    [processed_count_signal] is emitted, whereas "Привет" in its place is
    counted. *)
Lemma non_russian_content_is_not_counted :
  let w := worker_of working_libs in
  let seen c := @poll_tick sample_classes (tick_of working_libs c 5) w in
  @should_trigger sample_classes w (utf8 "hello") 5 = true /\
  @is_russian_text sample_classes (utf8 "hello") = Ret false /\
  processed_count w = 0 /\
  processed_count (state_of (seen (utf8 "hello"))) = 0 /\
  processed_count (state_of (seen (utf8 "hello"))) <> processed_count w + 1 /\
  ~ In (processed_count_signal 1) (sent_by (seen (utf8 "hello"))) /\
  processed_count (state_of (seen (utf8 "Привет"))) = 1 /\
  In (processed_count_signal 1) (sent_by (seen (utf8 "Привет"))).
Proof.
  vm_compute. repeat split; try reflexivity; try discriminate.
  - intros [H|[H|[H|[H|[]]]]]; discriminate.
  - right. right. left. reflexivity.
Qed.

(* ------------------------------------------------------------------ *)
(** ** The word history *)

Lemma str_eqb_refl (a : pystr) : str_eqb a a = true.
Proof. apply str_eqb_eq. reflexivity. Qed.

Lemma od_get_set (k v : pystr) (d : table) : od_get k (od_set k v d) = Some v.
Proof.
  induction d as [|[k' v'] r IH]; simpl.
  - rewrite str_eqb_refl. reflexivity.
  - destruct (str_eqb k' k) eqn:E; simpl; rewrite E; [reflexivity|exact IH].
Qed.

Lemma od_get_set_other (k k0 v : pystr) (d : table) :
  k0 <> k -> od_get k0 (od_set k v d) = od_get k0 d.
Proof.
  intros N. induction d as [|[k' v'] r IH]; simpl.
  - apply str_eqb_neq in N. destruct (str_eqb k k0) eqn:E; [|reflexivity].
    apply str_eqb_eq in E. subst. rewrite str_eqb_refl in N. discriminate.
  - destruct (str_eqb k' k) eqn:E; simpl.
    + apply str_eqb_eq in E. subst k'.
      destruct (str_eqb k k0) eqn:E0; [|reflexivity].
      apply str_eqb_eq in E0. congruence.
    + rewrite IH. reflexivity.
Qed.

Lemma count_key_absent (k : pystr) (d : table) :
  ~ In k (map fst d) -> count_key k d = 0%nat.
Proof.
  unfold count_key. induction d as [|[k' v'] r IH]; simpl; [reflexivity|].
  intros N. destruct (str_eqb k' k) eqn:E.
  - apply str_eqb_eq in E. subst. exfalso. apply N. left. reflexivity.
  - apply IH. intros H. apply N. right. exact H.
Qed.

Lemma keys_od_set (k v : pystr) (d : table) :
  map fst (od_set k v d) =
  if existsb (fun k' => str_eqb k' k) (map fst d) then map fst d
  else map fst d ++ [k].
Proof.
  induction d as [|[k' v'] r IH]; simpl; [reflexivity|].
  destruct (str_eqb k' k) eqn:E; simpl; [reflexivity|].
  rewrite IH. destruct (existsb _ (map fst r)); reflexivity.
Qed.

Lemma unique_keys_od_set (k v : pystr) (d : table) :
  unique_keys d -> unique_keys (od_set k v d).
Proof.
  unfold unique_keys. intros H. rewrite keys_od_set.
  destruct (existsb (fun k' => str_eqb k' k) (map fst d)) eqn:E; [exact H|].
  apply NoDup_app; [exact H|repeat constructor; intros []|].
  intros x Hx [Hk|[]]. subst x.
  assert (X : existsb (fun k' => str_eqb k' k) (map fst d) = true).
  { apply existsb_exists. exists k. split; [exact Hx|apply str_eqb_refl]. }
  congruence.
Qed.

Lemma count_key_od_set (k v : pystr) (d : table) :
  unique_keys d -> count_key k (od_set k v d) = 1%nat.
Proof.
  unfold unique_keys, count_key.
  induction d as [|[k' v'] r IH]; simpl; intros H.
  - rewrite str_eqb_refl. reflexivity.
  - inversion H as [|x l Hx Hl]; subst.
    destruct (str_eqb k' k) eqn:E; simpl; rewrite E.
    + apply str_eqb_eq in E. subst k'.
      pose proof (count_key_absent k r Hx) as C. unfold count_key in C.
      simpl. rewrite C. reflexivity.
    + apply IH. exact Hl.
Qed.

Section HistoryFacts.
Context {P : Pickle}.

Lemma save_written (m : MainWindow) :
  save_word_history written m =
  (Ret tt, set_history_file (Some (pickle_dump (word_history m))) m,
   call_write_history (pickle_dump (word_history m))
   :: if has_log_text m then [log_message msg_history_saved INFO] else []).
Proof.
  unfold save_word_history, try_except. rewrite bind_get.
  unfold write_history, bind, emit, modify, get, ret. simpl.
  destruct (has_log_text m); reflexivity.
Qed.

Lemma save_sends_the_table (io : write_outcome) (m : MainWindow) :
  word_history (state_of (save_word_history io m)) = word_history m /\
  In (call_write_history (pickle_dump (word_history m)))
     (sent_by (save_word_history io m)).
Proof.
  destruct io as [|e remains].
  - rewrite save_written. split; [reflexivity|left; reflexivity].
  - unfold save_word_history, try_except. rewrite bind_get.
    unfold write_history, bind, emit, modify, get, ret, raise. simpl.
    destruct (is_Exception e); [destruct (has_log_text m)|]; simpl;
      (split; [reflexivity|left; reflexivity]).
Qed.

Lemma add_word_run (io : write_outcome) (m : MainWindow) (word translation : pystr) :
  word <> [] -> translation <> [] -> translation <> FAILED ->
  add_word_to_history io word translation m =
  save_word_history io
    (set_word_history (od_set word translation (word_history m)) m).
Proof.
  intros Hw Ht Hf. unfold add_word_to_history.
  destruct word; [congruence|]. destruct translation as [|x t]; [congruence|].
  apply str_eqb_neq in Hf. rewrite Hf. simpl. rewrite bind_modify. reflexivity.
Qed.

Lemma load_read (m : MainWindow) (data : bytes) (d : table) :
  history_file m = Some data ->
  pickle_load data = Ret d ->
  load_word_history (Ret tt) m =
  (Ret tt, set_word_history d m,
   [call_read_history; set_word_count_label (length d);
    log_message (msg_history_loaded (length d)) SUCCESS]).
Proof.
  intros Hf Hl. unfold load_word_history, try_except. rewrite bind_get, Hf.
  unfold read_history, bind, emit, lift, modify. rewrite Hl. reflexivity.
Qed.

End HistoryFacts.

(** C3. [add_word_to_history] does nothing when the word or the translation
    is empty or the translation is the failure sentinel.  Otherwise the table
    becomes the old one with the word set to the translation: one item for
    the word, holding the translation, the other words as they were; the
    whole new table is handed at once to the write of the history file, and
    is its content when the write succeeds.  A later add for the same word
    leaves one item, holding the later translation. *)
Theorem add_word_to_history_overwrites_and_saves {P : Pickle}
    (io io' : write_outcome) (m : MainWindow) (word translation later : pystr) :
  unique_keys (word_history m) ->
  let out := add_word_to_history io word translation m in
  let d' := od_set word translation (word_history m) in
  ((word = [] \/ translation = [] \/ translation = FAILED) ->
     out = (Ret tt, m, []))
  /\ (word <> [] -> translation <> [] -> translation <> FAILED ->
      word_history (state_of out) = d'
      /\ od_get word d' = Some translation
      /\ count_key word d' = 1%nat
      /\ unique_keys d'
      /\ (forall k, k <> word -> od_get k d' = od_get k (word_history m))
      /\ In (call_write_history (pickle_dump d')) (sent_by out)
      /\ (io = written ->
          result_of out = Ret tt /\
          history_file (state_of out) = Some (pickle_dump d'))
      /\ (later <> [] -> later <> FAILED ->
          let out2 := add_word_to_history io' word later (state_of out) in
          od_get word (word_history (state_of out2)) = Some later /\
          count_key word (word_history (state_of out2)) = 1%nat)).
Proof.
  intros Hu out d'. split.
  - intros H. unfold out, add_word_to_history.
    destruct H as [H|[H|H]]; subst.
    + reflexivity.
    + destruct word; reflexivity.
    + rewrite str_eqb_refl. simpl. rewrite andb_false_r. reflexivity.
  - intros Hw Ht Hf.
    assert (E : out = save_word_history io (set_word_history d' m)).
    { apply add_word_run; assumption. }
    destruct (save_sends_the_table io (set_word_history d' m)) as [S1 S2].
    simpl in S1, S2. rewrite <- E in S1, S2.
    split; [exact S1|]. split; [apply od_get_set|].
    split; [apply count_key_od_set; exact Hu|].
    split; [apply unique_keys_od_set; exact Hu|].
    split; [intros k N; apply od_get_set_other; exact N|].
    split; [exact S2|]. split.
    + intros ->. rewrite E, save_written. split; reflexivity.
    + intros Hl Hlf out2.
      assert (E2 : out2 = save_word_history io'
                (set_word_history (od_set word later (word_history (state_of out)))
                   (state_of out))).
      { apply add_word_run; assumption. }
      destruct (save_sends_the_table io'
                  (set_word_history (od_set word later (word_history (state_of out)))
                     (state_of out))) as [T1 _].
      simpl in T1. rewrite <- E2 in T1. rewrite T1, S1.
      split; [apply od_get_set|].
      apply count_key_od_set, unique_keys_od_set, Hu.
Qed.

(** "слово" added twice to an empty history, with a write that succeeds and
    one that fails. *)
Lemma add_word_to_history_overwrites_and_saves_witness :
  let m := {| word_translations := []; word_history := [];
              has_log_text := true; history_file := None |} in
  let out := @add_word_to_history sample_pickle written
               (utf8 "слово") (utf8 "word") m in
  let out2 := @add_word_to_history sample_pickle
                (write_failed (mk_exn OtherException (utf8 "disk full")) None)
                (utf8 "слово") (utf8 "translation2") (state_of out) in
  word_history (state_of out) = [(utf8 "слово", utf8 "word")] /\
  od_get (utf8 "слово") (word_history (state_of out2)) = Some (utf8 "translation2") /\
  count_key (utf8 "слово") (word_history (state_of out2)) = 1%nat.
Proof.
  intros m out out2.
  destruct (@add_word_to_history_overwrites_and_saves sample_pickle written
              (write_failed (mk_exn OtherException (utf8 "disk full")) None)
              m (utf8 "слово") (utf8 "word") (utf8 "translation2"))
    as [_ H].
  - constructor.
  - destruct H as (H1 & _ & _ & _ & _ & _ & _ & H2);
      try (vm_compute; discriminate).
    destruct H2 as [H2 H3]; try (vm_compute; discriminate).
    split; [exact H1|]. split; assumption.
Defined.

(** The sample serialization restores what it wrote. *)
Lemma Z_of_byte_of_Z (z : Z) : Z_of_byte (byte_of_Z z) = z mod 256.
Proof.
  unfold Z_of_byte, byte_of_Z.
  assert (B : 0 <= z mod 256 < 256) by (apply Z.mod_pos_bound; lia).
  destruct (Byte.of_N (Z.to_N (z mod 256))) as [b|] eqn:E.
  - apply Byte.to_of_N in E. rewrite E. apply Z2N.id. lia.
  - apply Byte.of_N_None_iff in E. lia.
Qed.

Lemma take3_put3 (z : Z) (r : bytes) :
  0 <= z < 2 ^ 24 -> take3 (put3 z ++ r) = Ret (z, r).
Proof.
  intros H. unfold put3, take3. cbn [app]. rewrite !Z_of_byte_of_Z.
  do 2 f_equal. apply Z.bits_inj'. intros n Hn.
  change 256 with (2 ^ 8).
  rewrite !Z.lor_spec, !Z.shiftl_spec by exact Hn.
  destruct (Z.lt_ge_cases n 8) as [L8|L8].
  - rewrite (Z.testbit_neg_r _ (n - 16)), (Z.testbit_neg_r _ (n - 8)) by lia.
    rewrite Z.mod_pow2_bits_low by lia. reflexivity.
  - rewrite (Z.mod_pow2_bits_high z 8 n) by lia. rewrite orb_false_r.
    destruct (Z.lt_ge_cases n 16) as [L16|L16].
    + rewrite (Z.testbit_neg_r _ (n - 16)) by lia.
      rewrite Z.mod_pow2_bits_low, Z.shiftr_spec by lia.
      cbn [orb]. f_equal. lia.
    + rewrite (Z.mod_pow2_bits_high _ 8 (n - 8)) by lia. rewrite orb_false_r.
      destruct (Z.lt_ge_cases n 24) as [L24|L24].
      * rewrite Z.mod_pow2_bits_low, Z.shiftr_spec by lia. f_equal. lia.
      * rewrite Z.mod_pow2_bits_high by lia.
        rewrite <- (Z.mod_small z (2 ^ 24)) by exact H.
        rewrite Z.mod_pow2_bits_high by lia. reflexivity.
Qed.

Lemma take_points_put (s : pystr) (r : bytes) :
  Forall code_point s ->
  take_points (length s) (flat_map put3 s ++ r) = Ret (s, r).
Proof.
  induction 1 as [|c s Hc _ IH]; [reflexivity|].
  cbn [length flat_map take_points]. rewrite <- app_assoc.
  rewrite take3_put3 by (unfold code_point in Hc; lia).
  rewrite IH. reflexivity.
Qed.

Lemma take_str_put_str (s : pystr) (r : bytes) :
  storable_str s -> take_str (put_str s ++ r) = Ret (s, r).
Proof.
  intros [Hc Hl]. unfold take_str, put_str. rewrite <- app_assoc.
  rewrite take3_put3 by lia. rewrite Nat2Z.id. apply take_points_put, Hc.
Qed.

Lemma take_items_put (d : table) :
  Forall (fun kv => storable_str (fst kv) /\ storable_str (snd kv)) d ->
  take_items (length d)
    (flat_map (fun kv => put_str (fst kv) ++ put_str (snd kv)) d) = Ret d.
Proof.
  induction 1 as [|[k v] d [Hk Hv] _ IH]; [reflexivity|].
  cbn [length flat_map take_items fst snd]. rewrite <- app_assoc.
  rewrite take_str_put_str by exact Hk.
  rewrite take_str_put_str by exact Hv.
  rewrite IH. reflexivity.
Qed.

(** The sample serialization restores every table it has room for. *)
Lemma sample_pickle_restores (d : table) :
  storable d -> @pickle_load sample_pickle (@pickle_dump sample_pickle d) = Ret d.
Proof.
  intros [Hd Hl]. cbn [pickle_load pickle_dump sample_pickle].
  rewrite take3_put3 by lia. rewrite Nat2Z.id. apply take_items_put, Hd.
Qed.

(** C8. After a [save_word_history] whose write succeeds the file holds the
    dump of the table, and a [load_word_history] that reads the file gives
    back the table that was saved, whatever table the window holds when it
    loads (the table just saved, another one, or the empty table of a window
    just built): the table comes from the file, which the load leaves as it
    is.  This holds for every table that [pickle] restores from its own
    dump, the empty one included. *)
Theorem save_then_load_restores_the_table {P : Pickle} (m : MainWindow)
    (memory : table) :
  pickle_load (pickle_dump (word_history m)) = Ret (word_history m) ->
  let saved := state_of (save_word_history written m) in
  let loaded := load_word_history (Ret tt) (set_word_history memory saved) in
  word_history saved = word_history m
  /\ history_file saved = Some (pickle_dump (word_history m))
  /\ result_of loaded = Ret tt
  /\ word_history (state_of loaded) = word_history m
  /\ history_file (state_of loaded) = Some (pickle_dump (word_history m))
  /\ sent_by loaded =
     [call_read_history;
      set_word_count_label (length (word_history m));
      log_message (msg_history_loaded (length (word_history m))) SUCCESS].
Proof.
  intros H saved loaded.
  assert (Es : saved = set_history_file (Some (pickle_dump (word_history m))) m).
  { unfold saved. rewrite save_written. reflexivity. }
  assert (El : loaded =
               (Ret tt, set_word_history (word_history m)
                          (set_word_history memory saved),
                [call_read_history;
                 set_word_count_label (length (word_history m));
                 log_message (msg_history_loaded (length (word_history m)))
                   SUCCESS])).
  { unfold loaded.
    apply (load_read (set_word_history memory saved)
             (pickle_dump (word_history m)) (word_history m)); [|exact H].
    rewrite Es. reflexivity. }
  rewrite El, result_of_triple, state_of_triple, sent_by_triple, Es.
  repeat split.
Qed.

(** A table of two words saved and loaded into a window just built, into a
    window that holds another table, and the empty table loaded over a table
    of two words, through the sample serialization. *)
Lemma save_then_load_restores_the_table_witness :
  let d := [(utf8 "слово", utf8 "word"); (utf8 "привет", utf8 "你好")] in
  let other := [(utf8 "старое", utf8 "old")] in
  let window d := {| word_translations := []; word_history := d;
                     has_log_text := true; history_file := None |} in
  let round d memory :=
    word_history
      (state_of
         (@load_word_history sample_pickle (Ret tt)
            (set_word_history memory
               (state_of (@save_word_history sample_pickle written
                            (window d)))))) in
  round d [] = d /\ round d other = d /\ round [] d = [].
Proof.
  intros d other window round. split; [|split].
  - destruct (@save_then_load_restores_the_table sample_pickle (window d) [])
      as (_ & _ & _ & H & _); [vm_compute; reflexivity|exact H].
  - destruct (@save_then_load_restores_the_table sample_pickle (window d) other)
      as (_ & _ & _ & H & _); [vm_compute; reflexivity|exact H].
  - destruct (@save_then_load_restores_the_table sample_pickle (window []) d)
      as (_ & _ & _ & H & _); [vm_compute; reflexivity|exact H].
Defined.

(* ------------------------------------------------------------------ *)
(** ** Playback *)

Section Playback.
Variable L : libs.

Lemma play_loop_cons (i : nat) (rest : list nat) (result : option (Z * pystr))
    (x : Z * pystr) (w : WorkerThread) :
  subprocess_run L i = Ret x ->
  play_loop L (i :: rest) result w =
  (result_of (play_loop L rest (Some x) w),
   state_of (play_loop L rest (Some x) w),
   log_signal (msg_play_start (Z.of_nat i + 1) (play_times w) (play_interval w)) INFO
   :: call_subprocess_run (player_of (sys_platform L))
   :: (if Z.of_nat i <? play_times w - 1 then [call_sleep (play_interval w)] else [])
   ++ sent_by (play_loop L rest (Some x) w)).
Proof.
  intros H. cbn [play_loop]. rewrite !bind_get, bind_emit.
  rewrite (bind_call_ret _ _ x) by exact H. rewrite bind_get.
  unfold bind, get, call, ret, result_of, state_of, sent_by.
  destruct (Z.of_nat i <? play_times w - 1);
    destruct (play_loop L rest (Some x) w) as [[r s] es]; reflexivity.
Qed.

(** The loop over [range(a, a + n)] when every run of the player
    completes: [result] ends as the last completed run, and the loop emits
    nothing of level error. *)
Lemma play_loop_run (codes : nat -> Z * pystr) (n a : nat)
    (result : option (Z * pystr)) (w : WorkerThread) :
  (forall i, (a <= i < a + n)%nat -> subprocess_run L i = Ret (codes i)) ->
  result_of (play_loop L (seq a n) result w) =
    Ret (match n with O => result | _ => Some (codes (a + n - 1)%nat) end)
  /\ state_of (play_loop L (seq a n) result w) = w
  /\ existsb is_error_log (sent_by (play_loop L (seq a n) result w)) = false.
Proof.
  revert a result. induction n as [|n IH]; intros a result H.
  - repeat split.
  - cbn [seq]. rewrite (play_loop_cons a (seq (S a) n) result (codes a) w)
      by (apply H; lia).
    destruct (IH (S a) (Some (codes a))) as (R & St & Q).
    { intros i Hi. apply H. lia. }
    rewrite result_of_triple, state_of_triple, sent_by_triple.
    split; [|split].
    + rewrite R. destruct n; [|f_equal; f_equal; f_equal; lia].
      f_equal. f_equal. f_equal. lia.
    + exact St.
    + cbn [existsb is_error_log]. rewrite existsb_app, Q.
      destruct (Z.of_nat a <? play_times w - 1); reflexivity.
Qed.

End Playback.

(** C10. With a repeat count of at least 1 and a player that completes at
    every repetition, [play_audio] reports success exactly when the last
    repetition exits with status 0: its first result is that test, its second
    the [stderr] of the last repetition when it failed, and a notification of
    level error is emitted only then.  The exit statuses of the earlier
    repetitions have no part in it. *)
Theorem play_audio_reports_last_exit_status (L : libs) (w : WorkerThread)
    (codes : nat -> Z * pystr) :
  1 <= play_times w ->
  (forall i, (i < Z.to_nat (play_times w))%nat -> subprocess_run L i = Ret (codes i)) ->
  let last := codes (Z.to_nat (play_times w) - 1)%nat in
  result_of (play_audio L w) =
    Ret (fst last =? 0, if fst last =? 0 then None else Some (snd last))
  /\ (fst (match result_of (play_audio L w) with
           | Ret r => r | Raise _ => (false, None) end) = true
      <-> fst last = 0)
  /\ state_of (play_audio L w) = w
  /\ existsb is_error_log (sent_by (play_audio L w)) = negb (fst last =? 0).
Proof.
  intros Hn Hc last.
  destruct (play_loop_run L codes (Z.to_nat (play_times w)) 0 None w)
    as (R & St & Q).
  { intros i Hi. apply Hc. lia. }
  assert (E : play_audio L w =
    (Ret (fst last =? 0, if fst last =? 0 then None else Some (snd last)), w,
     sent_by (play_loop L (seq 0 (Z.to_nat (play_times w))) None w) ++
     [if fst last =? 0
      then log_signal (msg_play_done (play_times w) (play_interval w)) INFO
      else log_signal (msg_play_failed (snd last)) ERROR])).
  { unfold play_audio, try_except. rewrite bind_get.
    unfold bind at 1.
    destruct (play_loop L (seq 0 (Z.to_nat (play_times w))) None w)
      as [[r s] es].
    rewrite result_of_triple in R. rewrite state_of_triple in St. subst r s.
    destruct (Z.to_nat (play_times w)) as [|n] eqn:En; [lia|].
    unfold last. cbn [Nat.add]. destruct (codes (S n - 1)%nat) as [c err].
    rewrite bind_get, sent_by_triple. simpl fst. simpl snd.
    destruct (c =? 0); unfold bind, emit, ret; reflexivity. }
  rewrite E, result_of_triple, state_of_triple, sent_by_triple. simpl fst.
  split; [reflexivity|]. split; [apply Z.eqb_eq|]. split; [reflexivity|].
  rewrite existsb_app, Q.
  destruct (fst last =? 0); reflexivity.
Qed.

(** Three repetitions of which the first two exit with status 1 and the
    last with status 0: success is reported and nothing of level error is
    emitted. *)
Lemma play_audio_reports_last_exit_status_witness :
  let L := sample_libs mark_stress to_chinese
             (fun i => if (i <? 2)%nat then 1 else 0) in
  result_of (play_audio L (worker_of L)) = Ret (true, None) /\
  existsb is_error_log (sent_by (play_audio L (worker_of L))) = false.
Proof.
  intros L.
  destruct (play_audio_reports_last_exit_status L (worker_of L)
              (fun i => (if (i <? 2)%nat then 1 else 0, [])))
    as (H1 & _ & _ & H2).
  - vm_compute. discriminate.
  - intros i _. reflexivity.
  - split; [exact H1|exact H2].
Defined.

(* ------------------------------------------------------------------ *)
(** ** The audio stage and its fallback *)

Section Audio.
Variable L : libs.

(** The enhanced path assigns nothing and emits no notification; it raises
    when one of synthesis, loading, gain and normalization does, before
    anything is exported to the final path. *)
Lemma enhanced_audio_cases (t : pystr) (w : WorkerThread) :
  state_of (enhanced_audio L t w) = w
  /\ existsb is_error_log (sent_by (enhanced_audio L t w)) = false
  /\ (returns (gTTS_save L t temp_path) && returns (from_file L temp_path)
      && returns (add_gain L (audio_gain_db w)) && returns (normalize L) = false ->
      returns (result_of (enhanced_audio L t w)) = false /\
      ~ In (call_export AUDIO_FILE_PATH) (sent_by (enhanced_audio L t w)))
  /\ (ordinary_libs L -> ordinary (result_of (enhanced_audio L t w))).
Proof.
  assert (O : ordinary_libs L ->
    ordinary (gTTS_save L t temp_path) /\ ordinary (from_file L temp_path) /\
    ordinary (add_gain L (audio_gain_db w)) /\ ordinary (normalize L) /\
    ordinary (export L AUDIO_FILE_PATH) /\ ordinary (remove L temp_path)).
  { intros (H1 & H2 & H3 & H4 & H5 & H6 & _). repeat split; auto. }
  unfold enhanced_audio, bind, call, get, ret, result_of, state_of, sent_by.
  destruct (gTTS_save L t temp_path), (from_file L temp_path),
    (add_gain L (audio_gain_db w)), (normalize L),
    (export L AUDIO_FILE_PATH), (path_exists L temp_path),
    (remove L temp_path); simpl;
    (split; [reflexivity|]); (split; [reflexivity|]);
    (split;
      [intros X;
       first [discriminate X
             |split; [reflexivity|];
              intros I; repeat destruct I as [I|I]; try discriminate I; exact I]
      |intros X; destruct (O X) as (O1 & O2 & O3 & O4 & O5 & O6);
       simpl in *; auto]).
Qed.

(** [text_to_speech_russian] once the enrichment has returned. *)
Lemma text_to_speech_russian_run (text : pystr) (w : WorkerThread)
    (tws : pystr) (sa : bool) (w1 : WorkerThread) (es1 : list event) :
  enrich text w = (Ret (tws, sa), w1, es1) ->
  text_to_speech_russian L text w =
  match result_of (enhanced_audio L tws w1) with
  | Ret _ => (Ret (true, sa), w1, es1 ++ sent_by (enhanced_audio L tws w1))
  | Raise e =>
      if is_Exception e then
        (Ret (returns (gTTS_save L text AUDIO_FILE_PATH), false), w1,
         es1 ++ sent_by (enhanced_audio L tws w1) ++
         [log_signal (msg_audio_fallback e) WARNING;
          call_gTTS_save text AUDIO_FILE_PATH] ++
         (if returns (gTTS_save L text AUDIO_FILE_PATH) then []
          else [log_signal (msg_synthesis_failed e) ERROR]))
      else (Raise e, w1, es1 ++ sent_by (enhanced_audio L tws w1))
  end.
Proof.
  intros E. destruct (enhanced_audio_cases tws w1) as (S1 & _).
  assert (EK : (enhanced_audio L tws ;; ret (true, sa)) w1 =
    match result_of (enhanced_audio L tws w1) with
    | Ret _ => (Ret (true, sa), w1, sent_by (enhanced_audio L tws w1))
    | Raise e => (Raise e, w1, sent_by (enhanced_audio L tws w1))
    end).
  { unfold bind, ret.
    destruct (enhanced_audio L tws w1) as [[[[]|e] s2] es2];
      rewrite state_of_triple in S1; subst s2;
      rewrite result_of_triple, sent_by_triple, ?app_nil_r; reflexivity. }
  unfold text_to_speech_russian, try_except.
  rewrite (bind_returns _ _ _ _ _ _ E). cbv beta iota. rewrite EK.
  destruct (result_of (enhanced_audio L tws w1)) as [[]|e];
    rewrite result_of_triple, state_of_triple, sent_by_triple; [reflexivity|].
  destruct (is_Exception e); [|reflexivity].
  unfold fallback_audio, try_except_all, bind, emit, call, ret.
  destruct (gTTS_save L text AUDIO_FILE_PATH) as [[]|e2]; simpl;
    rewrite <- ?app_assoc; reflexivity.
Qed.

End Audio.

(** C6. Once the enrichment has given the text to speak: when synthesis to
    the temporary file, loading, gain or normalization fails, the enhanced
    path ends there, nothing of it reaching the final path, and speech is
    synthesized again from the original text straight to the final path;
    success is reported when the enhanced path or this second synthesis
    succeeds, and failure, with the only notification of level error of the
    audio stage, exactly when both fail. *)
Theorem audio_falls_back_to_plain_synthesis (L : libs)
    (text : pystr) (w : WorkerThread) (tws : pystr) (sa : bool)
    (w1 : WorkerThread) (es1 : list event) :
  ordinary_libs L ->
  enrich text w = (Ret (tws, sa), w1, es1) ->
  let first := enhanced_audio L tws w1 in
  let second := gTTS_save L text AUDIO_FILE_PATH in
  let out := text_to_speech_russian L text w in
  (returns (gTTS_save L tws temp_path) && returns (from_file L temp_path)
   && returns (add_gain L (audio_gain_db w1)) && returns (normalize L) = false ->
   returns (result_of first) = false /\
   ~ In (call_export AUDIO_FILE_PATH) (sent_by first))
  /\ (forall e, result_of first = Raise e ->
      sent_by out =
        es1 ++ sent_by first ++
        [log_signal (msg_audio_fallback e) WARNING;
         call_gTTS_save text AUDIO_FILE_PATH] ++
        (if returns second then []
         else [log_signal (msg_synthesis_failed e) ERROR]))
  /\ (returns (result_of first) = true -> sent_by out = es1 ++ sent_by first)
  /\ result_of out =
       Ret (returns (result_of first) || returns second,
            returns (result_of first) && sa)
  /\ (exists audio,
        sent_by out = es1 ++ audio /\
        existsb is_error_log audio =
          negb (returns (result_of first) || returns second)).
Proof.
  intros HL E first second out.
  destruct (enhanced_audio_cases L tws w1) as (_ & Q & F & O).
  specialize (O HL). fold first in Q, F, O.
  split; [exact F|].
  unfold out. rewrite (text_to_speech_russian_run L text w tws sa w1 es1 E).
  fold first. fold second.
  destruct (result_of first) as [[]|e].
  - rewrite result_of_triple, sent_by_triple.
    split; [intros e0 X; discriminate X|]. split; [reflexivity|].
    split; [reflexivity|]. exists (sent_by first). split; [reflexivity|exact Q].
  - simpl in O. rewrite O. rewrite result_of_triple, sent_by_triple.
    split; [intros e0 X; injection X as <-; reflexivity|].
    split; [intros X; discriminate X|]. split; [reflexivity|].
    eexists. split; [reflexivity|].
    rewrite !existsb_app, Q.
    destruct (returns second); reflexivity.
Qed.

(** "Привет" with a decoder that cannot load the temporary file: speech is
    synthesized again from the unmarked text and success is reported; when
    that synthesis fails too, failure is. *)
Lemma audio_falls_back_to_plain_synthesis_witness :
  let down := Raise (mk_exn OtherException (utf8 "gTTSError")) in
  let run L := text_to_speech_russian L (utf8 "Привет")
                 (worker_of L) in
  result_of (run (no_decoder_libs (Ret tt))) = Ret (true, false) /\
  result_of (run (no_decoder_libs down)) = Ret (false, false).
Proof.
  intros down run. split.
  - destruct (audio_falls_back_to_plain_synthesis
                (no_decoder_libs (Ret tt)) (utf8 "Привет")
                (worker_of (no_decoder_libs (Ret tt)))
                (utf8 "Привет" ++ [0x301]) true
                (state_of (enrich (utf8 "Привет")
                             (worker_of (no_decoder_libs (Ret tt)))))
                (sent_by (enrich (utf8 "Привет")
                            (worker_of (no_decoder_libs (Ret tt))))))
      as (_ & _ & _ & H & _).
    + repeat split; intros; try destruct p; first [exact I|reflexivity].
    + vm_compute. reflexivity.
    + exact H.
  - destruct (audio_falls_back_to_plain_synthesis
                (no_decoder_libs down) (utf8 "Привет")
                (worker_of (no_decoder_libs down))
                (utf8 "Привет" ++ [0x301]) true
                (state_of (enrich (utf8 "Привет")
                             (worker_of (no_decoder_libs down))))
                (sent_by (enrich (utf8 "Привет")
                            (worker_of (no_decoder_libs down)))))
      as (_ & _ & _ & H & _).
    + repeat split; intros; try destruct p; first [exact I|reflexivity].
    + vm_compute. reflexivity.
    + exact H.
Defined.

(* ------------------------------------------------------------------ *)
(** ** The enrichment *)


Section Enrichment.






Lemma triple_of_parts {S E A} (x : res A * S * list E) r s :
  result_of x = r -> state_of x = s -> x = (r, s, sent_by x).
Proof.
  destruct x as [[r0 s0] es]. unfold result_of, state_of, sent_by. simpl.
  intros; subst; reflexivity.
Qed.

End Enrichment.

Section PerWord.




End PerWord.





(* ================================================================== *)
(** * Further properties of the code *)

(** What a sequence of two steps returned, read backwards. *)
Lemma bind_result_inv {S E A B} (m : M S E A) (f : A -> M S E B) s b :
  result_of (bind m f s) = Ret b ->
  exists a s1 es, m s = (Ret a, s1, es) /\ result_of (f a s1) = Ret b.
Proof.
  unfold bind. destruct (m s) as [[[a|e] s1] es]; [|discriminate].
  intros H. exists a, s1, es. split; [reflexivity|].
  destruct (f a s1) as [[r s2] es2]. exact H.
Qed.

(* ------------------------------------------------------------------ *)
(** ** The detector, further *)

Section DetectorFurther.
Context {U : CharClasses}.

Lemma is_russian_text_by_filters (a b : pystr) :
  filter is_cyrillic a = filter is_cyrillic b ->
  filter is_letter_like a = filter is_letter_like b ->
  is_russian_text a = is_russian_text b.
Proof.
  intros Hc Hl. destruct (filter is_letter_like a) as [|x l] eqn:E.
  - rewrite (is_russian_text_no_letters a E).
    symmetry. apply is_russian_text_no_letters. congruence.
  - rewrite (is_russian_text_letters a) by congruence.
    rewrite (is_russian_text_letters b) by congruence.
    unfold cyrillic_ratio. rewrite Hc, E, Hl. reflexivity.
Qed.

End DetectorFurther.

(** X1. A character that is neither Cyrillic nor letter-like (a digit, a
    blank, a punctuation sign) put anywhere in a text does not change what
    the detector answers. *)
Theorem is_russian_text_ignores_other_characters {U : CharClasses}
    (a b : pystr) (c : Z) :
  is_cyrillic c = false -> is_letter_like c = false ->
  is_russian_text (a ++ c :: b) = is_russian_text (a ++ b).
Proof.
  intros Hc Hl. apply is_russian_text_by_filters;
    rewrite !filter_app; simpl; rewrite ?Hc, ?Hl; reflexivity.
Qed.

Lemma is_russian_text_ignores_other_characters_witness :
  @is_russian_text sample_classes (utf8 "Привет" ++ 33 :: utf8 "ok") =
  @is_russian_text sample_classes (utf8 "Привет" ++ utf8 "ok").
Proof.
  apply (@is_russian_text_ignores_other_characters sample_classes);
    reflexivity.
Defined.

(** X2. A text that is not empty and whose characters are all Cyrillic and
    letter-like is taken as Russian. *)
Theorem is_russian_text_of_cyrillic_letters {U : CharClasses} (text : pystr) :
  text <> [] ->
  forallb (fun c => is_cyrillic c && is_letter_like c) text = true ->
  is_russian_text text = Ret true.
Proof.
  intros Hn Ha.
  assert (Fc : filter is_cyrillic text = text).
  { apply forallb_filter_id. rewrite forallb_forall in *. intros x Hx.
    specialize (Ha x Hx). apply andb_true_iff in Ha. tauto. }
  assert (Fl : filter is_letter_like text = text).
  { apply forallb_filter_id. rewrite forallb_forall in *. intros x Hx.
    specialize (Ha x Hx). apply andb_true_iff in Ha. tauto. }
  rewrite is_russian_text_letters by congruence. f_equal.
  apply Qgt_bool_iff. unfold cyrillic_ratio. rewrite Fc, Fl.
  destruct text as [|x t]; [congruence|].
  assert (P : (0 < inject_Z (Z.of_nat (length (x :: t))))%Q).
  { change 0%Q with (inject_Z 0). rewrite <- Zlt_Qlt. simpl length. lia. }
  apply Qlt_shift_div_l; [exact P|]. lra.
Qed.

Lemma is_russian_text_of_cyrillic_letters_witness :
  @is_russian_text sample_classes (utf8 "Привет") = Ret true.
Proof.
  apply (@is_russian_text_of_cyrillic_letters sample_classes).
  - discriminate.
  - reflexivity.
Defined.

(* ------------------------------------------------------------------ *)
(** ** The stages of the enrichment, further *)

(** X3. When the translation is on and a translator is there,
    [translate_russian] calls it once, on the text itself when it has at
    most 5000 characters and otherwise on its first 5000 characters
    followed by "...": never on more than 5003 characters. *)
Theorem translate_russian_sends_a_bounded_text (text : pystr)
    (w : WorkerThread) (translate : provider) :
  translation_enabled w = true -> translator w = Some translate ->
  exists sent rest,
    sent_by (translate_russian text w) = call_translate sent :: rest
    /\ filter is_translate_call rest = []
    /\ Z.of_nat (length sent) <= 5003
    /\ (Z.of_nat (length text) <= 5000 -> sent = text)
    /\ (5000 < Z.of_nat (length text) ->
        sent = prefix 5000 text ++ utf8 "...").
Proof.
  intros He Ht. unfold translate_russian. rewrite !bind_get, He, Ht.
  unfold usable, try_except, bind, call, emit, ret.
  assert (B : Z.of_nat (length (prefix 5000 text ++ utf8 "...")) <= 5003).
  { rewrite length_app, Nat2Z.inj_add.
    change (Z.of_nat (length (utf8 "..."))) with 3.
    pose proof (firstn_le_length 5000 text) as F. apply Nat2Z.inj_le in F.
    change (Z.of_nat 5000) with 5000 in F. unfold prefix. lia. }
  destruct (5000 <? Z.of_nat (length text)) eqn:C.
  - apply Z.ltb_lt in C.
    exists (prefix 5000 text ++ utf8 "...").
    destruct (translate (prefix 5000 text ++ utf8 "...")) as [t|e];
      [|destruct (is_Exception e)]; eexists; (split; [reflexivity|]);
      (split; [reflexivity|]); (split; [exact B|]);
      (split; [lia|reflexivity]).
  - apply Z.ltb_ge in C. exists text.
    destruct (translate text) as [t|e];
      [|destruct (is_Exception e)]; eexists; (split; [reflexivity|]);
      (split; [reflexivity|]); (split; [lia|]);
      (split; [reflexivity|lia]).
Qed.

(** A text of 6000 characters goes out as 5003. *)
Lemma translate_russian_sends_a_bounded_text_witness :
  exists sent rest,
    sent_by (translate_russian (repeat 0x430 6000) (worker_of working_libs))
      = call_translate sent :: rest /\
    Z.of_nat (length sent) = 5003.
Proof.
  destruct (translate_russian_sends_a_bounded_text (repeat 0x430 6000)
              (worker_of working_libs) to_chinese eq_refl eq_refl)
    as (sent & rest & E & _ & _ & _ & H).
  exists sent, rest. split; [exact E|].
  rewrite H; vm_compute; reflexivity.
Defined.

Lemma add_stress_marks_inv text w s b w1 es :
  add_stress_marks text w = (Ret (s, b), w1, es) ->
  if b
  then stress_mark_enabled w = true /\
       exists annotate, normalizer w = Some annotate /\ annotate text = Ret s
  else s = text.
Proof.
  unfold add_stress_marks. rewrite !bind_get.
  unfold usable, try_except, bind, call, emit, ret.
  destruct (stress_mark_enabled w); [|intros H; injection H as <- <- _ _; reflexivity].
  destruct (normalizer w) as [f|]; [|intros H; injection H as <- <- _ _; reflexivity].
  destruct (f text) as [t|e] eqn:E.
  - intros H; injection H as <- <- _ _. split; [reflexivity|].
    exists f. split; [reflexivity|exact E].
  - destruct (is_Exception e); [|discriminate].
    intros H; injection H as <- <- _ _. reflexivity.
Qed.

Lemma enrich_result_inv text w tws sa :
  result_of (enrich text w) = Ret (tws, sa) ->
  exists w1 es, add_stress_marks text w = (Ret (tws, sa), w1, es).
Proof.
  unfold enrich. intros H.
  apply bind_result_inv in H. destruct H as ([t0 s0] & w1 & es & E & H).
  exists w1, es. rewrite E.
  apply bind_result_inv in H. destruct H as ([t1 s1] & w2 & es2 & _ & H).
  apply bind_result_inv in H. destruct H as ([[t2 s2] wa] & w3 & es3 & _ & H).
  apply bind_result_inv in H. destruct H as (_ & w4 & es4 & _ & H).
  apply bind_result_inv in H. destruct H as (_ & w5 & es5 & _ & H).
  apply bind_result_inv in H. destruct H as (tool & w6 & es6 & _ & H).
  apply bind_result_inv in H. destruct H as (tw & w7 & es7 & _ & H).
  apply bind_result_inv in H. destruct H as (_ & w8 & es8 & _ & H).
  unfold ret in H. rewrite result_of_triple in H. injection H as <- <-.
  reflexivity.
Qed.

(** X4. The text that the enrichment hands to the speech synthesis is the
    output of the stress annotator on the text when it reports the stress as
    added, and the text itself, unchanged, when it does not (annotation off,
    no annotator, or an annotator that failed). *)
Theorem enrich_hands_over_marked_or_original_text (text : pystr)
    (w : WorkerThread) (text_with_stress : pystr) (stress_added : bool) :
  result_of (enrich text w) = Ret (text_with_stress, stress_added) ->
  if stress_added
  then stress_mark_enabled w = true /\
       exists annotate,
         normalizer w = Some annotate /\ annotate text = Ret text_with_stress
  else text_with_stress = text.
Proof.
  intros H. destruct (enrich_result_inv text w _ _ H) as (w1 & es & E).
  exact (add_stress_marks_inv text w _ _ w1 es E).
Qed.

(** With an annotator that is interrupted by an error of class
    [Exception], "Привет" is handed over as it is. *)
Lemma enrich_hands_over_marked_or_original_text_witness :
  let L := sample_libs translator_down to_chinese (fun _ => 0) in
  fst (match result_of (enrich (utf8 "Привет") (worker_of L)) with
       | Ret r => r | Raise _ => ([], true) end) = utf8 "Привет".
Proof.
  intros L.
  pose proof (enrich_hands_over_marked_or_original_text (utf8 "Привет")
                (worker_of L) (utf8 "Привет") false) as H.
  simpl in H. rewrite <- H at 2; [|vm_compute; reflexivity].
  vm_compute. reflexivity.
Defined.

(* ------------------------------------------------------------------ *)
(** ** The morphological analysis, further *)

Section Words.
Variable p : Z -> bool.

Lemma findall_runs_nothing (cur s : pystr) :
  forallb (fun c => negb (p c)) s = true ->
  findall_runs p cur s = match cur with [] => [] | _ => [cur] end.
Proof.
  revert cur. induction s as [|c r IH]; intros cur H; simpl; [reflexivity|].
  simpl in H. apply andb_true_iff in H. destruct H as [Hc Hr].
  apply negb_true_iff in Hc. rewrite Hc.
  destruct cur; rewrite (IH [] Hr); reflexivity.
Qed.

(** The runs are the characters of the class, in order, cut wherever
    another character stands between them; none is empty. *)
Lemma findall_runs_words (cur s : pystr) :
  forallb p cur = true ->
  concat (findall_runs p cur s) = cur ++ filter p s /\
  Forall (fun word => word <> [] /\ forallb p word = true)
    (findall_runs p cur s).
Proof.
  revert cur. induction s as [|c r IH]; intros cur Hcur; simpl.
  - destruct cur; simpl.
    + split; [reflexivity|constructor].
    + rewrite !app_nil_r. split; [reflexivity|].
      constructor; [split; [discriminate|exact Hcur]|constructor].
  - destruct (p c) eqn:Hc.
    + destruct (IH (cur ++ [c])) as [I1 I2].
      { rewrite forallb_app, Hcur. simpl. rewrite Hc. reflexivity. }
      rewrite I1, <- app_assoc. split; [reflexivity|exact I2].
    + destruct (IH [] eq_refl) as [I1 I2]. destruct cur as [|x cur].
      * split; [exact I1|exact I2].
      * simpl concat. rewrite I1. split; [reflexivity|].
        constructor; [split; [discriminate|exact Hcur]|exact I2].
Qed.

End Words.

Lemma analyse_words_inv parse words lines infos w l i s es :
  analyse_words parse words lines infos w = (Ret (l, i), s, es) ->
  exists new,
    i = infos ++ new /\ map original new = words /\
    l = lines ++ map report_line new.
Proof.
  revert lines infos es. induction words as [|word rest IH];
    intros lines infos es; simpl.
  - unfold ret. intros H. injection H as <- <- _ _.
    exists []. rewrite !app_nil_r. repeat split.
  - unfold bind at 1, call. destruct (parse word) as [pr|e]; [|discriminate].
    unfold bind at 1, lift.
    destruct (tag_to_cn (parsed_grammemes pr)) as [t|e]; [|discriminate].
    destruct (analyse_words parse rest _ _ w) as [[r s2] es2] eqn:E.
    intros H. injection H as -> <- _.
    destruct (IH _ _ _ E) as (new & N1 & N2 & N3).
    exists ({| original := word; normal_form := parsed_normal_form pr;
               tag_cn := t |} :: new).
    rewrite N1, N3, <- !app_assoc. simpl. rewrite N2. repeat split.
Qed.

(** The ways [morphological_analysis] returns. *)
Lemma morphological_analysis_cases text w report ok wa :
  result_of (morphological_analysis text w) = Ret (report, ok, wa) ->
  (ok = false /\ wa = []) \/
  (ok = true /\ findall_runs is_russian_letter [] text <> [] /\
   map original wa = findall_runs is_russian_letter [] text /\
   report = join newline (map report_line wa)).
Proof.
  unfold morphological_analysis. rewrite !bind_get.
  destruct (usable (morphology_enabled w) (morph_analyzer w)) as [parse|].
  2:{ unfold ret. rewrite result_of_triple. intros H.
      injection H as <- <- <-. left. split; reflexivity. }
  unfold try_except.
  destruct (findall_runs is_russian_letter [] text) as [|word rest] eqn:F.
  { unfold ret. rewrite result_of_triple. intros H.
    injection H as <- <- <-. left. split; reflexivity. }
  unfold bind at 1.
  destruct (analyse_words parse (word :: rest) [] [] w) as [[[[l i]|e] s] es] eqn:E.
  - unfold ret. rewrite result_of_triple. intros H. injection H as <- <- <-.
    destruct (analyse_words_inv _ _ _ _ _ _ _ _ _ E) as (new & N1 & N2 & N3).
    simpl in N1, N3. subst. right. repeat split; [discriminate|exact N2].
  - destruct (is_Exception e); [|rewrite result_of_triple; discriminate].
    unfold bind, emit, ret. rewrite result_of_triple. intros H.
    injection H as <- <- <-. left. split; reflexivity.
Qed.

(** X5. On a text without any Russian letter the analysis, when it is on
    and has an analyzer, answers "未找到俄语单词" with the success flag off
    and no word, without a single call of the analyzer. *)
Theorem morphological_analysis_without_words (text : pystr)
    (w : WorkerThread) (parse : analyzer) :
  morphology_enabled w = true -> morph_analyzer w = Some parse ->
  forallb (fun c => negb (is_russian_letter c)) text = true ->
  morphological_analysis text w = (Ret (utf8 "未找到俄语单词", false, []), w, []).
Proof.
  intros He Ha Hn. unfold morphological_analysis. rewrite !bind_get, He, Ha.
  unfold usable, try_except.
  rewrite (findall_runs_nothing is_russian_letter [] text Hn). reflexivity.
Qed.

Lemma morphological_analysis_without_words_witness :
  morphological_analysis (utf8 "123 456 abc") (worker_of working_libs)
  = (Ret (utf8 "未找到俄语单词", false, []), worker_of working_libs, []).
Proof.
  apply (morphological_analysis_without_words (utf8 "123 456 abc")
           (worker_of working_libs) noun_analyzer); reflexivity.
Defined.

(** X6. When the analysis reports success, its words are the maximal runs of
    Russian letters of the text, one entry per run and in the order of the
    text: together they are exactly the Russian letters of the text, none is
    empty, and the report has one line per word. *)
Theorem morphological_analysis_covers_the_russian_letters (text : pystr)
    (w : WorkerThread) (report : pystr) (wa : list word_info) :
  result_of (morphological_analysis text w) = Ret (report, true, wa) ->
  map original wa = findall_runs is_russian_letter [] text
  /\ concat (map original wa) = filter is_russian_letter text
  /\ Forall (fun i => original i <> [] /\
                      forallb is_russian_letter (original i) = true) wa
  /\ report = join newline (map report_line wa).
Proof.
  intros H. destruct (morphological_analysis_cases _ _ _ _ _ H)
    as [[X _]|(_ & _ & M & R)]; [discriminate X|].
  destruct (findall_runs_words is_russian_letter [] text eq_refl) as [C F].
  split; [exact M|]. split; [rewrite M; exact C|]. split; [|exact R].
  rewrite <- M in F. apply Forall_map in F. exact F.
Qed.

Lemma morphological_analysis_covers_the_russian_letters_witness :
  exists report wa,
    result_of (morphological_analysis (utf8 "Привет, мир!")
                 (worker_of working_libs)) = Ret (report, true, wa) /\
    map original wa = [utf8 "Привет"; utf8 "мир"].
Proof.
  eexists _, _. split; [vm_compute; reflexivity|].
  match goal with
  | |- map original ?wa = _ =>
      destruct (morphological_analysis_covers_the_russian_letters
                  (utf8 "Привет, мир!") (worker_of working_libs)
                  (utf8 "Привет(名词，阳性) →【原形】 Привет" ++ newline ++
                   utf8 "мир(名词，阳性) →【原形】 мир") wa) as (H & _)
  end.
  - vm_compute. reflexivity.
  - rewrite H. vm_compute. reflexivity.
Defined.

(** X7. The analysis returns words exactly when it reports success: with
    the flag off (analysis disabled, no analyzer, no Russian word, or an
    analyzer that failed on any one word) the list is empty, nothing of a
    partial analysis is kept, and with the flag on it is not. *)
Theorem morphological_analysis_all_or_nothing (text : pystr)
    (w : WorkerThread) (report : pystr) (ok : bool) (wa : list word_info) :
  result_of (morphological_analysis text w) = Ret (report, ok, wa) ->
  (ok = false -> wa = []) /\ (ok = true -> wa <> []).
Proof.
  intros H. destruct (morphological_analysis_cases _ _ _ _ _ H)
    as [[X Y]|(X & N & M & _)]; subst.
  - split; [reflexivity|discriminate].
  - split; [discriminate|]. intros _ E. subst wa. apply N. symmetry. exact M.
Qed.

(** An analyzer that fails on the second word: the first word is dropped
    with it. *)
Lemma morphological_analysis_all_or_nothing_witness :
  let failing : analyzer :=
    fun word => if str_eqb word (utf8 "мир")
                then Raise (mk_exn OtherException (utf8 "KeyError"))
                else noun_analyzer word in
  let w := set_morph_analyzer (Some failing) (worker_of working_libs) in
  snd (match result_of (morphological_analysis (utf8 "Привет мир") w) with
       | Ret r => r | Raise _ => ([], true, []) end) = [].
Proof.
  intros failing w.
  destruct (morphological_analysis_all_or_nothing (utf8 "Привет мир") w
              (utf8 "形态学分析失败: KeyError") false
              (snd (match result_of (morphological_analysis
                                       (utf8 "Привет мир") w) with
                    | Ret r => r | Raise _ => ([], true, []) end)))
    as [H _].
  - vm_compute. reflexivity.
  - apply H. reflexivity.
Defined.

(* ------------------------------------------------------------------ *)
(** ** Playback, further *)

Section PlaybackFurther.
Variable L : libs.

Lemma play_loop_cons_raise (i : nat) (rest : list nat)
    (result : option (Z * pystr)) (e : exn) (w : WorkerThread) :
  subprocess_run L i = Raise e ->
  play_loop L (i :: rest) result w =
  (Raise e, w,
   [log_signal (msg_play_start (Z.of_nat i + 1) (play_times w) (play_interval w)) INFO;
    call_subprocess_run (player_of (sys_platform L))]).
Proof.
  intros H. cbn [play_loop]. rewrite !bind_get, bind_emit.
  unfold bind, call. rewrite H. reflexivity.
Qed.


(** The repetitions from [a] on, when the player cannot be run at
    repetition [k]: the loop ends there. *)
Lemma play_loop_stops (codes : nat -> Z * pystr) (e : exn) (n a k : nat)
    (result : option (Z * pystr)) (w : WorkerThread) :
  (forall i, (a <= i < k)%nat -> subprocess_run L i = Ret (codes i)) ->
  subprocess_run L k = Raise e ->
  (a <= k < a + n)%nat ->
  result_of (play_loop L (seq a n) result w) = Raise e
  /\ state_of (play_loop L (seq a n) result w) = w
  /\ length (filter is_player_call (sent_by (play_loop L (seq a n) result w)))
     = (k - a + 1)%nat.
Proof.
  revert a result. induction n as [|n IH]; intros a result H He Hk; [lia|].
  cbn [seq]. destruct (Nat.eq_dec a k) as [->|N].
  - rewrite (play_loop_cons_raise k _ result e w He).
    rewrite result_of_triple, state_of_triple, sent_by_triple.
    repeat split. simpl. lia.
  - rewrite (play_loop_cons L a (seq (S a) n) result (codes a) w)
      by (apply H; lia).
    destruct (IH (S a) (Some (codes a))) as (R & St & C).
    { intros i Hi. apply H. lia. }
    { exact He. }
    { lia. }
    rewrite result_of_triple, state_of_triple, sent_by_triple.
    split; [exact R|]. split; [exact St|].
    cbn [filter is_player_call length]. rewrite filter_app, length_app, C.
    destruct (Z.of_nat a <? play_times w - 1); simpl; lia.
Qed.


End PlaybackFurther.

(** X8. With a repeat count of 0 or less [play_audio] never runs the
    player: the loop body is skipped, the unbound [result] is caught by the
    handler, and failure is reported with a notification of level error. *)
Theorem play_audio_without_repetitions (L : libs) (w : WorkerThread) :
  play_times w <= 0 ->
  exists e,
    play_audio L w =
    (Ret (false, Some (exn_text e)), w, [log_signal (msg_play_error e) ERROR]).
Proof.
  intros H. unfold play_audio, try_except. rewrite bind_get.
  assert (Z0 : Z.to_nat (play_times w) = 0%nat) by lia.
  rewrite Z0.
  exists (mk_exn UnboundLocalError (utf8 "cannot access local variable 'result'")).
  reflexivity.
Qed.

Lemma play_audio_without_repetitions_witness :
  let w := state_of (set_parameters working_libs 0 (3 # 10) (1 # 2) 1 0
                       true true true (worker_of working_libs)) in
  exists message,
    result_of (play_audio working_libs w) = Ret (false, Some message) /\
    filter is_player_call (sent_by (play_audio working_libs w)) = [].
Proof.
  intros w.
  destruct (play_audio_without_repetitions working_libs w) as [e H].
  - vm_compute. discriminate.
  - exists (exn_text e). rewrite H. split; reflexivity.
Defined.

(** X9. When the player cannot be started at some repetition (the call of
    [subprocess.run] raises, say because the program is not installed),
    [play_audio] stops there: no further repetition is tried, failure is
    reported with the text of the exception, and a notification of level
    error is emitted. *)
Theorem play_audio_stops_at_a_failed_launch (L : libs) (w : WorkerThread)
    (codes : nat -> Z * pystr) (e : exn) (k : nat) :
  (forall i, (i < k)%nat -> subprocess_run L i = Ret (codes i)) ->
  subprocess_run L k = Raise e ->
  is_Exception e = true ->
  (k < Z.to_nat (play_times w))%nat ->
  result_of (play_audio L w) = Ret (false, Some (exn_text e))
  /\ state_of (play_audio L w) = w
  /\ length (filter is_player_call (sent_by (play_audio L w))) = (k + 1)%nat
  /\ existsb is_error_log (sent_by (play_audio L w)) = true.
Proof.
  intros Hc He Ho Hk.
  destruct (play_loop_stops L codes e (Z.to_nat (play_times w)) 0 k None w)
    as (R & St & C).
  { intros i Hi. apply Hc. lia. }
  { exact He. }
  { lia. }
  assert (E : play_audio L w =
    (Ret (false, Some (exn_text e)), w,
     sent_by (play_loop L (seq 0 (Z.to_nat (play_times w))) None w) ++
     [log_signal (msg_play_error e) ERROR])).
  { unfold play_audio, try_except. rewrite bind_get. unfold bind at 1.
    destruct (play_loop L (seq 0 (Z.to_nat (play_times w))) None w)
      as [[r s] es].
    rewrite result_of_triple in R. rewrite state_of_triple in St.
    subst r s. rewrite Ho. reflexivity. }
  rewrite E, result_of_triple, state_of_triple, sent_by_triple.
  rewrite filter_app, length_app, C, existsb_app. simpl.
  repeat split; [lia|apply orb_true_r].
Qed.

(** A player that is not installed: one attempt out of three. *)
Lemma play_audio_stops_at_a_failed_launch_witness :
  let L := {| MORPH_AVAILABLE := true;
              new_Normalizer := Ret mark_stress;
              new_GoogleTranslator := Ret to_chinese;
              new_MorphAnalyzer := Ret noun_analyzer;
              gTTS_save := fun _ _ => Ret tt;
              from_file := fun _ => Ret tt;
              add_gain := fun _ => Ret tt;
              normalize := Ret tt;
              export := fun _ => Ret tt;
              path_exists := fun _ => true;
              remove := fun _ => Ret tt;
              sys_platform := other_platform;
              subprocess_run := fun _ =>
                Raise (mk_exn OtherException (utf8 "FileNotFoundError")) |} in
  result_of (play_audio L (worker_of L))
    = Ret (false, Some (utf8 "FileNotFoundError")) /\
  length (filter is_player_call (sent_by (play_audio L (worker_of L)))) = 1%nat.
Proof.
  intros L.
  destruct (play_audio_stops_at_a_failed_launch L (worker_of L)
              (fun _ => (0, [])) (mk_exn OtherException (utf8 "FileNotFoundError"))
              0%nat) as (H1 & _ & H2 & _).
  - intros i Hi. lia.
  - reflexivity.
  - reflexivity.
  - vm_compute. lia.
  - split; [exact H1|exact H2].
Defined.



(* ------------------------------------------------------------------ *)
(** ** The watcher, further *)

(** X11. The debounce compares a content with the last one processed only:
    a content that comes back after a different one has been processed is
    processed again.  Readings [c], [d], [c], with [c] and [d] different and
    not blank and the cooldown elapsed at each, trigger three times. *)
Theorem same_content_triggers_again_after_another {U : CharClasses}
    (w : WorkerThread) (L1 L2 L3 : libs) (c d : pystr) (t1 t2 t3 : Q) :
  is_running w = true -> is_processing w = false -> good w ->
  ordinary_libs L1 -> ordinary_libs L2 -> ordinary_libs L3 ->
  strip c <> [] -> strip d <> [] -> c <> d -> last_content w <> c ->
  (process_cooldown w <= t1 - last_process_time w)%Q ->
  (process_cooldown w <= t2 - t1)%Q ->
  (process_cooldown w <= t3 - t2)%Q ->
  result_of (run_loop [tick_of L1 c t1; tick_of L2 d t2; tick_of L3 c t3] w)
  = Ret [true; true; true].
Proof.
  intros Hr Hp G O1 O2 O3 Sc Sd Ncd Nl C1 C2 C3.
  rewrite run_loop_follows_rule; auto.
  2:{ repeat (apply Forall_cons; [split; [reflexivity|assumption]|]).
      apply Forall_nil. }
  cbn [map reading tick_of clipboard clock spec_triggers].
  rewrite (proj2 (spec_trigger_iff _ _ _ c t1)) by (repeat split; auto).
  rewrite (proj2 (spec_trigger_iff _ _ _ d t2)) by (repeat split; auto).
  rewrite (proj2 (spec_trigger_iff _ _ _ c t3)) by (repeat split; auto).
  reflexivity.
Qed.

Lemma same_content_triggers_again_after_another_witness :
  result_of
    (@run_loop sample_classes
       [tick_of working_libs (utf8 "А") 1; tick_of working_libs (utf8 "Б") 2;
        tick_of working_libs (utf8 "А") 3]
       (set_is_running true (configured working_libs 1 true)))
  = Ret [true; true; true].
Proof.
  apply (@same_content_triggers_again_after_another sample_classes);
    try reflexivity; try discriminate;
    try (repeat split; intros; exact I).
  split; [|split]; simpl; intros f E; injection E as <-; intros s;
    try exact I.
  split; [exact I|]. intros p E. injection E as <-. exact I.
Defined.

(** X12. A content that arrives before the cooldown has elapsed is not
    processed and is not recorded either: it is processed by the first later
    tick that still reads it once the cooldown has elapsed. *)
Theorem content_read_during_cooldown_is_deferred {U : CharClasses}
    (w : WorkerThread) (L1 L2 : libs) (c : pystr) (t1 t2 : Q) :
  is_running w = true -> is_processing w = false -> good w ->
  ordinary_libs L1 -> ordinary_libs L2 ->
  strip c <> [] -> last_content w <> c ->
  (t1 - last_process_time w < process_cooldown w)%Q ->
  (process_cooldown w <= t2 - last_process_time w)%Q ->
  state_of (poll_tick (tick_of L1 c t1) w) = w
  /\ result_of (run_loop [tick_of L1 c t1; tick_of L2 c t2] w)
     = Ret [false; true].
Proof.
  intros Hr Hp G O1 O2 Sc Nl C1 C2.
  assert (F : spec_trigger (process_cooldown w) (last_content w)
                (last_process_time w) c t1 = false).
  { destruct (spec_trigger _ _ _ c t1) eqn:E; [|reflexivity].
    apply spec_trigger_iff in E. destruct E as (_ & _ & E).
    exfalso. apply (Qlt_not_le _ _ C1 E). }
  split.
  - rewrite (poll_tick_run (tick_of L1 c t1) w c Hp eq_refl).
    rewrite should_trigger_spec. cbn [clock tick_of]. rewrite F. reflexivity.
  - rewrite run_loop_follows_rule; auto.
    2:{ repeat (apply Forall_cons; [split; [reflexivity|assumption]|]).
        apply Forall_nil. }
    cbn [map reading tick_of clipboard clock spec_triggers]. rewrite F.
    rewrite (proj2 (spec_trigger_iff _ _ _ c t2)) by (repeat split; auto).
    reflexivity.
Qed.

(** "Б" copied 0.4 s after "А" was processed, with a cooldown of 1 s. *)
Lemma content_read_during_cooldown_is_deferred_witness :
  let w := state_of (@poll_tick sample_classes
                       (tick_of working_libs (utf8 "А") 10)
                       (set_is_running true (configured working_libs 1 true))) in
  result_of
    (@run_loop sample_classes
       [tick_of working_libs (utf8 "Б") (104 # 10);
        tick_of working_libs (utf8 "Б") 11] w)
  = Ret [false; true].
Proof.
  intros w.
  apply (@content_read_during_cooldown_is_deferred sample_classes);
    try (vm_compute; reflexivity); try (vm_compute; discriminate);
    try (repeat split; intros; exact I).
  split; [|split]; simpl; intros f E; injection E as <-; intros s;
    try exact I.
  split; [exact I|]. intros p E. injection E as <-. exact I.
Defined.

Section Counter.
Context {U : CharClasses} {K : Type}.
Variable L : libs.
Variable key : WorkerThread -> K.
Hypothesis key_ignores_results :
  forall v w, key (set_word_analysis_results v w) = key w.

Lemma keeps_enrich_but_results text : keeps key (enrich text).
Proof.
  unfold enrich.
  apply keeps_bind; [apply keeps_add_stress_marks|intros [tws sa]].
  apply keeps_bind; [apply keeps_translate_russian|intros [tt ts]].
  apply keeps_bind; [apply keeps_morphological_analysis|intros [[mr ms] wa]].
  apply keeps_bind; [apply keeps_emit|intros _].
  apply keeps_bind; [apply keeps_modify; apply key_ignores_results|intros _].
  repeat keeps_step; apply keeps_translate_words.
Qed.

Lemma keeps_text_to_speech_russian_but_results text :
  keeps key (text_to_speech_russian L text).
Proof.
  unfold text_to_speech_russian. apply keeps_try_except.
  - apply keeps_bind; [apply keeps_enrich_but_results|intros [tws sa]].
    apply keeps_bind; [apply keeps_enhanced_audio|intros; apply keeps_ret].
  - intros. apply keeps_fallback_audio.
Qed.

End Counter.

Section CounterOfTexts.
Context {U : CharClasses}.

(** [speak] counts the text and announces the new count before anything
    else, whatever happens next. *)
Lemma speak_counts L c w :
  processed_count (state_of (speak L c w)) = processed_count w + 1
  /\ exists rest,
       sent_by (speak L c w) =
       processed_count_signal (processed_count w + 1) :: rest.
Proof.
  unfold speak. rewrite bind_modify, bind_get, bind_emit.
  rewrite state_of_triple, sent_by_triple. split; [|eexists; reflexivity].
  match goal with
  | |- processed_count (state_of (?m ?s)) = _ =>
      assert (Kp : keeps processed_count m)
  end.
  { apply keeps_bind; [apply keeps_emit|intros _].
    apply keeps_bind;
      [apply keeps_text_to_speech_russian_but_results; reflexivity
      |intros [ok sa]].
    destruct ok; [|apply keeps_emit].
    apply keeps_bind; [apply keeps_play_audio|intros [pok msg]].
    destruct (negb pok); [apply keeps_emit|apply keeps_ret]. }
  rewrite Kp. reflexivity.
Qed.

End CounterOfTexts.

(** X13. The counter of processed texts counts exactly the ticks that
    trigger on a Russian text: such a tick adds 1 to it and announces the new
    value by [processed_count_signal], even when the processing then raises;
    any other tick leaves it as it was. *)
Theorem processed_count_counts_russian_triggers {U : CharClasses}
    (tk : tick) (w : WorkerThread) (c : pystr) (russian : bool) :
  is_processing w = false ->
  clipboard tk = Ret c ->
  is_russian_text c = Ret russian ->
  processed_count (state_of (poll_tick tk w)) =
    processed_count w +
    (if should_trigger w c (clock tk) && russian then 1 else 0)
  /\ (should_trigger w c (clock tk) && russian = true ->
      In (processed_count_signal (processed_count w + 1))
         (sent_by (poll_tick tk w))).
Proof.
  intros Hp Hc Hr. rewrite (poll_tick_run tk w c Hp Hc).
  destruct (should_trigger w c (clock tk)); simpl andb.
  2:{ rewrite state_of_triple. split; [lia|discriminate]. }
  rewrite (process_run (world tk) c (clock tk) w russian Hr).
  assert (B : processed_count
                (state_of (branch (world tk) c russian (touched c (clock tk) w)))
              = processed_count w + (if russian then 1 else 0)
              /\ (russian = true ->
                  In (processed_count_signal (processed_count w + 1))
                     (sent_by (branch (world tk) c russian
                                 (touched c (clock tk) w))))).
  { destruct russian; cbn [branch].
    - destruct (speak_counts (world tk) c (touched c (clock tk) w))
        as (S1 & rest & S2).
      rewrite S1, S2. split; [reflexivity|]. intros _. left. reflexivity.
    - split; [simpl; lia|discriminate]. }
  destruct B as [B1 B2].
  destruct (result_of (branch (world tk) c russian (touched c (clock tk) w)));
    rewrite state_of_triple, sent_by_triple.
  - split; [exact B1|]. intros R. cbn [app]. right. right.
    apply in_or_app. left. apply B2, R.
  - split; [exact B1|]. intros R. cbn [app]. right. right. apply B2, R.
Qed.

Lemma processed_count_counts_russian_triggers_witness :
  processed_count
    (state_of (@poll_tick sample_classes (tick_of working_libs (utf8 "Привет") 5)
                 (worker_of working_libs))) = 1.
Proof.
  destruct (@processed_count_counts_russian_triggers sample_classes
              (tick_of working_libs (utf8 "Привет") 5) (worker_of working_libs)
              (utf8 "Привет") true eq_refl eq_refl eq_refl) as [H _].
  rewrite H. reflexivity.
Defined.

(** X14. When the clipboard cannot be read, the monitoring ends at once:
    nothing more is polled, an exception of class [Exception] is reported by
    a notification of level error and [run] returns, any other exception
    leaves [run]; in both cases the status "已停止" and the closing
    notification are emitted. *)
Theorem run_ends_when_the_clipboard_cannot_be_read {U : CharClasses}
    (tk : tick) (later : list tick) (w : WorkerThread) (e : exn) :
  is_processing w = false ->
  clipboard tk = Raise e ->
  run (tk :: later) w =
  ((if is_Exception e then Ret tt else Raise e),
   set_is_running true w,
   [log_signal msg_monitor_started SUCCESS;
    status_signal (utf8 "监控中...");
    call_paste] ++
   (if is_Exception e then [log_signal (msg_unexpected e) ERROR] else []) ++
   [status_signal (utf8 "已停止");
    log_signal msg_monitor_stopped INFO]).
Proof.
  intros Hp Hc.
  assert (E : run_loop (tk :: later) (set_is_running true w) =
              (Raise e, set_is_running true w, [call_paste])).
  { cbn [run_loop]. rewrite bind_get. cbn [is_running set_is_running].
    apply bind_raises. unfold poll_tick. rewrite bind_get.
    cbn [is_processing set_is_processing set_is_running]. rewrite Hp.
    apply bind_raises. unfold call. rewrite Hc. reflexivity. }
  unfold run. rewrite bind_modify, !bind_emit.
  unfold try_finally, try_except.
  rewrite (bind_raises _ _ _ _ _ _ E).
  destruct (is_Exception e); reflexivity.
Qed.

Lemma run_ends_when_the_clipboard_cannot_be_read_witness :
  let no_clipboard :=
    {| clipboard := Raise (mk_exn OtherException (utf8 "PyperclipException"));
       clock := 5; world := working_libs |} in
  result_of (@run sample_classes
               [no_clipboard; tick_of working_libs (utf8 "Привет") 6]
               (worker_of working_libs)) = Ret tt.
Proof.
  intros no_clipboard.
  rewrite (@run_ends_when_the_clipboard_cannot_be_read sample_classes
             no_clipboard [tick_of working_libs (utf8 "Привет") 6]
             (worker_of working_libs)
             (mk_exn OtherException (utf8 "PyperclipException"))
             eq_refl eq_refl).
  reflexivity.
Defined.

(** X15. However the loop ends, by the end of its ticks or by an exception
    of any class, [run] opens with the notification that the monitoring has
    started and the status "监控中...", and the last two things it emits are
    the status "已停止" and the closing notification. *)
Theorem run_always_announces_that_it_stopped {U : CharClasses}
    (ticks : list tick) (w : WorkerThread) :
  exists between,
    sent_by (run ticks w) =
    [log_signal msg_monitor_started SUCCESS; status_signal (utf8 "监控中...")]
    ++ between ++
    [status_signal (utf8 "已停止"); log_signal msg_monitor_stopped INFO].
Proof.
  unfold run. rewrite bind_modify, !bind_emit, !sent_by_triple.
  unfold try_finally, try_except, bind, emit, ret.
  destruct (run_loop ticks (set_is_running true w)) as [[[a|e] s1] es].
  - exists es. unfold sent_by. simpl. rewrite app_nil_r. reflexivity.
  - destruct (is_Exception e).
    + exists (es ++ [log_signal (msg_unexpected e) ERROR]).
      unfold sent_by. simpl. rewrite <- app_assoc. reflexivity.
    + exists es. reflexivity.
Qed.

(* ------------------------------------------------------------------ *)
(** ** The pipeline and the state of the watcher *)

(** X16. Speech synthesis and playback never touch what the watcher decides
    on: [text_to_speech_russian] assigns no field of the worker but
    [word_analysis_results], however it ends, and [play_audio] assigns none
    at all. *)
Theorem pipeline_keeps_the_watcher_state (L : libs) (text : pystr)
    (w : WorkerThread) :
  without_results (state_of (text_to_speech_russian L text w))
    = without_results w
  /\ state_of (play_audio L w) = w.
Proof.
  split.
  - apply (keeps_text_to_speech_russian_but_results L without_results).
    reflexivity.
  - apply (keeps_play_audio L (fun w => w)).
Qed.

(** X17. The temporary file is removed after the enhanced audio has been
    exported, inside the same [try]: when that removal fails, the handler
    runs all the same, the plain synthesis of the original text is written
    over the enhanced audio at the final path, and the stress is reported as
    not added. *)
Theorem failed_cleanup_replaces_the_enhanced_audio (L : libs) (text : pystr)
    (w : WorkerThread) (tws : pystr) (sa : bool) (w1 : WorkerThread)
    (es1 : list event) (e : exn) :
  enrich text w = (Ret (tws, sa), w1, es1) ->
  gTTS_save L tws temp_path = Ret tt ->
  from_file L temp_path = Ret tt ->
  add_gain L (audio_gain_db w1) = Ret tt ->
  normalize L = Ret tt ->
  export L AUDIO_FILE_PATH = Ret tt ->
  path_exists L temp_path = true ->
  remove L temp_path = Raise e ->
  is_Exception e = true ->
  text_to_speech_russian L text w =
  (Ret (returns (gTTS_save L text AUDIO_FILE_PATH), false), w1,
   es1 ++
   [call_gTTS_save tws temp_path; call_from_file temp_path;
    call_gain (audio_gain_db w1); call_normalize;
    call_export AUDIO_FILE_PATH; call_exists temp_path;
    call_remove temp_path] ++
   [log_signal (msg_audio_fallback e) WARNING;
    call_gTTS_save text AUDIO_FILE_PATH] ++
   (if returns (gTTS_save L text AUDIO_FILE_PATH) then []
    else [log_signal (msg_synthesis_failed e) ERROR])).
Proof.
  intros E H1 H2 H3 H4 H5 H6 H7 He.
  rewrite (text_to_speech_russian_run L text w tws sa w1 es1 E).
  assert (A : enhanced_audio L tws w1 =
    (Raise e, w1,
     [call_gTTS_save tws temp_path; call_from_file temp_path;
      call_gain (audio_gain_db w1); call_normalize;
      call_export AUDIO_FILE_PATH; call_exists temp_path;
      call_remove temp_path])).
  { unfold enhanced_audio, bind, call, get, ret.
    rewrite H1, H2, H3, H4, H5, H6, H7. reflexivity. }
  rewrite A, result_of_triple, sent_by_triple, He. reflexivity.
Qed.

Lemma failed_cleanup_replaces_the_enhanced_audio_witness :
  let L := {| MORPH_AVAILABLE := true;
              new_Normalizer := Ret mark_stress;
              new_GoogleTranslator := Ret to_chinese;
              new_MorphAnalyzer := Ret noun_analyzer;
              gTTS_save := fun _ _ => Ret tt;
              from_file := fun _ => Ret tt;
              add_gain := fun _ => Ret tt;
              normalize := Ret tt;
              export := fun _ => Ret tt;
              path_exists := fun _ => true;
              remove := fun _ =>
                Raise (mk_exn OtherException (utf8 "PermissionError"));
              sys_platform := other_platform;
              subprocess_run := fun _ => Ret (0, []) |} in
  result_of (text_to_speech_russian L (utf8 "Привет") (worker_of L))
  = Ret (true, false).
Proof.
  intros L.
  rewrite (failed_cleanup_replaces_the_enhanced_audio L (utf8 "Привет")
             (worker_of L) (utf8 "Привет" ++ [0x301]) true
             (state_of (enrich (utf8 "Привет") (worker_of L)))
             (sent_by (enrich (utf8 "Привет") (worker_of L)))
             (mk_exn OtherException (utf8 "PermissionError")));
    vm_compute; reflexivity.
Defined.

(* ------------------------------------------------------------------ *)
(** ** Properties that a method preserves *)

Section Preservation.
Context {S E : Type}.
Variable I : S -> Prop.

Lemma preserves_ret {A} (a : A) : preserves I (ret a : M S E A).
Proof. intros s H; exact H. Qed.

Lemma preserves_lift {A} (r : res A) : preserves I (lift r : M S E A).
Proof. intros s H; exact H. Qed.

Lemma preserves_emit (e : E) : preserves I (emit e : M S E unit).
Proof. intros s H; exact H. Qed.

Lemma preserves_get {A} (f : S -> A) : preserves I (get f : M S E A).
Proof. intros s H; exact H. Qed.

Lemma preserves_modify (f : S -> S) :
  (forall s, I s -> I (f s)) -> preserves I (modify f : M S E unit).
Proof. intros Hf s H; apply Hf, H. Qed.

Lemma preserves_bind {A B} (m : M S E A) (f : A -> M S E B) :
  preserves I m -> (forall a, preserves I (f a)) -> preserves I (bind m f).
Proof.
  intros Hm Hf s H. specialize (Hm s H). unfold bind, state_of in *.
  destruct (m s) as [[[a|e] s1] es]; simpl in *; [|exact Hm].
  specialize (Hf a s1 Hm). unfold state_of in Hf.
  destruct (f a s1) as [[r2 s2] es2]; simpl in *. exact Hf.
Qed.

Lemma preserves_try_except {A} (m : M S E A) (h : exn -> M S E A) :
  preserves I m -> (forall e, preserves I (h e)) ->
  preserves I (try_except m h).
Proof.
  intros Hm Hh s H. specialize (Hm s H). unfold try_except, state_of in *.
  destruct (m s) as [[[a|e] s1] es]; simpl in *; [exact Hm|].
  destruct (is_Exception e); simpl; [|exact Hm].
  specialize (Hh e s1 Hm). unfold state_of in Hh.
  destruct (h e s1) as [[r2 s2] es2]; simpl in *. exact Hh.
Qed.

End Preservation.

Section Tools.
Variable L : libs.

(** A property of the worker that holds when a tool is stored and that the
    assignments of [set_parameters] do not concern. *)
Variable I : WorkerThread -> Prop.
Hypothesis I_normalizer : forall t w, I w -> I (set_normalizer (Some t) w).
Hypothesis I_translator : forall t w, I w -> I (set_translator (Some t) w).
Hypothesis I_analyzer : forall t w, I w -> I (set_morph_analyzer (Some t) w).

Lemma preserves_load_tool {T} (new : res T)
    (store : option T -> WorkerThread -> WorkerThread)
    (loaded missing : log_msg) (failed : exn -> log_msg) :
  (forall t w, I w -> I (store (Some t) w)) ->
  preserves I (load_tool new store loaded missing failed).
Proof.
  intros Hs. unfold load_tool. apply preserves_try_except.
  - apply preserves_bind; [apply preserves_lift|intros t].
    apply preserves_bind; [apply preserves_modify, Hs|intros _].
    apply preserves_emit.
  - intros e. destruct (is_ImportError e); apply preserves_emit.
Qed.

Lemma preserves_init_tools : preserves I (init_tools L).
Proof.
  unfold init_tools.
  apply preserves_bind; [apply preserves_get|intros stress].
  apply preserves_bind.
  { destruct stress; [apply preserves_load_tool, I_normalizer
                     |apply preserves_ret]. }
  intros _.
  apply preserves_bind; [apply preserves_get|intros translation].
  apply preserves_bind.
  { destruct translation; [apply preserves_load_tool, I_translator
                          |apply preserves_ret]. }
  intros _.
  apply preserves_bind; [apply preserves_get|intros morphology].
  destruct (morphology && MORPH_AVAILABLE L).
  - apply preserves_try_except.
    + apply preserves_bind; [apply preserves_lift|intros t].
      apply preserves_bind; [apply preserves_modify, I_analyzer|intros _].
      apply preserves_emit.
    + intros e. apply preserves_emit.
  - destruct (morphology && negb (MORPH_AVAILABLE L));
      [apply preserves_emit|apply preserves_ret].
Qed.

Lemma preserves_set_parameters times interval check cooldown gain
    stress translation morphology :
  (forall w, I w ->
     I (assign_parameters times interval check cooldown gain
          stress translation morphology w)) ->
  preserves I (set_parameters L times interval check cooldown gain
                 stress translation morphology).
Proof.
  intros Ha. unfold set_parameters.
  apply preserves_bind; [apply preserves_modify, Ha|intros _].
  apply preserves_bind; [apply preserves_init_tools|intros _].
  apply preserves_emit.
Qed.

End Tools.

(** X18. [init_tools], and so [set_parameters], never removes a tool: an
    annotator, a translator or an analyzer that the worker holds is still
    held afterwards, whatever the flags and whatever the libraries do when
    they are loaded again. *)
Theorem init_tools_never_removes_a_tool (L : libs) (w : WorkerThread)
    (times : Z) (interval check cooldown : Q) (gain : Z)
    (stress translation morphology : bool) :
  let after_init := state_of (init_tools L w) in
  let after_set :=
    state_of (set_parameters L times interval check cooldown gain
                stress translation morphology w) in
  (normalizer w <> None ->
     normalizer after_init <> None /\ normalizer after_set <> None)
  /\ (translator w <> None ->
     translator after_init <> None /\ translator after_set <> None)
  /\ (morph_analyzer w <> None ->
     morph_analyzer after_init <> None /\ morph_analyzer after_set <> None).
Proof.
  intros after_init after_set. unfold after_init, after_set.
  split; [|split]; intros H; split.
  - apply (preserves_init_tools L (fun w => normalizer w <> None));
      try (intros t w0 Hw; simpl; first [exact Hw|discriminate]); exact H.
  - apply (preserves_set_parameters L (fun w => normalizer w <> None));
      try (intros t w0 Hw; simpl; first [exact Hw|discriminate]);
      try (intros w0 Hw; exact Hw); exact H.
  - apply (preserves_init_tools L (fun w => translator w <> None));
      try (intros t w0 Hw; simpl; first [exact Hw|discriminate]); exact H.
  - apply (preserves_set_parameters L (fun w => translator w <> None));
      try (intros t w0 Hw; simpl; first [exact Hw|discriminate]);
      try (intros w0 Hw; exact Hw); exact H.
  - apply (preserves_init_tools L (fun w => morph_analyzer w <> None));
      try (intros t w0 Hw; simpl; first [exact Hw|discriminate]); exact H.
  - apply (preserves_set_parameters L (fun w => morph_analyzer w <> None));
      try (intros t w0 Hw; simpl; first [exact Hw|discriminate]);
      try (intros w0 Hw; exact Hw); exact H.
Qed.

(** A worker created while every library loads, then configured with every
    feature off while none loads any more: the three tools are still
    there. *)
Lemma init_tools_never_removes_a_tool_witness :
  let gone := mk_exn ImportError (utf8 "No module") in
  let L := {| MORPH_AVAILABLE := false;
              new_Normalizer := Raise gone;
              new_GoogleTranslator := Raise gone;
              new_MorphAnalyzer := Raise gone;
              gTTS_save := fun _ _ => Ret tt;
              from_file := fun _ => Ret tt;
              add_gain := fun _ => Ret tt;
              normalize := Ret tt;
              export := fun _ => Ret tt;
              path_exists := fun _ => true;
              remove := fun _ => Ret tt;
              sys_platform := other_platform;
              subprocess_run := fun _ => Ret (0, []) |} in
  let w := state_of (set_parameters L 3 (3 # 10) (1 # 2) 1 0 false false false
                       (worker_of working_libs)) in
  normalizer w <> None /\ translator w <> None /\ morph_analyzer w <> None.
Proof.
  intros gone L w.
  destruct (init_tools_never_removes_a_tool L (worker_of working_libs)
              3 (3 # 10) (1 # 2) 1 0 false false false) as (H1 & H2 & H3).
  split; [apply H1; discriminate|].
  split; [apply H2; discriminate|apply H3; discriminate].
Defined.

(* ------------------------------------------------------------------ *)
(** ** The word history, further *)

Section HistoryFurther.
Context {P : Pickle}.

Lemma save_ordinary (io : write_outcome) (m : MainWindow) :
  ordinary_write io ->
  result_of (save_word_history io m) = Ret tt
  /\ word_history (state_of (save_word_history io m)) = word_history m
  /\ word_translations (state_of (save_word_history io m)) = word_translations m
  /\ has_log_text (state_of (save_word_history io m)) = has_log_text m.
Proof.
  intros O. destruct io as [|e remains].
  - rewrite save_written. repeat split.
  - simpl in O. unfold save_word_history, try_except. rewrite bind_get.
    unfold write_history, bind, emit, modify, get, ret, raise. simpl.
    rewrite O. destruct (has_log_text m) eqn:Hl; repeat split; exact Hl.
Qed.

Lemma add_word_ordinary (io : write_outcome) (m : MainWindow)
    (word translation : pystr) :
  ordinary_write io ->
  result_of (add_word_to_history io word translation m) = Ret tt
  /\ word_history (state_of (add_word_to_history io word translation m))
     = (if enters (word, translation)
        then od_set word translation (word_history m) else word_history m)
  /\ word_translations (state_of (add_word_to_history io word translation m))
     = word_translations m.
Proof.
  intros O. unfold add_word_to_history, enters. cbn [fst snd].
  destruct (truthy word && truthy translation
            && negb (str_eqb translation FAILED)).
  - rewrite bind_modify.
    destruct (save_ordinary io
                (set_word_history (od_set word translation (word_history m)) m) O)
      as (R & H & T & _).
    repeat split; assumption.
  - repeat split.
Qed.

Lemma add_words_ordinary (io : nat -> write_outcome) (i : nat)
    (pairs : list (pystr * pystr)) (m : MainWindow) :
  (forall j, ordinary_write (io j)) ->
  result_of (add_words io i pairs m) = Ret tt
  /\ word_history (state_of (add_words io i pairs m))
     = history_after pairs (word_history m)
  /\ word_translations (state_of (add_words io i pairs m))
     = word_translations m.
Proof.
  intros O. revert i m. induction pairs as [|[word translation] rest IH];
    intros i m; [repeat split|].
  cbn [add_words].
  destruct (add_word_ordinary (io i) m word translation (O i)) as (R & H & T).
  pose proof (triple_of_parts _ _ _ R eq_refl) as E.
  rewrite (bind_returns _ _ _ _ _ _ E).
  rewrite result_of_triple, state_of_triple.
  destruct (IH (S i) (state_of (add_word_to_history (io i) word translation m)))
    as (R' & H' & T').
  split; [exact R'|]. split; [|congruence].
  rewrite H', H. reflexivity.
Qed.

Lemma history_after_keeps (pairs : list (pystr * pystr)) (d : table) :
  (unique_keys d -> unique_keys (history_after pairs d))
  /\ (forall k, od_get k d <> None -> od_get k (history_after pairs d) <> None).
Proof.
  revert d. induction pairs as [|[k0 v0] rest IH]; intros d; [split; auto|].
  unfold history_after. cbn [fold_left]. fold (history_after rest).
  destruct (enters (k0, v0)); cbn [fst snd]; [|apply IH].
  destruct (IH (od_set k0 v0 d)) as [I1 I2]. split.
  - intros Hu. apply I1, unique_keys_od_set, Hu.
  - intros k Hk. apply I2.
    destruct (str_eqb k0 k) eqn:E.
    + apply str_eqb_eq in E. subst. rewrite od_get_set. discriminate.
    + apply str_eqb_neq in E. rewrite od_get_set_other by congruence. exact Hk.
Qed.

End HistoryFurther.

(** X19. [load_word_history] never lets a bad file stop the start: with a
    file that cannot be read or that [pickle] cannot load (failures of class
    [Exception]) it returns with an empty history; with a file that loads,
    the history is the table loaded; without a file, the history stays as
    it was.  The file itself is never written. *)
Theorem load_word_history_survives_a_bad_file {P : Pickle} (io : res unit)
    (m : MainWindow) :
  ordinary io ->
  (forall data, history_file m = Some data -> ordinary (pickle_load data)) ->
  result_of (load_word_history io m) = Ret tt
  /\ word_history (state_of (load_word_history io m)) =
     match history_file m with
     | None => word_history m
     | Some data =>
         match io, pickle_load data with
         | Ret _, Ret d => d
         | _, _ => []
         end
     end
  /\ history_file (state_of (load_word_history io m)) = history_file m.
Proof.
  intros Oi Op. unfold load_word_history, try_except. rewrite bind_get.
  destruct (history_file m) as [data|] eqn:F.
  - specialize (Op data eq_refl).
    unfold read_history, bind, emit, lift, modify.
    destruct io as [[]|e]; simpl in Oi.
    + destruct (pickle_load data) as [d|e]; simpl in Op.
      * unfold result_of, state_of. simpl. repeat split. exact F.
      * simpl. rewrite Op. unfold result_of, state_of. simpl.
        repeat split. exact F.
    + simpl. rewrite Oi. unfold result_of, state_of. simpl.
      repeat split. exact F.
  - unfold emit, result_of, state_of. simpl. repeat split. exact F.
Qed.

(** A history file cut short. *)
Lemma load_word_history_survives_a_bad_file_witness :
  let m := {| word_translations := [];
              word_history := [(utf8 "слово", utf8 "word")];
              has_log_text := true;
              history_file := Some [Byte.x00; Byte.x00] |} in
  result_of (@load_word_history sample_pickle (Ret tt) m) = Ret tt /\
  word_history (state_of (@load_word_history sample_pickle (Ret tt) m)) = [].
Proof.
  intros m.
  destruct (@load_word_history_survives_a_bad_file sample_pickle (Ret tt) m)
    as (H1 & H2 & _).
  - exact I.
  - intros data E. injection E as <-. reflexivity.
  - split; [exact H1|exact H2].
Defined.

(** X20. A write of the history that fails is not undone in memory and not
    repeated: after [add_word_to_history] with a write that fails and leaves
    the file as it was, the history in memory holds the new word, the call
    has returned as if nothing had happened, and loading the file again
    gives back the table of before, without the word. *)
Theorem failed_write_leaves_memory_ahead_of_the_file {P : Pickle}
    (m : MainWindow) (on_disk : table) (word translation : pystr) (e : exn) :
  history_file m = Some (pickle_dump on_disk) ->
  pickle_load (pickle_dump on_disk) = Ret on_disk ->
  word <> [] -> translation <> [] -> translation <> FAILED ->
  is_Exception e = true ->
  let added :=
    add_word_to_history (write_failed e (history_file m)) word translation m in
  result_of added = Ret tt
  /\ od_get word (word_history (state_of added)) = Some translation
  /\ history_file (state_of added) = history_file m
  /\ word_history (state_of (load_word_history (Ret tt) (state_of added)))
     = on_disk.
Proof.
  intros F R Hw Ht Hf He added.
  assert (E : added =
    (Ret tt,
     set_history_file (history_file m)
       (set_word_history (od_set word translation (word_history m)) m),
     sent_by added)).
  { unfold added. rewrite (add_word_run _ m word translation Hw Ht Hf).
    unfold save_word_history, try_except. rewrite bind_get.
    unfold write_history, bind, emit, modify, get, ret, raise. simpl.
    rewrite He. destruct (has_log_text m); reflexivity. }
  rewrite E, result_of_triple, state_of_triple.
  split; [reflexivity|]. split; [apply od_get_set|]. split; [reflexivity|].
  rewrite (load_read _ (pickle_dump on_disk) on_disk); [reflexivity| |exact R].
  simpl. exact F.
Qed.

Lemma failed_write_leaves_memory_ahead_of_the_file_witness :
  let m := {| word_translations := []; word_history := [];
              has_log_text := true;
              history_file := Some (@pickle_dump sample_pickle []) |} in
  let added :=
    @add_word_to_history sample_pickle
      (write_failed (mk_exn OtherException (utf8 "PermissionError"))
         (history_file m))
      (utf8 "слово") (utf8 "word") m in
  od_get (utf8 "слово") (word_history (state_of added)) = Some (utf8 "word") /\
  word_history
    (state_of (@load_word_history sample_pickle (Ret tt) (state_of added))) = [].
Proof.
  intros m added.
  destruct (@failed_write_leaves_memory_ahead_of_the_file sample_pickle m []
              (utf8 "слово") (utf8 "word")
              (mk_exn OtherException (utf8 "PermissionError")))
    as (_ & H1 & _ & H2); try reflexivity; try (vm_compute; discriminate).
  split; [exact H1|exact H2].
Defined.

(** X21. [update_word_analysis] keeps the pairs of the cycle as the recent
    words and takes them into the history one by one, in order, each as
    [add_word_to_history] does: pairs with an empty part or with the failure
    sentinel are passed over, a later pair for a word replaces an earlier
    one.  The history only grows: a word that was in it is still in it, and
    its keys stay distinct.  (Writes that fail, if any, fail with exceptions
    of class [Exception].) *)
Theorem update_word_analysis_folds_the_pairs {P : Pickle}
    (io : nat -> write_outcome) (pairs : list (pystr * pystr))
    (m : MainWindow) :
  (forall i, ordinary_write (io i)) ->
  let out := update_word_analysis io pairs m in
  result_of out = Ret tt
  /\ word_translations (state_of out) = pairs
  /\ word_history (state_of out) = history_after pairs (word_history m)
  /\ (unique_keys (word_history m) -> unique_keys (word_history (state_of out)))
  /\ (forall k, od_get k (word_history m) <> None ->
        od_get k (word_history (state_of out)) <> None).
Proof.
  intros O out.
  destruct (add_words_ordinary io 0 pairs (set_word_translations pairs m) O)
    as (R & H & T).
  assert (E : out =
    (Ret tt, state_of (add_words io 0 pairs (set_word_translations pairs m)),
     sent_by out)).
  { unfold out, update_word_analysis. rewrite bind_modify.
    pose proof (triple_of_parts _ _ _ R eq_refl) as E.
    rewrite (bind_returns _ _ _ _ _ _ E), bind_get. unfold emit.
    rewrite !sent_by_triple, result_of_triple, state_of_triple. reflexivity. }
  rewrite E, result_of_triple, state_of_triple.
  split; [reflexivity|]. split; [exact T|]. split; [exact H|].
  rewrite H. simpl word_history. apply history_after_keeps.
Qed.

(** A cycle of three pairs, the second one failed, onto a history of one
    word. *)
Lemma update_word_analysis_folds_the_pairs_witness :
  let m := {| word_translations := [];
              word_history := [(utf8 "мир", utf8 "世界")];
              has_log_text := true; history_file := None |} in
  word_history
    (state_of (@update_word_analysis sample_pickle (fun _ => written)
                 [(utf8 "привет", utf8 "你好"); (utf8 "мир", FAILED);
                  (utf8 "привет", utf8 "嗨")] m))
  = [(utf8 "мир", utf8 "世界"); (utf8 "привет", utf8 "嗨")].
Proof.
  intros m.
  destruct (@update_word_analysis_folds_the_pairs sample_pickle
              (fun _ => written)
              [(utf8 "привет", utf8 "你好"); (utf8 "мир", FAILED);
               (utf8 "привет", utf8 "嗨")] m) as (_ & _ & H & _).
  - intros i. exact I.
  - rewrite H. vm_compute. reflexivity.
Defined.

(* ------------------------------------------------------------------ *)
(** ** Words read back from the log *)

Section Pattern.
Context {A : Type}.

Lemma starts_with_app (l r : pystr) : starts_with l (l ++ r) = true.
Proof.
  induction l as [|a l IH]; simpl; [reflexivity|].
  rewrite Z.eqb_refl, IH. reflexivity.
Qed.

Lemma skipn_length_app (l r : pystr) : skipn (length l) (l ++ r) = r.
Proof. induction l as [|a l IH]; simpl; [reflexivity|exact IH]. Qed.

Lemma lit_app (l r : pystr) (k : pystr -> option A) : lit l k (l ++ r) = k r.
Proof. unfold lit. rewrite starts_with_app, skipn_length_app. reflexivity. Qed.

Lemma nth_skipn_Z (j i : nat) (s : pystr) :
  nth i (skipn j s) 0 = nth (j + i) s 0.
Proof.
  revert s. induction j as [|j IH]; intros s; [reflexivity|].
  destruct s as [|c r]; [destruct i; reflexivity|]. simpl. apply IH.
Qed.

(** The arrow literal can only stand where the second character is the
    arrow. *)
Lemma lit_arrow_needs_arrow (k : pystr -> option A) (s : pystr) :
  nth 1 s 0 <> 0x2192 -> lit arrow k s = None.
Proof.
  intros H. unfold lit. change arrow with [32; 0x2192; 32].
  destruct s as [|a [|b s]]; cbn [starts_with];
    [reflexivity|destruct (32 =? a); reflexivity|].
  cbn [nth] in H. destruct (32 =? a); [|reflexivity]. cbn [andb].
  destruct (Z.eqb_spec 0x2192 b) as [E|E]; [congruence|reflexivity].
Qed.

Lemma nth_without (x : Z) (s : pystr) (i : nat) :
  x <> 0 -> ~ In x s -> nth i s 0 <> x.
Proof.
  intros Hx Hn E. destruct (Nat.lt_ge_cases i (length s)) as [L|L].
  - apply Hn. rewrite <- E. apply nth_In, L.
  - rewrite nth_overflow in E by exact L. congruence.
Qed.

(** In [a ++ " → " ++ b], with [a] and [b] free of arrows, the arrow is
    the character after [a] and the blank. *)
Lemma arrow_between (a b : pystr) (i : nat) :
  ~ In 0x2192 a -> ~ In 0x2192 b ->
  nth i (a ++ arrow ++ b) 0 = 0x2192 -> i = (length a + 1)%nat.
Proof.
  intros Ha Hb E. change arrow with [32; 0x2192; 32] in E.
  destruct (Nat.lt_ge_cases i (length a)) as [L|L].
  - rewrite app_nth1 in E by exact L.
    exfalso. revert E. apply nth_without; [discriminate|exact Ha].
  - rewrite app_nth2 in E by exact L.
    destruct (i - length a)%nat as [|[|[|m]]] eqn:D; simpl in E.
    + discriminate.
    + lia.
    + discriminate.
    + exfalso. revert E. apply nth_without; [discriminate|exact Hb].
Qed.

(** When no longer run lets the rest match, the group stops where it is. *)
Lemma dot_plus_no_longer (k : pystr -> pystr -> option A) (group s : pystr) :
  (forall n, (1 <= n <= length s)%nat ->
     k (group ++ firstn n s) (skipn n s) = None) ->
  dot_plus k group s = match group with [] => None | _ => k group s end.
Proof.
  revert group. induction s as [|c r IH]; intros group H; [reflexivity|].
  cbn [dot_plus]. destruct (c =? 10); [reflexivity|].
  rewrite IH.
  - assert (E : k (group ++ [c]) r = None).
    { apply (H 1%nat). simpl. lia. }
    destruct (group ++ [c]) eqn:G; [destruct group; discriminate G|].
    rewrite E. reflexivity.
  - intros n Hn. rewrite <- app_assoc. apply (H (S n)). simpl. lia.
Qed.

(** The group takes [f] when the rest matches after [f] and after no
    longer run. *)
Lemma dot_plus_takes (k : pystr -> pystr -> option A) (group f rest : pystr)
    (found : A) :
  ~ In 10 f -> group ++ f <> [] ->
  k (group ++ f) rest = Some found ->
  (forall n, (1 <= n <= length rest)%nat ->
     k (group ++ f ++ firstn n rest) (skipn n rest) = None) ->
  dot_plus k group (f ++ rest) = Some found.
Proof.
  revert group. induction f as [|c f IH]; intros group Hn Hne Hk Hl.
  - rewrite app_nil_r in Hk, Hne. simpl. rewrite dot_plus_no_longer.
    + destruct group; [congruence|exact Hk].
    + exact Hl.
  - cbn [app dot_plus].
    destruct (Z.eqb_spec c 10) as [E|E]; [exfalso; apply Hn; left; auto|].
    rewrite (IH (group ++ [c])).
    + reflexivity.
    + intros I. apply Hn. right. exact I.
    + destruct group; discriminate.
    + rewrite <- app_assoc. exact Hk.
    + intros n Hlen. rewrite <- app_assoc. apply Hl, Hlen.
Qed.

(** The group fails when what follows matches at no place of [s]. *)
Lemma dot_plus_fails (k : pystr -> pystr -> option A) (group s : pystr) :
  (forall g n, (n <= length s)%nat -> k g (skipn n s) = None) ->
  dot_plus k group s = None.
Proof.
  revert group. induction s as [|c r IH]; intros group H.
  - simpl. destruct group; [reflexivity|]. apply (H _ 0%nat). simpl. lia.
  - cbn [dot_plus].
    assert (S0 : match group with [] => None | _ => k group (c :: r) end = None).
    { destruct group; [reflexivity|]. apply (H _ 0%nat). simpl. lia. }
    destruct (c =? 10); [exact S0|].
    rewrite IH; [exact S0|].
    intros g n Hn. apply (H g (S n)). simpl. lia.
Qed.

(** After an arrow and a field without arrows, the arrow literal stands at
    no later place. *)
Lemma no_arrow_after_the_last (k : pystr -> option A) (t : pystr) (m : nat) :
  ~ In 0x2192 t -> (1 <= m)%nat ->
  lit arrow k (skipn m (arrow ++ t)) = None.
Proof.
  intros At Hm. apply lit_arrow_needs_arrow.
  rewrite nth_skipn_Z. intros E.
  apply (arrow_between [] t) in E; [simpl in E; lia|intros []|exact At].
Qed.

(** With two arrows left, a group that has gone past the first one finds no
    place for the two arrows that must follow it. *)
Lemma two_arrows_are_needed (k : pystr -> pystr -> option A) (n t : pystr)
    (m : nat) :
  ~ In 0x2192 n -> ~ In 0x2192 t -> (1 <= m)%nat ->
  lit arrow (dot_plus (fun g => lit arrow (k g)) [])
    (skipn m (arrow ++ n ++ arrow ++ t)) = None.
Proof.
  intros An At Hm.
  destruct (Nat.eq_dec m (length n + 3)) as [->|D].
  - (* the rest starts at the second arrow: no third field follows *)
    assert (Sk : skipn (length n + 3) (arrow ++ n ++ arrow ++ t) = arrow ++ t).
    { change arrow with [32; 0x2192; 32] at 1.
      replace (length n + 3)%nat with (3 + length n)%nat by lia.
      cbn [app Nat.add skipn]. apply skipn_length_app. }
    rewrite Sk, lit_app. apply dot_plus_fails.
    intros g j Hj. apply lit_arrow_needs_arrow.
    rewrite nth_skipn_Z. apply nth_without; [discriminate|exact At].
  - apply lit_arrow_needs_arrow. rewrite nth_skipn_Z. intros E.
    change (arrow ++ n ++ arrow ++ t)
      with ([32; 0x2192] ++ (32 :: n) ++ arrow ++ t) in E.
    rewrite app_nth2 in E by (simpl; lia).
    apply arrow_between in E; [simpl in E; lia| |exact At].
    intros [X|X]; [discriminate X|exact (An X)].
Qed.

End Pattern.

Lemma match_here_reads_the_fields (o n t : pystr) :
  plain_field o -> plain_field n -> plain_field t ->
  match_here (word_translation_text o n t) = Some (o, n, t).
Proof.
  intros (Ho & Ao & No) (Hn & An & Nn) (Ht & At & Nt).
  unfold match_here, word_translation_text. rewrite lit_app.
  (* the first group takes the original *)
  apply dot_plus_takes; [exact No|exact Ho| |].
  - cbn [app]. rewrite lit_app.
    (* the second group takes the normal form *)
    apply dot_plus_takes; [exact Nn|exact Hn| |].
    + cbn [app]. rewrite lit_app.
      (* the third group takes the translation, to the end *)
      rewrite <- (app_nil_r t) at 1.
      apply dot_plus_takes; [exact Nt|exact Ht|reflexivity|].
      intros m Hm. simpl in Hm. lia.
    + intros m Hm. apply no_arrow_after_the_last; [exact At|lia].
  - intros m Hm. apply two_arrows_are_needed; [exact An|exact At|lia].
Qed.

(** With an arrow inside the translation the first group, being greedy,
    runs up to the second arrow of the line. *)
Lemma match_here_with_an_arrow_in_the_translation (o n t1 t2 : pystr) :
  plain_field o -> plain_field n -> plain_field t1 -> plain_field t2 ->
  match_here (word_translation_text o n (t1 ++ arrow ++ t2))
  = Some (o ++ arrow ++ n, t1, t2).
Proof.
  intros (Ho & Ao & No) (Hn & An & Nn) (H1 & A1 & N1) (H2 & A2 & N2).
  unfold match_here, word_translation_text. rewrite lit_app.
  replace (o ++ arrow ++ n ++ arrow ++ t1 ++ arrow ++ t2)
    with ((o ++ arrow ++ n) ++ arrow ++ t1 ++ arrow ++ t2)
    by (rewrite <- !app_assoc; reflexivity).
  apply dot_plus_takes.
  - intros I. apply in_app_or in I. destruct I as [I|I]; [exact (No I)|].
    apply in_app_or in I. destruct I as [I|I]; [|exact (Nn I)].
    vm_compute in I. intuition discriminate.
  - cbn [app]. destruct o; [congruence|discriminate].
  - cbn [app]. rewrite lit_app.
    apply dot_plus_takes; [exact N1|exact H1| |].
    + cbn [app]. rewrite lit_app.
      rewrite <- (app_nil_r t2) at 1.
      apply dot_plus_takes; [exact N2|exact H2|reflexivity|].
      intros m Hm. simpl in Hm. lia.
    + intros m Hm. apply no_arrow_after_the_last; [exact A2|lia].
  - intros m Hm. apply two_arrows_are_needed; [exact A1|exact A2|lia].
Qed.

Lemma re_search_skips (pre body : pystr) :
  ~ In 0x5355 pre -> re_search (pre ++ body) = re_search body.
Proof.
  induction pre as [|c pre IH]; intros H; [reflexivity|].
  cbn [app re_search].
  assert (M : match_here (c :: pre ++ body) = None).
  { unfold match_here, lit. change (utf8 "单词翻译: ") with
      [0x5355; 0x8BCD; 0x7FFB; 0x8BD1; 58; 32].
    cbn [starts_with].
    destruct (Z.eqb_spec 0x5355 c) as [E|E]; [|reflexivity].
    exfalso. apply H. left. symmetry. exact E. }
  rewrite M. apply IH. intros I. apply H. right. exact I.
Qed.

Lemma re_search_here (s : pystr) groups :
  match_here s = Some groups -> re_search s = Some groups.
Proof. intros H. destruct s; cbn [re_search]; rewrite H; reflexivity. Qed.

Lemma extract_words_app (a b : list pystr) (words : table) :
  extract_words (a ++ b) words = extract_words b (extract_words a words).
Proof.
  revert words. induction a as [|m a IH]; intros words; [reflexivity|].
  cbn [app extract_words].
  destruct (re_search m) as [[[o n] t]|]; [|apply IH].
  destruct (od_get n words); apply IH.
Qed.

Lemma extract_words_keeps (messages : list pystr) (words : table) :
  (unique_keys words -> unique_keys (extract_words messages words))
  /\ (forall k v, od_get k words = Some v ->
        od_get k (extract_words messages words) = Some v).
Proof.
  revert words. induction messages as [|m rest IH]; intros words;
    [split; auto|].
  cbn [extract_words].
  destruct (re_search m) as [[[o n] t]|]; [|apply IH].
  destruct (od_get n words) eqn:G; [apply IH|].
  destruct (IH (od_set n t words)) as [I1 I2]. split.
  - intros Hu. apply I1, unique_keys_od_set, Hu.
  - intros k v Hk. apply I2. rewrite od_get_set_other; [exact Hk|].
    intros ->. congruence.
Qed.

(** A line of the log is searched from its start; the prefix and the
    timestamp hold no place where the pattern can begin. *)
Lemma re_search_in_a_log_line (msg_type : level) (timestamp message : pystr)
    groups :
  ~ In 0x5355 timestamp ->
  match_here message = Some groups ->
  re_search (plain_msg msg_type timestamp message) = Some groups.
Proof.
  intros Hts Hm. unfold plain_msg. rewrite !app_assoc.
  rewrite re_search_skips.
  - apply re_search_here, Hm.
  - intros I. repeat (apply in_app_or in I; destruct I as [I|I]).
    + destruct msg_type; vm_compute in I; intuition discriminate.
    + vm_compute in I; intuition discriminate.
    + exact (Hts I).
    + vm_compute in I; intuition discriminate.
Qed.

(** X22. A translation of a word that the worker has logged is read back
    from the log line by the pattern of [extract_words_from_log]: whatever
    the type and the timestamp of the line, the original word, its normal
    form and its translation come back as they were written, provided none
    of them is empty or contains the arrow or a newline.  A log of that one
    line gives the dictionary of that one word. *)
Theorem logged_translation_is_read_back (msg_type : level)
    (timestamp original normal_form translation : pystr) :
  ~ In 0x5355 timestamp ->
  plain_field original -> plain_field normal_form -> plain_field translation ->
  re_search
    (plain_msg msg_type timestamp
       (word_translation_text original normal_form translation))
  = Some (original, normal_form, translation)
  /\ extract_words_from_log
       [plain_msg msg_type timestamp
          (word_translation_text original normal_form translation)]
     = [(normal_form, translation)].
Proof.
  intros Hts Ho Hn Ht.
  assert (R : re_search
                (plain_msg msg_type timestamp
                   (word_translation_text original normal_form translation))
              = Some (original, normal_form, translation)).
  { apply re_search_in_a_log_line; [exact Hts|].
    apply match_here_reads_the_fields; assumption. }
  split; [exact R|].
  unfold extract_words_from_log. cbn [extract_words]. rewrite R. reflexivity.
Qed.

Lemma logged_translation_is_read_back_witness :
  extract_words_from_log
    [plain_msg INFO (utf8 "12:30:05")
       (word_translation_text (utf8 "слова") (utf8 "слово") (utf8 "单词"))]
  = [(utf8 "слово", utf8 "单词")].
Proof.
  apply (logged_translation_is_read_back INFO (utf8 "12:30:05")
           (utf8 "слова") (utf8 "слово") (utf8 "单词"));
    try (vm_compute; intuition discriminate);
    (split; [discriminate|split; vm_compute; intuition discriminate]).
Defined.

(** X23. [extract_words_from_log] keeps, for a normal form, the translation
    of the first line of the log that gives one: what a log yields is still
    there, unchanged, when more lines follow it; and the normal forms of the
    result are distinct. *)
Theorem extract_words_from_log_keeps_the_first (earlier later : list pystr) :
  unique_keys (extract_words_from_log (earlier ++ later))
  /\ (forall k v,
        od_get k (extract_words_from_log earlier) = Some v ->
        od_get k (extract_words_from_log (earlier ++ later)) = Some v).
Proof.
  unfold extract_words_from_log. split.
  - apply extract_words_keeps. constructor.
  - rewrite extract_words_app. apply extract_words_keeps.
Qed.

(** X24. When the translation of a word itself contains the arrow, the
    pattern of [extract_words_from_log] does not read the line back as it
    was written: the first group, being greedy, takes the original word, the
    arrow and the normal form together, and the translation is cut at its
    arrow.  The word is then recorded under the first part of its
    translation, with the second part as its translation. *)
Theorem arrow_in_translation_shifts_the_fields (msg_type : level)
    (timestamp original normal_form before after : pystr) :
  ~ In 0x5355 timestamp ->
  plain_field original -> plain_field normal_form ->
  plain_field before -> plain_field after ->
  re_search
    (plain_msg msg_type timestamp
       (word_translation_text original normal_form
          (before ++ arrow ++ after)))
  = Some (original ++ arrow ++ normal_form, before, after)
  /\ extract_words_from_log
       [plain_msg msg_type timestamp
          (word_translation_text original normal_form
             (before ++ arrow ++ after))]
     = [(before, after)].
Proof.
  intros Hts Ho Hn Hb Ha.
  assert (R : re_search
                (plain_msg msg_type timestamp
                   (word_translation_text original normal_form
                      (before ++ arrow ++ after)))
              = Some (original ++ arrow ++ normal_form, before, after)).
  { apply re_search_in_a_log_line; [exact Hts|].
    apply match_here_with_an_arrow_in_the_translation; assumption. }
  split; [exact R|].
  unfold extract_words_from_log. cbn [extract_words]. rewrite R. reflexivity.
Qed.

Lemma arrow_in_translation_shifts_the_fields_witness :
  extract_words_from_log
    [plain_msg INFO (utf8 "12:30:05")
       (word_translation_text (utf8 "слова") (utf8 "слово")
          (utf8 "词" ++ arrow ++ utf8 "单词"))]
  = [(utf8 "词", utf8 "单词")].
Proof.
  apply (arrow_in_translation_shifts_the_fields INFO (utf8 "12:30:05")
           (utf8 "слова") (utf8 "слово") (utf8 "词") (utf8 "单词"));
    try (vm_compute; intuition discriminate);
    (split; [discriminate|split; vm_compute; intuition discriminate]).
Defined.

(* ------------------------------------------------------------------ *)
(** ** Composite grammemes *)

Lemma contains_false (c : Z) (s : pystr) : ~ In c s -> contains c s = false.
Proof.
  intros H. unfold contains. induction s as [|x s IH]; [reflexivity|].
  cbn [existsb]. destruct (Z.eqb_spec c x) as [E|E].
  - exfalso. apply H. left. symmetry. exact E.
  - apply IH. intros I. apply H. right. exact I.
Qed.

Lemma contains_true (c : Z) (a b : pystr) : contains c (a ++ c :: b) = true.
Proof.
  unfold contains. rewrite existsb_app. cbn [existsb].
  rewrite Z.eqb_refl, orb_true_r. reflexivity.
Qed.

Lemma split_at_plain (sep : Z) (cur p r : pystr) :
  ~ In sep p -> split_at sep cur (p ++ r) = split_at sep (cur ++ p) r.
Proof.
  revert cur. induction p as [|x p IH]; intros cur H.
  - rewrite app_nil_r. reflexivity.
  - cbn [app split_at]. destruct (Z.eqb_spec x sep) as [E|E].
    + exfalso. apply H. left. exact E.
    + rewrite IH, <- app_assoc; [reflexivity|].
      intros I. apply H. right. exact I.
Qed.

(** [sep.join(parts).split(sep)] gives the parts back when none of them
    holds the separator. *)
Lemma split_join (sep : Z) (p : pystr) (parts : list pystr) :
  (forall q, In q (p :: parts) -> ~ In sep q) ->
  split sep (join [sep] (p :: parts)) = p :: parts.
Proof.
  unfold split. revert p. induction parts as [|q ps IH]; intros p H.
  - cbn [join]. rewrite <- (app_nil_r p) at 1.
    rewrite split_at_plain by (apply H; left; reflexivity). reflexivity.
  - change (join [sep] (p :: q :: ps)) with (p ++ sep :: join [sep] (q :: ps)).
    rewrite split_at_plain by (apply H; left; reflexivity).
    cbn [split_at app]. rewrite Z.eqb_refl, IH; [reflexivity|].
    intros r I. apply H. right. exact I.
Qed.

(** X25. A composite grammeme, such as ["Anph sing"], is described by
    [tag_to_cn] exactly as its parts listed one by one would be: joining
    grammemes with blanks inside a tag does not change the description.  The
    parts must be there and hold no blank themselves. *)
Theorem composite_grammeme_is_described_by_its_parts
    (before parts after : list pystr) :
  parts <> [] ->
  (forall p, In p parts -> ~ In space p) ->
  tag_to_cn (Ret (before ++ [join [space] parts] ++ after))
  = tag_to_cn (Ret (before ++ parts ++ after)).
Proof.
  intros Hne Hp. unfold tag_to_cn. do 2 f_equal.
  rewrite !flat_map_app. do 2 f_equal. cbn [flat_map]. rewrite app_nil_r.
  assert (F : forall ps, (forall p, In p ps -> ~ In space p) ->
            flat_map
              (fun g =>
                 if contains space g
                 then map (fun sub_g => dict_get GRAM_MAP sub_g sub_g)
                        (split space g)
                 else [dict_get GRAM_MAP g g]) ps
            = map (fun g => dict_get GRAM_MAP g g) ps).
  { induction ps as [|p ps IH]; intros H; [reflexivity|].
    cbn [flat_map map]. rewrite contains_false by (apply H; left; reflexivity).
    rewrite IH; [reflexivity|]. intros q I. apply H. right. exact I. }
  rewrite (F parts Hp).
  destruct parts as [|p [|q ps]]; [congruence| |].
  - cbn [join map]. rewrite contains_false by (apply Hp; left; reflexivity).
    reflexivity.
  - change (join [space] (p :: q :: ps))
      with (p ++ space :: join [space] (q :: ps)).
    rewrite contains_true.
    change (p ++ space :: join [space] (q :: ps))
      with (join [space] (p :: q :: ps)).
    rewrite split_join by exact Hp. reflexivity.
Qed.

Lemma composite_grammeme_is_described_by_its_parts_witness :
  tag_to_cn
    (Ret ([utf8 "NOUN"] ++ [join [space] [utf8 "Anph"; utf8 "sing"]]
            ++ [utf8 "nomn"]))
  = tag_to_cn
      (Ret ([utf8 "NOUN"] ++ [utf8 "Anph"; utf8 "sing"] ++ [utf8 "nomn"])).
Proof.
  apply (composite_grammeme_is_described_by_its_parts
           [utf8 "NOUN"] [utf8 "Anph"; utf8 "sing"] [utf8 "nomn"]).
  - discriminate.
  - intros p [<-|[<-|[]]]; vm_compute; intuition discriminate.
Defined.
